(** * insert-image: region-aware text layout, verified against [src/index.js]

    A shallow embedding of the layout engine of [src/index.js]:
    the glyph width estimator ([calculateTextWidth]), the empty-region
    finder ([findEmptyRegions]), the font-size solver
    ([calculateOptimalFontSize]), the word wrap of [insertTextIntoRegions],
    the XML escaping of [drawRegionsWithText] and the image read cache
    ([readImageFile], [clearOldestCache]).

    Numbers.  A JavaScript number is an IEEE 754 binary64 value and is
    modelled by Rocq's primitive [float], whose operations are the same
    correctly rounded binary64 operations.  Numbers that the program only
    ever uses as integers (pixel coordinates, grid indices, string
    positions, loop counters, byte counts) are modelled by [Z]; they are
    converted with [Z2F] where the program mixes them with fractions.

    Strings.  A JavaScript string is modelled by [string]; one [ascii] is
    one character of the text.

    Exceptions.  A [TypeError] raised by reading a property of [undefined]
    is modelled in the error monad [Exc]; [try]/[catch] is [catch]. *)

From Stdlib Require Import ZArith Lia List String Ascii Bool.
From Stdlib Require Import PrimFloat FloatOps SpecFloat.
From Stdlib Require FloatAxioms.
From Stdlib Require Import Sorting.Sorted Sorting.Permutation.
From stdpp Require Import base list.

Set Warnings "-inexact-float".
Set Default Proof Using "Type".

Local Open Scope string_scope.
Local Open Scope list_scope.
Local Open Scope Z_scope.

(* ===================================================================== *)
(** * Part I: definitions                                                 *)
(* ===================================================================== *)

(** ** JavaScript numbers *)

Module JsNum.

(** The number whose value is the integer [z], rounded to nearest-even when
    [z] has more than 53 significant bits (exact for [|z| <= 2^53]). *)
Definition Z2F (z : Z) : float :=
  SF2Prim (binary_normalize prec emax z 0 false).

(** [Math.floor]: NaN, the infinities and both zeros are returned as they
    are; a finite number with a non-negative exponent is an integer. *)
Definition Math_floor (x : float) : float :=
  match Prim2SF x with
  | S754_finite s m e =>
      if 0 <=? e then x
      else
        let q := Z.shiftr (Z.pos m) (- e) in
        let exact := Z.shiftl q (- e) =? Z.pos m in
        if s then (if exact then x else Z2F (- (q + 1))) else Z2F q
  | _ => x
  end.

(** [Math.min] of two numbers: NaN if either is NaN, and [-0 < +0]. *)
Definition Math_min (a b : float) : float :=
  if is_nan a then a
  else if is_nan b then b
  else if (a <? b)%float then a
  else if (b <? a)%float then b
  else if get_sign a then a else b.

(** [Math.max] of two numbers: NaN if either is NaN, and [+0 > -0]. *)
Definition Math_max (a b : float) : float :=
  if is_nan a then a
  else if is_nan b then b
  else if (a <? b)%float then b
  else if (b <? a)%float then a
  else if get_sign a then b else a.

(** [Math.ceil(n / d)] for integers [n] and [d > 0] (the quotient of two
    integers below [2^53] is rounded by less than the distance to the next
    integer, so the ceiling of the rounded quotient is the exact one). *)
Definition ceil_div (n d : Z) : Z := - ((- n) / d).

End JsNum.

(** ** JavaScript strings *)

Module JsString.

Definition dquote : ascii := "034"%char.
Definition squote : ascii := "039"%char.
Definition newline : ascii := "010"%char.
Definition tab : ascii := "009"%char.
Definition space : ascii := "032"%char.

(** [s.length] *)
Definition len (s : string) : Z := Z.of_nat (String.length s).

(** [s.split(sep)] for a separator of one character: never empty. *)
Fixpoint split (sep : ascii) (s : string) : list string :=
  match s with
  | EmptyString => [EmptyString]
  | String c rest =>
      if Ascii.eqb c sep then EmptyString :: split sep rest
      else match split sep rest with
           | w :: ws => String c w :: ws
           | [] => [String c EmptyString]
           end
  end.

(** The search of [indexOf]: [i] is the index of the head of [s] in the
    whole string, [from] the clamped start position. *)
Fixpoint indexOf_at (sub s : string) (i from : Z) : Z :=
  if (from <=? i) && String.prefix sub s then i
  else match s with
       | EmptyString => -1
       | String _ rest => indexOf_at sub rest (i + 1) from
       end.

(** [s.indexOf(sub, from)]: the start position is clamped to [0, s.length];
    [-1] when [sub] does not occur from there on. *)
Definition indexOf (s sub : string) (from : Z) : Z :=
  indexOf_at sub s 0 (Z.min (Z.max from 0) (len s)).

(** [s.replace(/c/g, by)] for a pattern of one character. *)
Fixpoint replaceAll (c : ascii) (by_ : string) (s : string) : string :=
  match s with
  | EmptyString => EmptyString
  | String a rest =>
      if Ascii.eqb a c then (by_ ++ replaceAll c by_ rest)%string
      else String a (replaceAll c by_ rest)
  end.

(** [new Set(chars).has(c)] *)
Definition Set_has (chars : string) (c : ascii) : bool :=
  existsb (Ascii.eqb c) (list_ascii_of_string chars).

End JsString.

(** ** Exceptions *)

Module Exc.

Inductive error : Type :=
| TypeError (msg : string).

Definition t (A : Type) : Type := error + A.

Definition ret {A} (a : A) : t A := inr a.
Definition throw {A} (e : error) : t A := inl e.
Definition bind {A B} (m : t A) (k : A -> t B) : t B :=
  match m with
  | inl e => inl e
  | inr a => k a
  end.

(** Reading a property of a value that may be [undefined]. *)
Definition prop_of {A} (what : string) (o : option A) : t A :=
  match o with
  | Some a => ret a
  | None => throw (TypeError ("Cannot read properties of undefined: " ++ what)%string)
  end.

(** [try { m } catch (error) { h error }] *)
Definition catch {A} (m : t A) (h : error -> A) : A :=
  match m with
  | inl e => h e
  | inr a => a
  end.

(** [forEach] with a callback that threads the state [S] and may throw. *)
Fixpoint foldM {A S} (f : S -> A -> t S) (l : list A) (s : S) : t S :=
  match l with
  | [] => ret s
  | a :: l' => bind (f s a) (foldM f l')
  end.

End Exc.

Notation "'let*' x ':=' m 'in' k" := (Exc.bind m (fun x => k))
  (at level 10, x pattern, m at level 100, k at level 200).

(** ** Glyph width estimator ([calculateTextWidth], index.js 1169-1199) *)

Module TextWidth.
Import JsString.

Definition widthRatios_default : float := 0.55.
Definition widthRatios_narrow : float := 0.35.
Definition widthRatios_wide : float := 0.75.
Definition widthRatios_space : float := 0.3.

Definition narrowChars : string :=
  ("ijl,.'" ++ String dquote "|!()[]{}/-_")%string.
Definition wideChars : string := "mwWM@QOCDG%&#AHNUX".
Definition spaceChars : string := String space (String tab EmptyString).

(** The ratio chosen by the [if]/[else if] chain of the loop body. *)
Definition charRatio (char : ascii) : float :=
  if Set_has spaceChars char then widthRatios_space
  else if Set_has narrowChars char then widthRatios_narrow
  else if Set_has wideChars char then widthRatios_wide
  else widthRatios_default.

(** The loop [for (const char of text) totalWidth += fontSize * ratio]. *)
Fixpoint addTextWidth (totalWidth : float) (text : string) (fontSize : float)
  : float :=
  match text with
  | EmptyString => totalWidth
  | String char rest =>
      addTextWidth (totalWidth + fontSize * charRatio char)%float rest fontSize
  end.

Definition calculateTextWidth (text : string) (fontSize : float) : float :=
  addTextWidth 0%float text fontSize.

End TextWidth.

(** ** Image read cache ([clearOldestCache], [readImageFile], index.js 155-190) *)

Module Cache.

(** A [Buffer] is a sequence of bytes; the cache only reads its length. *)
Definition Buffer : Type := list Byte.byte.
Definition buf_length (b : Buffer) : Z := Z.of_nat (List.length b).

(** [imageCache] is a [Map]: keys are unique and are iterated in insertion
    order, so it is an association list, oldest entry first. *)
Record State : Type := mkState {
  imageCache : list (string * Buffer);
  currentCacheSize : Z
}.

Definition MAX_CACHE_SIZE : Z := 100 * 1024 * 1024.

Definition Map_get (k : string) (m : list (string * Buffer)) : option Buffer :=
  snd <$> List.find (fun kv => String.eqb (fst kv) k) m.

Definition Map_delete (k : string) (m : list (string * Buffer))
  : list (string * Buffer) :=
  List.filter (fun kv => negb (String.eqb (fst kv) k)) m.

(** [Map.set]: a present key keeps its place, a new key goes last. *)
Fixpoint Map_set (k : string) (v : Buffer) (m : list (string * Buffer))
  : list (string * Buffer) :=
  match m with
  | [] => [(k, v)]
  | (k', v') :: m' =>
      if String.eqb k' k then (k, v) :: m' else (k', v') :: Map_set k v m'
  end.

Definition clearOldestCache (st : State) : State :=
  match imageCache st with
  | [] => st                                   (* imageCache.size === 0 *)
  | (oldestKey, oldest) :: _ =>
      let oldestSize := buf_length oldest in
      mkState (Map_delete oldestKey (imageCache st))
              (currentCacheSize st - oldestSize)
  end.

(** The loop [while (currentCacheSize + imageBuffer.length > MAX_CACHE_SIZE)
    clearOldestCache()].  [fuel] bounds the number of iterations that are
    run: [None] means that the loop is still running after [fuel] of them. *)
Fixpoint evictLoop (fuel : nat) (len : Z) (st : State) : option State :=
  if currentCacheSize st + len >? MAX_CACHE_SIZE then
    match fuel with
    | O => None
    | S fuel' => evictLoop fuel' len (clearOldestCache st)
    end
  else Some st.

(** The file system: the bytes of the file at a path, if it can be read
    ([fs.readFileSync] throws otherwise). *)
Definition FileSystem : Type := string -> option Buffer.

Inductive Outcome : Type :=
| Returned (b : Buffer) (st : State)
| Thrown (st : State).

(** [readImageFile]: [None] when the eviction loop has not finished within
    [fuel] iterations.  The first match is [imageCache.has(imagePath)]
    followed by [imageCache.get(imagePath)].  The [catch] clause logs and
    rethrows. *)
Definition readImageFile (fuel : nat) (fs : FileSystem) (imagePath : string)
    (st : State) : option Outcome :=
  match Map_get imagePath (imageCache st) with
  | Some cached => Some (Returned cached st)
  | None =>
      match fs imagePath with
      | None => Some (Thrown st)
      | Some imageBuffer =>
          match evictLoop fuel (buf_length imageBuffer) st with
          | None => None
          | Some st' =>
              Some (Returned imageBuffer
                      (mkState (Map_set imagePath imageBuffer (imageCache st'))
                               (currentCacheSize st' + buf_length imageBuffer)))
          end
      end
  end.

(** The state at start-up and after the clean-up of [processAllImages]. *)
Definition emptyState : State := mkState [] 0.

(** The bookkeeping invariant: [currentCacheSize] is the number of bytes
    held by [imageCache], and no key occurs twice. *)
Definition totalBytes (m : list (string * Buffer)) : Z :=
  foldr (fun kv acc => buf_length (snd kv) + acc) 0 m.

Definition consistent (st : State) : Prop :=
  currentCacheSize st = totalBytes (imageCache st) /\
  NoDup (map fst (imageCache st)).

End Cache.

(** ** Empty-region finder ([findEmptyRegions], index.js 315-429) *)

Module Region.
Record t : Type := mk { x : Z; y : Z; width : Z; height : Z }.
End Region.

Module Rectangle.
(** The objects returned by [findEmptyRegions]: the region, tagged. *)
Record t : Type := mk {
  type : string;
  x : Z; y : Z; width : Z; height : Z;
  color : string;
  strokeWidth : Z;
  area : Z
}.
End Rectangle.

Module Regions.
Import JsNum.

(** The decoded grayscale raster: [info.width], [info.height] and the bytes
    [data], one per pixel, row by row. *)
Record Raster : Type := mkRaster {
  info_width : Z;
  info_height : Z;
  data : list Z
}.

Definition cellSize : Z := 5.

(** The body of the two pixel loops: [data[i]] is [undefined] out of range
    and [undefined < 200] is false; a write to a typed array out of range
    is ignored. *)
Definition markPixel (data : list Z) (width gridWidth : Z)
    (grid : list Z) (y x : Z) : list Z :=
  match data !! Z.to_nat (y * width + x) with
  | Some pixel =>
      if pixel <? 200 then
        let gridX := x / cellSize in
        let gridY := y / cellSize in
        <[Z.to_nat (gridY * gridWidth + gridX) := 1]> grid
      else grid
  | None => grid
  end.

Definition markRow (data : list Z) (width gridWidth : Z)
    (grid : list Z) (y : Z) : list Z :=
  foldl (fun g x => markPixel data width gridWidth g y x) grid (seqZ 0 width).

Definition markCells (data : list Z) (width height gridWidth : Z)
    (grid : list Z) : list Z :=
  foldl (markRow data width gridWidth) grid (seqZ 0 height).

(** [grid[i] === 1] *)
Definition occupied (grid : list Z) (i : Z) : bool :=
  match grid !! Z.to_nat i with
  | Some v => v =? 1
  | None => false
  end.

(** The inner loop of the scan, with its [break]. *)
Definition isRowEmpty (grid : list Z) (gridWidth y : Z) : bool :=
  forallb (fun x => negb (occupied grid (y * gridWidth + x)))
          (seqZ 0 gridWidth).

Record Scan : Type := mkScan {
  currentEmptyHeight : Z;
  startY : Z;
  regions : list Region.t
}.

(** [regions.push(...)] when the run of empty rows is high enough. *)
Definition pushRun (width minHeight : Z) (s : Scan) : list Region.t :=
  if currentEmptyHeight s >=? ceil_div minHeight cellSize then
    regions s ++
      [Region.mk 0 (startY s * cellSize) width (currentEmptyHeight s * cellSize)]
  else regions s.

Definition scanRow (grid : list Z) (gridWidth width minHeight : Z)
    (s : Scan) (y : Z) : Scan :=
  if isRowEmpty grid gridWidth y then
    mkScan (currentEmptyHeight s + 1)
           (if currentEmptyHeight s =? 0 then y else startY s)
           (regions s)
  else
    mkScan 0 (startY s) (pushRun width minHeight s).

Definition scanRows (grid : list Z) (gridWidth gridHeight width minHeight : Z)
  : list Region.t :=
  pushRun width minHeight
    (foldl (scanRow grid gridWidth width minHeight) (mkScan 0 0 [])
           (seqZ 0 gridHeight)).

(** The merge loop: [currentRegion] and the regions pushed so far. *)
Definition mergeStep (st : option Region.t * list Region.t) (region : Region.t)
  : option Region.t * list Region.t :=
  match fst st with
  | None => (Some region, snd st)
  | Some currentRegion =>
      if Region.y region - (Region.y currentRegion + Region.height currentRegion)
         <? cellSize * 4
      then
        (Some (Region.mk (Region.x currentRegion) (Region.y currentRegion)
                 (Region.width currentRegion)
                 (Region.y region + Region.height region - Region.y currentRegion)),
         snd st)
      else (Some region, snd st ++ [currentRegion])
  end.

Definition mergeRegions (regions : list Region.t) : list Region.t :=
  let st := foldl mergeStep (None, []) regions in
  match fst st with
  | Some currentRegion => snd st ++ [currentRegion]
  | None => snd st
  end.

Definition toRectangle (region : Region.t) : Rectangle.t :=
  Rectangle.mk "rectangle"
    (Region.x region) (Region.y region) (Region.width region) (Region.height region)
    "blue" 1
    (Region.width region * Region.height region).

(** The comparator [(a, b) => b.area - a.area]. *)
Definition byAreaDesc (a b : Rectangle.t) : Z :=
  Rectangle.area b - Rectangle.area a.

(** [Array.prototype.sort] is stable: elements that compare equal keep
    their order.  Insertion from the right is one such sort. *)
Fixpoint insertBy {A} (cmp : A -> A -> Z) (a : A) (l : list A) : list A :=
  match l with
  | [] => [a]
  | b :: l' => if cmp a b <=? 0 then a :: b :: l' else b :: insertBy cmp a l'
  end.

Definition sortBy {A} (cmp : A -> A -> Z) (l : list A) : list A :=
  foldr (insertBy cmp) [] l.

(** The regions before sorting. *)
Definition emptyRectangles (img : Raster) (minHeight : Z) : list Rectangle.t :=
  let width := info_width img in
  let height := info_height img in
  let gridWidth := ceil_div width cellSize in
  let gridHeight := ceil_div height cellSize in
  let grid :=
    markCells (data img) width height gridWidth
      (replicate (Z.to_nat (gridWidth * gridHeight)) 0) in
  let regions := scanRows grid gridWidth gridHeight width minHeight in
  let mergedRegions := mergeRegions regions in
  toRectangle <$>
    List.filter (fun region => Region.height region >=? minHeight) mergedRegions.

(** [findEmptyRegions] over the engine's [sort]. *)
Definition findEmptyRegions_with
    (sort : (Rectangle.t -> Rectangle.t -> Z) -> list Rectangle.t -> list Rectangle.t)
    (img : Raster) (minWidth minHeight : Z) : list Rectangle.t :=
  sort byAreaDesc (emptyRectangles img minHeight).

Definition findEmptyRegions (img : Raster) (minWidth minHeight : Z)
  : list Rectangle.t :=
  findEmptyRegions_with (@sortBy Rectangle.t) img minWidth minHeight.

(** The default values of the parameters [minWidth] and [minHeight]. *)
Definition default_minWidth : Z := 100.
Definition default_minHeight : Z := 30.

(** What the stability of [Array.prototype.sort] promises of its result
    [l'] for the input [l] and a comparator given by a key: a permutation,
    in comparator order, in which elements of equal key keep their order. *)
Definition stableSortOf {A} (key : A -> Z) (l l' : list A) : Prop :=
  Permutation l l' /\
  StronglySorted (fun a b => key b <= key a) l' /\
  forall k, List.filter (fun a => key a =? k) l' = List.filter (fun a => key a =? k) l.

End Regions.

(** ** Rich-text model: paragraphs with colour and bold segments *)

Module Segment.
Record t : Type := mk { start : Z; length : Z }.
End Segment.

Module ColorSegment.
Record t : Type := mk { start : Z; length : Z; color : string }.
End ColorSegment.

Module Paragraph.
(** A property that is absent reads as [undefined] ([None]). *)
Record t : Type := mk {
  text : option string;
  colorSegments : option (list ColorSegment.t);
  boldSegments : option (list Segment.t)
}.
End Paragraph.

(** ** Font-size solver ([calculateOptimalFontSize], index.js 1202-1339) *)

Module FontPlan.
Record t : Type := mk {
  normalFontSize : float;
  boldFontSize : float;
  lineSpacingRatio : float;
  estimatedLines : Z
}.
End FontPlan.

Module FontSize.
Import JsNum JsString TextWidth.

(** The counting pass: [totalChars] and [boldChars]. *)
Definition countChars (paragraphs : list Paragraph.t) : Exc.t (Z * Z) :=
  Exc.foldM
    (fun (acc : Z * Z) para =>
       let* text := Exc.prop_of "length" (Paragraph.text para) in
       let totalChars := fst acc + len text in
       let* segs := Exc.prop_of "forEach" (Paragraph.boldSegments para) in
       Exc.ret (totalChars,
                foldl (fun boldChars seg => boldChars + Segment.length seg)
                      (snd acc) segs))
    paragraphs (0, 0).

(** [segs.some(seg => position >= seg.start && position < seg.start + seg.length)] *)
Definition inSegments (segs : list Segment.t) (position : Z) : bool :=
  existsb (fun seg => (position >=? Segment.start seg) &&
                      (position <? Segment.start seg + Segment.length seg)) segs.

(** The variables shared by the paragraphs of one trial. *)
Record Trial : Type := mkTrial {
  testLines : list string;
  totalHeight : float;
  fitsFailed : bool
}.

(** The variables of one paragraph of a trial. *)
Record Line : Type := mkLine {
  currentLine : string;
  lineWidth : float;
  position : Z
}.

Definition nonEmpty (s : string) : bool :=
  match s with EmptyString => false | _ => true end.

(** [array.length > 0] *)
Definition nonEmpty_list {A} (l : list A) : bool :=
  match l with [] => false | _ => true end.

Section Trial.
Variables (fontSize boldFontSize lineHeight : float).
Variables (effectiveWidth effectiveHeight : float).

(** The character loop of one paragraph, with its [break]. *)
Fixpoint wrapChars (segs : list Segment.t) (chars : string)
    (ln : Line) (tr : Trial) : Line * Trial :=
  match chars with
  | EmptyString => (ln, tr)
  | String char rest =>
      let isBold := inSegments segs (position ln) in
      let charWidth :=
        calculateTextWidth (String char EmptyString)
          (if isBold then boldFontSize else fontSize) in
      if (lineWidth ln + charWidth <=? effectiveWidth)%float then
        wrapChars segs rest
          (mkLine (currentLine ln ++ String char EmptyString)%string
                  (lineWidth ln + charWidth)%float (position ln + 1))
          tr
      else if nonEmpty (currentLine ln) then
        let tr' := mkTrial (testLines tr ++ [currentLine ln])
                           (totalHeight tr + lineHeight)%float
                           (fitsFailed tr) in
        if (effectiveHeight <? totalHeight tr')%float then
          (ln, mkTrial (testLines tr') (totalHeight tr') true)
        else
          wrapChars segs rest
            (mkLine (String char EmptyString) charWidth (position ln + 1)) tr'
      else
        wrapChars segs rest
          (mkLine (String char EmptyString) charWidth (position ln + 1)) tr
  end.

(** The callback of [paragraphs.forEach((para, index) => ...)]. *)
Definition trialParagraph (st : Trial * Z) (para : Paragraph.t)
  : Exc.t (Trial * Z) :=
  let tr := fst st in
  let index := snd st in
  let tr0 :=
    if 0 <? index
    then mkTrial (testLines tr) (totalHeight tr + lineHeight * 0.5)%float
                 (fitsFailed tr)
    else tr in
  let* text := Exc.prop_of "text" (Paragraph.text para) in
  let* segs :=
    (if nonEmpty text
     then Exc.prop_of "some" (Paragraph.boldSegments para)
     else Exc.ret []) in
  let (ln, tr1) := wrapChars segs text (mkLine EmptyString 0%float 0) tr0 in
  let tr2 :=
    if fitsFailed tr1 then tr1
    else if nonEmpty (currentLine ln) then
      let h := (totalHeight tr1 + lineHeight)%float in
      mkTrial (testLines tr1 ++ [currentLine ln]) h
              (if (effectiveHeight <? h)%float then true else fitsFailed tr1)
    else tr1 in
  Exc.ret (tr2, index + 1).

Definition runTrial (paragraphs : list Paragraph.t) : Exc.t Trial :=
  let* st := Exc.foldM trialParagraph paragraphs (mkTrial [] 0%float false, 0) in
  Exc.ret (fst st).

(** [!fitsFailed && totalHeight <= effectiveHeight && testLines.length > 0] *)
Definition fits (tr : Trial) : bool :=
  negb (fitsFailed tr) &&
  (totalHeight tr <=? effectiveHeight)%float &&
  (0 <? Z.of_nat (List.length (testLines tr))).

End Trial.

(** The variables of the binary search. *)
Record Search : Type := mkSearch {
  minSize : Z;
  maxSize : Z;
  bestSize : float;
  bestLines : list string;
  iterations : Z
}.

Definition maxIterations : Z := 10.

Definition trialAt (effectiveWidth effectiveHeight : float)
    (paragraphs : list Paragraph.t) (fontSize : Z) : Exc.t Trial :=
  let fs := Z2F fontSize in
  runTrial fs (fs * 1.1)%float (fs * 1.2)%float effectiveWidth effectiveHeight
           paragraphs.

(** One iteration of the [while] loop. *)
Definition searchStep (effectiveWidth effectiveHeight : float)
    (paragraphs : list Paragraph.t) (st : Search) : Exc.t Search :=
  let fontSize := (minSize st + maxSize st) / 2 in
  let* tr := trialAt effectiveWidth effectiveHeight paragraphs fontSize in
  Exc.ret
    (if fits effectiveHeight tr then
       mkSearch (fontSize + 1) (maxSize st) (Z2F fontSize) (testLines tr)
                (iterations st + 1)
     else
       mkSearch (minSize st) (fontSize - 1) (bestSize st) (bestLines st)
                (iterations st + 1)).

(** [while (minSize <= maxSize && iterations < maxIterations)]: the
    counter bounds the loop, so it is run on [maxIterations] units of fuel
    (see [searchLoop_inv]: the guard is false on the result). *)
Fixpoint searchLoop (fuel : nat) (effectiveWidth effectiveHeight : float)
    (paragraphs : list Paragraph.t) (st : Search) : Exc.t Search :=
  match fuel with
  | O => Exc.ret st
  | S fuel' =>
      if (minSize st <=? maxSize st) && (iterations st <? maxIterations) then
        let* st' := searchStep effectiveWidth effectiveHeight paragraphs st in
        searchLoop fuel' effectiveWidth effectiveHeight paragraphs st'
      else Exc.ret st
  end.

Definition effectiveWidthOf (region : Region.t) : float :=
  (Z2F (Region.width region) * 0.85)%float.
Definition effectiveHeightOf (region : Region.t) : float :=
  (Z2F (Region.height region) * 0.9)%float.

Definition initialSizeOf (region : Region.t) (paragraphs : list Paragraph.t)
    (totalChars boldChars : Z) : float :=
  let boldRatio := (Z2F boldChars / Z2F totalChars)%float in
  Math_min
    (Math_floor (effectiveHeightOf region
                 / (Z2F (Z.of_nat (List.length paragraphs)) * 1.5))%float)
    (Math_floor (effectiveWidthOf region / (20 + boldRatio * 5))%float).

(** The [try] block up to the end of the search. *)
Definition fontSizeSearch (region : option Region.t)
    (paragraphs : list Paragraph.t) : Exc.t Search :=
  let* r := Exc.prop_of "width" region in
  let* counts := countChars paragraphs in
  let initialSize := initialSizeOf r paragraphs (fst counts) (snd counts) in
  searchLoop (Z.to_nat maxIterations) (effectiveWidthOf r) (effectiveHeightOf r)
    paragraphs (mkSearch 14 72 initialSize [] 0).

Definition planOf (s : Search) : FontPlan.t :=
  FontPlan.mk (bestSize s) (bestSize s * 1.1)%float 1.2%float
              (Z.of_nat (List.length (bestLines s))).

(** The value returned by the [catch] clause. *)
Definition fallbackPlan (paragraphs : list Paragraph.t) : FontPlan.t :=
  FontPlan.mk 20%float 22%float 1.2%float (Z.of_nat (List.length paragraphs)).

(** [calculateOptimalFontSize(imageBuffer, region, text, paragraphs)].
    [imageBuffer] and [text] are not read. *)
Definition calculateOptimalFontSize (imageBuffer : Cache.Buffer)
    (region : option Region.t) (text : string)
    (paragraphs : list Paragraph.t) : FontPlan.t :=
  Exc.catch
    (let* s := fontSizeSearch region paragraphs in Exc.ret (planOf s))
    (fun _ => fallbackPlan paragraphs).

End FontSize.

(** ** Line breaker (the word wrap of [insertTextIntoRegions],
       index.js 1440-1613) *)

Module LineColor.
(** An entry of [currentLineColors]. *)
Record t : Type := mk { text : string; start : Z; color : string }.
End LineColor.

Module WrappedLine.
(** An entry of [wrappedLines]: a line of text, or the marker pushed
    between two paragraphs ([isParagraphSpace]). *)
Record t : Type := mk {
  text : string;
  color : option string;
  isNewParagraph : bool;
  isBold : bool;
  isParagraphSpace : bool;
  colorSegments : option (list LineColor.t)
}.
End WrappedLine.

Module TextObject.
(** The objects built at the end of [insertTextIntoRegions] and drawn by
    [drawRegionsWithText]. *)
Record t : Type := mk {
  type : string;
  text : string;
  x : float;
  y : float;
  color : string;
  fontSize : float;
  textAnchor : string;
  dominantBaseline : string;
  fontWeight : string;
  fontFamily : string;
  style : string;
  colorSegments : list LineColor.t
}.
End TextObject.

Module Wrap.
Import JsNum JsString TextWidth.

(** [segs.some(seg => seg.start <= from && seg.start + seg.length >= to)] *)
Definition coveredBy (segs : list Segment.t) (from to : Z) : bool :=
  existsb (fun seg => (Segment.start seg <=? from) &&
                      (Segment.start seg + Segment.length seg >=? to)) segs.

(** [segs.find(...)?.color || "#000000"] *)
Definition colorAt (segs : list ColorSegment.t) (from to : Z) : string :=
  match List.find (fun seg => (ColorSegment.start seg <=? from) &&
                              (ColorSegment.start seg + ColorSegment.length seg >=? to))
                  segs with
  | Some seg =>
      if FontSize.nonEmpty (ColorSegment.color seg) then ColorSegment.color seg
      else "#000000"
  | None => "#000000"
  end.

Definition paragraphSpace : WrappedLine.t :=
  WrappedLine.mk "" (Some "#000000") true false true None.

(** The variables of the word loop of one paragraph. *)
Record Line : Type := mkLine {
  currentLine : string;
  currentWidth : float;
  currentLineStart : Z;
  currentLineColors : list LineColor.t
}.

Section Paragraph.
Variables (normalFontSize boldFontSize effectiveWidth : float).
Variables (text : string).
Variables (colorSegments : list ColorSegment.t) (boldSegments : list Segment.t).

(** The line pushed for [currentLine]. *)
Definition lineOf (ln : Line) : WrappedLine.t :=
  WrappedLine.mk (currentLine ln) None false
    (coveredBy boldSegments (currentLineStart ln)
               (currentLineStart ln + len (currentLine ln)))
    false
    (Some (currentLineColors ln)).

(** The callback of [words.forEach((word, wIndex) => ...)]. *)
Definition wrapWord (st : Line * list WrappedLine.t) (word : string)
  : Line * list WrappedLine.t :=
  let ln := fst st in
  let wrappedLines := snd st in
  let wordStart := indexOf text word (currentLineStart ln) in
  let isBold := coveredBy boldSegments wordStart (wordStart + len word) in
  let wordColor := colorAt colorSegments wordStart (wordStart + len word) in
  let wordWidth :=
    calculateTextWidth word (if isBold then boldFontSize else normalFontSize) in
  let spaceWidth := calculateTextWidth " " normalFontSize in
  if (currentWidth ln + wordWidth <=? effectiveWidth)%float then
    let line1 :=
      if FontSize.nonEmpty (currentLine ln)
      then (currentLine ln ++ " ")%string else currentLine ln in
    let width1 :=
      if FontSize.nonEmpty (currentLine ln)
      then (currentWidth ln + spaceWidth)%float else currentWidth ln in
    let line2 := (line1 ++ word)%string in
    (mkLine line2 (width1 + wordWidth)%float (currentLineStart ln)
            (currentLineColors ln ++
               [LineColor.mk word (len line2 - len word) wordColor]),
     wrappedLines)
  else
    (mkLine word wordWidth wordStart [LineColor.mk word 0 wordColor],
     if FontSize.nonEmpty (currentLine ln)
     then wrappedLines ++ [lineOf ln] else wrappedLines).

(** The words of one paragraph, then its last line. *)
Definition wrapWords (wrappedLines : list WrappedLine.t) : list WrappedLine.t :=
  let words := split space text in
  let start := indexOf text (List.hd "" words) 0 in
  let st := foldl wrapWord (mkLine "" 0%float start [], wrappedLines) words in
  if FontSize.nonEmpty (currentLine (fst st))
  then snd st ++ [lineOf (fst st)] else snd st.

End Paragraph.

(** The callback of [paragraphs.forEach((paragraph, pIndex) => ...)];
    the state is [wrappedLines] and [isFirstParagraph]. *)
Definition wrapParagraph (normalFontSize boldFontSize effectiveWidth : float)
    (st : list WrappedLine.t * bool) (paragraph : Paragraph.t)
  : Exc.t (list WrappedLine.t * bool) :=
  let wrappedLines :=
    if snd st then fst st else fst st ++ [paragraphSpace] in
  let* text := Exc.prop_of "split" (Paragraph.text paragraph) in
  let* boldSegments := Exc.prop_of "some" (Paragraph.boldSegments paragraph) in
  let* colorSegments := Exc.prop_of "find" (Paragraph.colorSegments paragraph) in
  Exc.ret (wrapWords normalFontSize boldFontSize effectiveWidth text
                     colorSegments boldSegments wrappedLines,
           false).

Definition wrapParagraphs (normalFontSize boldFontSize effectiveWidth : float)
    (paragraphs : list Paragraph.t) : Exc.t (list WrappedLine.t) :=
  let* st := Exc.foldM (wrapParagraph normalFontSize boldFontSize effectiveWidth)
                       paragraphs ([], true) in
  Exc.ret (fst st).

(** [text.split("\n").map((para, index) => ...)]: the segments that start
    inside the paragraph, shifted to its start. *)
Definition paragraphOf (text : string)
    (colorSegments : list ColorSegment.t) (boldSegments : list Segment.t)
    (para : string) : Paragraph.t :=
  let paraStart := indexOf text para 0 in
  Paragraph.mk (Some para)
    (Some ((fun seg => ColorSegment.mk (ColorSegment.start seg - paraStart)
                         (ColorSegment.length seg) (ColorSegment.color seg))
           <$> List.filter
                 (fun seg => (ColorSegment.start seg >=? paraStart) &&
                             (ColorSegment.start seg <? paraStart + len para))
                 colorSegments))
    (Some ((fun seg => Segment.mk (Segment.start seg - paraStart)
                         (Segment.length seg))
           <$> List.filter
                 (fun seg => (Segment.start seg >=? paraStart) &&
                             (Segment.start seg <? paraStart + len para))
                 boldSegments)).

(** What [insertTextIntoRegions] has computed when it reaches the layout
    of the lines: nothing when it returns the image unchanged. *)
Record Layout : Type := mkLayout {
  region : Region.t;
  plan : FontPlan.t;
  effectiveWidth : float;
  wrappedLines : list WrappedLine.t
}.

Definition regionOf (r : Rectangle.t) : Region.t :=
  Region.mk (Rectangle.x r) (Rectangle.y r) (Rectangle.width r) (Rectangle.height r).

(** [insertTextIntoRegions] down to [wrappedLines] (index.js 1440-1613).
    [textContent.text || String(textContent)]: an object without a text
    prints as ["[object Object]"]. *)
Definition layoutLines (imageBuffer : Cache.Buffer) (textContent : Paragraph.t)
    (emptyRegions : list Rectangle.t) : Exc.t (option Layout) :=
  let text :=
    match Paragraph.text textContent with
    | Some t => if FontSize.nonEmpty t then t else "[object Object]"
    | None => "[object Object]"
    end in
  let regions :=
    List.filter (fun r => (Rectangle.width r >=? 100) && (Rectangle.height r >=? 30))
                emptyRegions in
  match regions with
  | [] => Exc.ret None
  | r :: _ =>
      let region := regionOf r in
      let* colorSegments := Exc.prop_of "filter" (Paragraph.colorSegments textContent) in
      let* boldSegments := Exc.prop_of "filter" (Paragraph.boldSegments textContent) in
      let paragraphs :=
        paragraphOf text colorSegments boldSegments <$> split newline text in
      let plan :=
        FontSize.calculateOptimalFontSize imageBuffer (Some region) text paragraphs in
      let effectiveWidth := (Z2F (Region.width region) * 0.85)%float in
      let* wrappedLines :=
        wrapParagraphs (FontPlan.normalFontSize plan) (FontPlan.boldFontSize plan)
                       effectiveWidth paragraphs in
      Exc.ret (Some (mkLayout region plan effectiveWidth wrappedLines))
  end.

(** [determineVerticalAlignment(region, totalTextHeight, textLines)] *)
Definition determineVerticalAlignment (region : Region.t)
    (totalTextHeight : float) (textLines : list WrappedLine.t) : string :=
  let count := Z.of_nat (List.length textLines) in
  let characters :=
    foldl (fun sum line => sum + len (WrappedLine.text line)) 0 textLines in
  let contentDensity := (Z2F characters / Z2F count)%float in
  let heightRatio := (totalTextHeight / Z2F (Region.height region))%float in
  let isSparseContent := (contentDensity <? 30)%float && (count <? 5) in
  if (heightRatio <? 0.5)%float || isSparseContent then "center"
  else if (0.8 <? heightRatio)%float then "top"
  else if existsb (fun line => 50 <? len (WrappedLine.text line)) textLines
       then "top" else "center".

(** The callback of [wrappedLines.map(line => ...)], with [currentY]; the
    [null] entries are filtered out afterwards. *)
Definition textObjectOf (normalFontSize boldFontSize lineHeight paragraphSpacing
                         textStartX effectiveWidth : float)
    (st : float * list TextObject.t) (line : WrappedLine.t)
  : float * list TextObject.t :=
  let currentY := fst st in
  if negb (FontSize.nonEmpty (WrappedLine.text line))
     && negb (WrappedLine.isNewParagraph line)
  then st
  else if WrappedLine.isParagraphSpace line
  then ((currentY + (paragraphSpacing - lineHeight))%float, snd st)
  else
    let fontSize :=
      if WrappedLine.isBold line then boldFontSize else normalFontSize in
    let textObject :=
      TextObject.mk "text" (WrappedLine.text line)
        (textStartX + effectiveWidth / 2)%float
        (currentY + fontSize / 2)%float
        (match WrappedLine.color line with
         | Some c => if FontSize.nonEmpty c then c else "#000000"
         | None => "#000000"
         end)
        fontSize "middle" "middle"
        (if WrappedLine.isBold line then "bold" else "normal")
        "Arial, Helvetica, sans-serif" "letter-spacing: 0px"
        (match WrappedLine.colorSegments line with
         | Some segs => segs
         | None => []
         end) in
    ((currentY + lineHeight)%float, snd st ++ [textObject]).

(** [insertTextIntoRegions] from [wrappedLines] to [textObjects]
    (index.js 1615-1694). *)
Definition textObjectsOf (layout : Layout) : list TextObject.t :=
  let region := region layout in
  let normalFontSize := FontPlan.normalFontSize (plan layout) in
  let boldFontSize := FontPlan.boldFontSize (plan layout) in
  let wrappedLines := wrappedLines layout in
  let effectiveWidth := effectiveWidth layout in
  let textStartX :=
    (Z2F (Region.x region) + Z2F (Region.width region) * 0.075)%float in
  let lineHeight := (normalFontSize * 1.2)%float in
  let many := 10 <? Z.of_nat (List.length wrappedLines) in
  let paragraphSpacing := (lineHeight * (if many then 1.1 else 1.3))%float in
  let totalTextHeight :=
    foldl (fun height line =>
             if WrappedLine.isParagraphSpace line
             then (height + (if many then lineHeight * 0.5 else paragraphSpacing))%float
             else (height + lineHeight)%float)
          0%float wrappedLines in
  let verticalAlignment :=
    determineVerticalAlignment region totalTextHeight wrappedLines in
  let topPadding := (lineHeight * 0.5)%float in
  let bottomPadding := (lineHeight * 0.5)%float in
  let bottom :=
    (Z2F (Region.y region) + Z2F (Region.height region) - totalTextHeight
     - bottomPadding)%float in
  let startY0 :=
    if String.eqb verticalAlignment "top"
    then (Z2F (Region.y region) + topPadding)%float
    else if String.eqb verticalAlignment "bottom" then bottom
    else (Z2F (Region.y region)
          + (Z2F (Region.height region) - totalTextHeight) / 2)%float in
  let startY :=
    Math_max (Z2F (Region.y region) + topPadding)%float (Math_min startY0 bottom) in
  snd (foldl (textObjectOf normalFontSize boldFontSize lineHeight
                           paragraphSpacing textStartX effectiveWidth)
             (startY, []) wrappedLines).

(** The [textObjects] of [insertTextIntoRegions] (index.js 1440-1694):
    what the function has computed when it calls [drawRegionsWithText], or
    nothing when it returns the image as it is (no region of at least 100
    by 30). *)
Definition insertion_textObjects (imageBuffer : Cache.Buffer)
    (textContent : Paragraph.t) (emptyRegions : list Rectangle.t)
  : Exc.t (option (list TextObject.t)) :=
  let* layout := layoutLines imageBuffer textContent emptyRegions in
  Exc.ret (textObjectsOf <$> layout).

Section Insertion.
(** [drawRegionsWithText(imageBuffer, regions, textObjects)] (index.js
    548-698) decodes, scales and composes the image with sharp: it is a
    parameter here, and it may throw. *)
Variable drawRegionsWithText :
  Cache.Buffer -> list Rectangle.t -> list TextObject.t -> Exc.t Cache.Buffer.

(** [insertTextIntoRegions(imageBuffer, textContent, emptyRegions)]
    (index.js 1440-1702): the image as it is when no region is at least
    100 by 30, and otherwise the result of
    [drawRegionsWithText(imageBuffer, [region], textObjects)].  The [catch]
    clause logs and rethrows, also the errors of [drawRegionsWithText]. *)
Definition insertTextIntoRegions (imageBuffer : Cache.Buffer)
    (textContent : Paragraph.t) (emptyRegions : list Rectangle.t)
  : Exc.t Cache.Buffer :=
  let regions :=
    List.filter (fun r => (Rectangle.width r >=? 100) && (Rectangle.height r >=? 30))
                emptyRegions in
  match regions with
  | [] => Exc.ret imageBuffer
  | region :: _ =>
      let* textObjects :=
        insertion_textObjects imageBuffer textContent emptyRegions in
      match textObjects with
      | Some textObjects => drawRegionsWithText imageBuffer [region] textObjects
      | None => Exc.ret imageBuffer
      end
  end.

End Insertion.

End Wrap.

(** ** Compositor markup ([drawRegionsWithText], index.js 548-666, and the
       text case of [drawObjects], index.js 275-288) *)

Module Svg.
Import JsString TextWidth TextObject.

Local Infix "+:+" := String.append (at level 60, right associativity).

Definition q : string := String dquote EmptyString.
Definition nl : string := String newline EmptyString.

(** The chain of five [replace] calls: the ampersand first, then [<], [>],
    the double quote and the single quote, each by its entity. *)
Definition escapeXml (s : string) : string :=
  replaceAll squote "&apos;"
    (replaceAll dquote "&quot;"
       (replaceAll ">" "&gt;"
          (replaceAll "<" "&lt;"
             (replaceAll "&" "&amp;" s)))).

(** [textObjects.map(obj => ({...obj, x: obj.x * upscaleFactor, ...}))] *)
Definition scaleTextObject (upscaleFactor : float) (obj : TextObject.t)
  : TextObject.t :=
  TextObject.mk (type obj) (text obj)
    (x obj * upscaleFactor)%float (y obj * upscaleFactor)%float
    (color obj) (fontSize obj * upscaleFactor)%float
    (textAnchor obj) (dominantBaseline obj) (fontWeight obj) (fontFamily obj)
    (style obj) (colorSegments obj).

Section Markup.
(** The text of a number in a template literal ([Number::toString]). *)
Variable num : float -> string.

(** The opening tag of the element of an object with colour segments. *)
Definition segmentedOpen (obj : TextObject.t) : string :=
  nl +:+ "          <text " +:+ nl +:+ "            x=" +:+ q +:+
  num (x obj) +:+ q +:+ " " +:+ nl +:+ "            y=" +:+ q +:+
  num (y obj) +:+ q +:+ nl +:+ "            font-size=" +:+ q +:+
  num (fontSize obj) +:+ "px" +:+ q +:+ nl +:+
  "            text-anchor=" +:+ q +:+ textAnchor obj +:+ q +:+ nl +:+
  "            dominant-baseline=" +:+ q +:+ dominantBaseline obj +:+ q +:+
  nl +:+ "            font-weight=" +:+ q +:+ fontWeight obj +:+ q +:+
  nl +:+ "            font-family=" +:+ q +:+ fontFamily obj +:+ q +:+
  nl +:+ "            style=" +:+ q +:+ style obj +:+ q +:+ nl +:+
  "            shape-rendering=" +:+ q +:+ "geometricPrecision" +:+ q +:+
  nl +:+ "            text-rendering=" +:+ q +:+ "geometricPrecision" +:+
  q +:+ nl +:+ "          >" +:+ nl +:+ "            ".

Definition segmentedClose : string :=
  nl +:+ "          </text>".

(** The callback of [obj.colorSegments.map((segment, index) => ...)],
    over the text to embed. *)
Definition tspanWith (embedded : string) (obj : TextObject.t) (index : nat)
    (segment : LineColor.t) : string :=
  "<tspan " +:+ nl +:+ "                fill=" +:+ q +:+
  LineColor.color segment +:+ q +:+ nl +:+ "                " +:+
  (if (0 <? Z.of_nat index)
   then "dx=" +:+ q +:+ num (calculateTextWidth " " (fontSize obj)) +:+ q
   else "") +:+
  nl +:+ "                shape-rendering=" +:+ q +:+
  "geometricPrecision" +:+ q +:+ nl +:+
  "                text-rendering=" +:+ q +:+ "geometricPrecision" +:+
  q +:+ nl +:+ "              >" +:+ embedded +:+ "</tspan>".

Definition tspan (obj : TextObject.t) (index : nat) (segment : LineColor.t)
  : string :=
  let escapedText := escapeXml (LineColor.text segment) in
  tspanWith escapedText obj index segment.

(** The element of an object without colour segments, over the text to
    embed. *)
Definition plainWith (embedded : string) (obj : TextObject.t) : string :=
  nl +:+ "          <text " +:+ nl +:+ "            x=" +:+ q +:+
  num (x obj) +:+ q +:+ " " +:+ nl +:+ "            y=" +:+ q +:+
  num (y obj) +:+ q +:+ nl +:+ "            fill=" +:+ q +:+ "#000000" +:+
  q +:+ nl +:+ "            font-size=" +:+ q +:+ num (fontSize obj) +:+
  "px" +:+ q +:+ nl +:+ "            text-anchor=" +:+ q +:+
  textAnchor obj +:+ q +:+ nl +:+ "            dominant-baseline=" +:+
  q +:+ dominantBaseline obj +:+ q +:+ nl +:+
  "            font-weight=" +:+ q +:+ fontWeight obj +:+ q +:+ nl +:+
  "            font-family=" +:+ q +:+ fontFamily obj +:+ q +:+ nl +:+
  "            style=" +:+ q +:+ style obj +:+ q +:+ nl +:+
  "            shape-rendering=" +:+ q +:+ "geometricPrecision" +:+ q +:+
  nl +:+ "            text-rendering=" +:+ q +:+ "geometricPrecision" +:+
  q +:+ nl +:+ "          >" +:+ embedded +:+ "</text>" +:+ nl +:+
  "        ".

(** [array.join("")] *)
Definition join (l : list string) : string :=
  foldr String.append EmptyString l.

(** The callback of [scaledTextObjects.forEach(obj => ...)]: the element
    pushed to [svgElements]. *)
Definition textElement (obj : TextObject.t) : string :=
  match colorSegments obj with
  | _ :: _ =>
      segmentedOpen obj +:+ join (imap (tspan obj) (colorSegments obj)) +:+
      segmentedClose
  | [] =>
      let escapedText := escapeXml (text obj) in
      plainWith escapedText obj
  end.

Definition svgElements (upscaleFactor : float) (textObjects : list TextObject.t)
  : list string :=
  textElement <$> (scaleTextObject upscaleFactor <$> textObjects).

(** The text case of [drawObjects]: [obj.text] is embedded as it is.
    ([drawObjects] is not called by the insertion pipeline.) *)
Definition orElse (s fallback : string) : string :=
  match s with EmptyString => fallback | _ => s end.

Definition drawObjects_text (obj : TextObject.t) : string :=
  "<text " +:+ nl +:+ "                                x=" +:+ q +:+
  num (x obj) +:+ q +:+ " " +:+ nl +:+
  "                                y=" +:+ q +:+ num (y obj) +:+ q +:+
  " " +:+ nl +:+ "                                fill=" +:+ q +:+
  orElse (color obj) "red" +:+ q +:+ " " +:+ nl +:+
  "                                font-size=" +:+ q +:+
  (if is_nan (fontSize obj) || is_zero (fontSize obj)
   then "20" else num (fontSize obj)) +:+ q +:+ nl +:+
  "                                text-anchor=" +:+ q +:+
  orElse (textAnchor obj) "start" +:+ q +:+ nl +:+
  "                                dominant-baseline=" +:+ q +:+
  orElse (dominantBaseline obj) "auto" +:+ q +:+ nl +:+
  "                                font-weight=" +:+ q +:+
  orElse (fontWeight obj) "normal" +:+ q +:+ nl +:+
  "                                font-family=" +:+ q +:+
  orElse (fontFamily obj) "Arial" +:+ q +:+ nl +:+
  "                                style=" +:+ q +:+
  orElse (style obj) "" +:+ q +:+ nl +:+ "                            >" +:+
  text obj +:+ "</text>".

End Markup.

(** The five XML metacharacters. *)
Definition isMeta (c : ascii) : bool :=
  Ascii.eqb c "&" || Ascii.eqb c "<" || Ascii.eqb c ">" ||
  Ascii.eqb c dquote || Ascii.eqb c squote.

(** The entity written for a character. *)
Definition escapeChar (c : ascii) : string :=
  if Ascii.eqb c "&" then "&amp;"
  else if Ascii.eqb c "<" then "&lt;"
  else if Ascii.eqb c ">" then "&gt;"
  else if Ascii.eqb c dquote then "&quot;"
  else if Ascii.eqb c squote then "&apos;"
  else String c EmptyString.

(** The number of occurrences of [c] in [s]. *)
Fixpoint count (c : ascii) (s : string) : nat :=
  match s with
  | EmptyString => O
  | String a rest => ((if Ascii.eqb a c then 1 else 0) + count c rest)%nat
  end.

(** Character data that holds no raw metacharacter: every ampersand opens
    one of the five entities, and [<], [>] and the quotes do not occur. *)
Definition entityNames : list string := ["amp;"; "lt;"; "gt;"; "quot;"; "apos;"].

Fixpoint wellEscaped (s : string) : bool :=
  match s with
  | EmptyString => true
  | String c rest =>
      (if Ascii.eqb c "&"
       then existsb (fun name => String.prefix name rest) entityNames
       else negb (isMeta c))
      && wellEscaped rest
  end.

(** Decoding of the five entities, as an XML reader does it: [fuel] is the
    number of characters still to read. *)
Fixpoint unescapeXml_go (fuel : nat) (s : string) : string :=
  match fuel with
  | O => EmptyString
  | S fuel' =>
      match s with
      | EmptyString => EmptyString
      | String c rest =>
          if Ascii.eqb c "&" then
            if String.prefix "amp;" rest
            then String "&" (unescapeXml_go fuel' (String.substring 4 (String.length rest - 4) rest))
            else if String.prefix "lt;" rest
            then String "<" (unescapeXml_go fuel' (String.substring 3 (String.length rest - 3) rest))
            else if String.prefix "gt;" rest
            then String ">" (unescapeXml_go fuel' (String.substring 3 (String.length rest - 3) rest))
            else if String.prefix "quot;" rest
            then String dquote (unescapeXml_go fuel' (String.substring 5 (String.length rest - 5) rest))
            else if String.prefix "apos;" rest
            then String squote (unescapeXml_go fuel' (String.substring 5 (String.length rest - 5) rest))
            else String c (unescapeXml_go fuel' rest)
          else String c (unescapeXml_go fuel' rest)
      end
  end.

Definition unescapeXml (s : string) : string :=
  unescapeXml_go (String.length s) s.

(** An object with its texts removed: what the markup is when no text is
    supplied. *)
Definition eraseText (seg : LineColor.t) : LineColor.t :=
  LineColor.mk "" (LineColor.start seg) (LineColor.color seg).

Definition withoutText (obj : TextObject.t) : TextObject.t :=
  TextObject.mk (type obj) "" (x obj) (y obj) (color obj) (fontSize obj)
    (textAnchor obj) (dominantBaseline obj) (fontWeight obj) (fontFamily obj)
    (style obj) (eraseText <$> colorSegments obj).

End Svg.

(** ** Rasters used to state the properties of the region finder *)

Module RasterSpec.
Import JsNum Regions.

(** [data[y * width + x]] *)
Definition pixelAt (img : Raster) (x y : Z) : option Z :=
  data img !! Z.to_nat (y * info_width img + x).

(** [pixel < 200]; [undefined < 200] is false. *)
Definition isDark (p : option Z) : bool :=
  match p with
  | Some v => v <? 200
  | None => false
  end.

(** Every pixel of the raster is near-white. *)
Definition allWhite (img : Raster) : Prop :=
  Forall (fun p => 200 <= p) (data img).

(** A raster that is white but for one dark band over its full width:
    every pixel is present, the pixels of the rows [y1 <= y < y2] are dark
    and all the others are near-white. *)
Definition bandRaster (img : Raster) (y1 y2 : Z) : bool :=
  forallb
    (fun y =>
       forallb
         (fun x =>
            match pixelAt img x y with
            | Some p => if (y1 <=? y) && (y <? y2) then p <? 200 else 200 <=? p
            | None => false
            end)
         (seqZ 0 (info_width img)))
    (seqZ 0 (info_height img)).

(** The cell marked for the pixel [(x, y)]. *)
Definition cellOf (gridWidth x y : Z) : nat :=
  Z.to_nat (y / cellSize * gridWidth + x / cellSize).

(** Some pixel of the rows [ys] is dark and lies in the cell [i]. *)
Definition darkIn (img : Raster) (gridWidth : Z) (ys : list Z) (i : Z) : bool :=
  existsb
    (fun y =>
       existsb (fun x => isDark (pixelAt img x y) &&
                         (Z.to_nat i =? cellOf gridWidth x y)%nat)
               (seqZ 0 (info_width img)))
    ys.

(** The grid computed for a raster. *)
Definition gridOf (img : Raster) : list Z :=
  let gridWidth := ceil_div (info_width img) cellSize in
  let gridHeight := ceil_div (info_height img) cellSize in
  markCells (data img) (info_width img) (info_height img) gridWidth
    (replicate (Z.to_nat (gridWidth * gridHeight)) 0).

(** A white raster of [w] by [h] pixels with a dark band on [y1 <= y < y2]. *)
Definition makeBand (w h y1 y2 : Z) : Raster :=
  mkRaster w h
    (replicate (Z.to_nat (y1 * w)) 255 ++
     replicate (Z.to_nat ((y2 - y1) * w)) 0 ++
     replicate (Z.to_nat ((h - y2) * w)) 255).

End RasterSpec.

(** ** Inputs used to state the properties of the solver and the wrap *)

Module Samples.


(** A paragraph of plain text: no colour, no bold. *)
Definition plain (text : string) : Paragraph.t :=
  Paragraph.mk (Some text) (Some []) (Some []).

(** A paragraph all of whose properties are present. *)
Definition wellFormed (para : Paragraph.t) : Prop :=
  is_Some (Paragraph.text para) /\ is_Some (Paragraph.boldSegments para).

(** An object whose [boldSegments] is [undefined]. *)
Definition withoutBold (text : string) : Paragraph.t :=
  Paragraph.mk (Some text) (Some []) None.

End Samples.

(** ** The invariant of the font-size search *)

Module FontSizeSpec.
Import JsNum FontSize.


(** The trial at [fontSize] fits the region: the test of index.js
    1300-1304 on the trial run at that size. *)
Definition fitsAt (r : Region.t) (paragraphs : list Paragraph.t)
    (fontSize : Z) : bool :=
  match trialAt (effectiveWidthOf r) (effectiveHeightOf r) paragraphs fontSize with
  | inr tr => fits (effectiveHeightOf r) tr
  | inl _ => false
  end.

(** The sizes that the search tries as long as no trial has fitted: the
    midpoints of [14, 72], [14, 42], [14, 27], [14, 19] and [14, 15]. *)
Definition descent : list Z := [43; 28; 20; 16; 14].


End FontSizeSpec.

(** ** The stand-alone word wrap ([getFormatProperties], [wrapText],
       index.js 431-545; not called by the insertion pipeline) *)

Module WrapText.
Import JsNum JsString TextWidth.

(** A word of a line: an entry of [segments]. *)
Record Word : Type := mkWord {
  word_text : string;
  word_width : float;
  word_color : string;
  word_isBold : bool
}.

Record Line : Type := mkLine {
  line_x : float;
  line_y : float;
  segments : list Word;
  width : float;
  lineHeight : float
}.

(** [getFormatProperties(position, colorSegments, boldSegments)] *)
Definition getFormatProperties (position : Z)
    (colorSegments : list ColorSegment.t) (boldSegments : list Segment.t)
  : string * bool :=
  (match List.find (fun seg => (position >=? ColorSegment.start seg) &&
                               (position <? ColorSegment.start seg
                                            + ColorSegment.length seg))
                   colorSegments with
   | Some colorSegment => ColorSegment.color colorSegment
   | None => "#000000"
   end,
   FontSize.inSegments boldSegments position).

(** The white space of the pattern [\s]. *)
Definition isWhiteSpace (c : ascii) : bool :=
  let n := nat_of_ascii c in
  ((9 <=? n) && (n <=? 13) || (n =? 32) || (n =? 160))%nat.

(** [text.split(/\s+/)]: [inSpace] tells that the last character read was
    white space. *)
Fixpoint splitSpaces (inSpace : bool) (s : string) : list string :=
  match s with
  | EmptyString => [EmptyString]
  | String c rest =>
      if isWhiteSpace c then
        if inSpace then splitSpaces true rest
        else EmptyString :: splitSpaces true rest
      else match splitSpaces false rest with
           | w :: ws => String c w :: ws
           | [] => [String c EmptyString]
           end
  end.

Section Wrap.
Variables (text : string) (maxWidth fontSize x y : float).
Variables (colorSegments : list ColorSegment.t) (boldSegments : list Segment.t).

(** The variables of the loop: [lines] (its length is [lineIndex]),
    [currentLine], [textPosition] and [i]. *)
Record Loop : Type := mkLoop {
  lines : list Line;
  currentLine : Line;
  textPosition : Z;
  index : Z
}.

Definition wrapWord (st : Loop) (word : string) : Loop :=
  let wordStart := indexOf text word (textPosition st) in
  let format := getFormatProperties wordStart colorSegments boldSegments in
  let wordWidth :=
    calculateTextWidth word
      (if snd format then fontSize * 1.1 else fontSize)%float in
  let spaceWidth :=
    if 0 <? index st then calculateTextWidth " " fontSize else 0%float in
  let current := currentLine st in
  let entry := mkWord word wordWidth (fst format) (snd format) in
  if (maxWidth <? width current + wordWidth + spaceWidth)%float
     && FontSize.nonEmpty_list (segments current)
  then
    let lines' := lines st ++ [current] in
    let lineIndex := Z.of_nat (List.length lines') in
    mkLoop lines'
           (mkLine x (y + Z2F lineIndex * fontSize * 1.3)%float [entry]
                   wordWidth (fontSize * 1.3)%float)
           (wordStart + len word) (index st + 1)
  else
    let width1 :=
      if FontSize.nonEmpty_list (segments current)
      then (width current + spaceWidth)%float else width current in
    mkLoop (lines st)
           (mkLine (line_x current) (line_y current)
                   (segments current ++ [entry])
                   (width1 + wordWidth)%float (lineHeight current))
           (wordStart + len word) (index st + 1).

Definition wrapText : list Line :=
  if FontSize.nonEmpty text then
    let words := splitSpaces false text in
    let st :=
      foldl wrapWord
        (mkLoop [] (mkLine x y [] 0%float (fontSize * 1.3)%float) 0 0) words in
    if FontSize.nonEmpty_list (segments (currentLine st))
    then lines st ++ [currentLine st] else lines st
  else [].

End Wrap.

End WrapText.

(** ** Character data used to state the escaping properties *)

Module SvgSpec.
Import JsString Svg.

(** Every character replaced by its entity, one by one. *)
Fixpoint escapeEach (s : string) : string :=
  match s with
  | EmptyString => EmptyString
  | String c rest => (escapeChar c ++ escapeEach rest)%string
  end.

(** The number of metacharacters of [s]. *)
Fixpoint countMeta (s : string) : nat :=
  match s with
  | EmptyString => O
  | String c rest => ((if isMeta c then 1 else 0) + countMeta rest)%nat
  end.

(** The metacharacters of all the texts that the element of [obj] embeds. *)
Definition embeddedMeta (obj : TextObject.t) : nat :=
  match TextObject.colorSegments obj with
  | [] => countMeta (TextObject.text obj)
  | segs => foldr (fun seg n => (countMeta (LineColor.text seg) + n)%nat) O segs
  end.

(** [<], [>] and the two quotes: the metacharacters that never occur in
    escaped text. *)
Definition isMarkup (c : ascii) : bool :=
  Ascii.eqb c "<" || Ascii.eqb c ">" || Ascii.eqb c dquote || Ascii.eqb c squote.

(** A number printer, to run the markup on examples. *)
Definition printZero (_ : float) : string := "0".

(** A text object as [insertTextIntoRegions] builds them, for a line of
    plain text without colour segments. *)
Definition plainObject (text : string) : TextObject.t :=
  TextObject.mk "text" text 50 20 "#000000" 20 "middle" "middle" "normal"
    "Arial, Helvetica, sans-serif" "letter-spacing: 0px" [].

End SvgSpec.

(** ** A second stable sort, and what an engine's sort has to satisfy *)

Module Engine.
Import Regions.

(** Insertion from the left: an element goes after the elements that are
    not behind it in the order. *)
Fixpoint insertAfter {A} (cmp : A -> A -> Z) (a : A) (l : list A) : list A :=
  match l with
  | [] => [a]
  | b :: l' =>
      if cmp b a <=? 0 then b :: insertAfter cmp a l' else a :: b :: l'
  end.

Definition sortLeft {A} (cmp : A -> A -> Z) (l : list A) : list A :=
  foldl (fun sorted a => insertAfter cmp a sorted) [] l.

(** The contract of [Array.prototype.sort] with the comparator
    [byAreaDesc], for a function that stands for the engine's sort. *)
Definition sortsStably
    (sort : (Rectangle.t -> Rectangle.t -> Z) -> list Rectangle.t -> list Rectangle.t)
  : Prop :=
  forall l, stableSortOf Rectangle.area l (sort byAreaDesc l).

End Engine.

(** ** Tables used to state the properties of the width estimator *)

Module TextWidthSpec.
Import JsNum TextWidth.

(** Every element of the list is below all the later ones. *)
Fixpoint increasing (l : list float) : bool :=
  match l with
  | [] => true
  | a :: l' => forallb (fun b => (a <? b)%float) l' && increasing l'
  end.

(** The widths of one glyph of ratio [r] at the sizes 1, 2, ..., 1000. *)
Definition widthsAt (r : float) : list float :=
  (fun n => 0 + Z2F n * r)%float <$> seqZ 1 1000.

(** The same at the bold sizes [fontSize * 1.1] (index.js 1242, 1326). *)
Definition boldWidthsAt (r : float) : list float :=
  (fun n => 0 + Z2F n * 1.1 * r)%float <$> seqZ 1 1000.

(** The sizes 1, 2, ..., 1000, each with its number. *)
Definition sizesTo1000 : list (Z * float) :=
  (fun n => (n, Z2F n)) <$> seqZ 1 1000.

(** A size [a] and a bold size [b * 1.1] are in the order of the numbers
    [a] and [1.1 b], and so are the widths of a glyph of ratio [r] at
    them; where [a = 1.1 b] the bold size is not below the size, and
    neither is the width. *)
Definition crossOrdered (r : float) : bool :=
  forallb
    (fun a : Z * float =>
       forallb
         (fun b : Z * float =>
            let size := snd a in
            let bold := (snd b * 1.1)%float in
            match 10 * fst a ?= 11 * fst b with
            | Lt => (size <? bold)%float
                    && (0 + size * r <? 0 + bold * r)%float
            | Gt => (bold <? size)%float
                    && (0 + bold * r <? 0 + size * r)%float
            | Eq => (size <=? bold)%float
                    && (0 + size * r <=? 0 + bold * r)%float
            end)
         sizesTo1000)
    sizesTo1000.

End TextWidthSpec.

(** ** A file system with a file larger than the cache budget *)

Module CacheSpec.
Import Cache.

(** An image file of 100 MB and one byte. *)
Definition oversized : Buffer :=
  repeat Byte.x00 (Z.to_nat (MAX_CACHE_SIZE + 1)).

Definition diskWithOversized : FileSystem :=
  fun path => if String.eqb path "big.png" then Some oversized else None.

End CacheSpec.

Module Upscale.
Import JsNum.

(** [Math.round]: the nearest integer, a tie going up; NaN, the infinities
    and both zeros are returned as they are, a finite number with a
    non-negative exponent is an integer, and a negative number that rounds
    to zero gives [-0]. *)
Definition Math_round (x : float) : float :=
  match Prim2SF x with
  | S754_finite s m e =>
      if 0 <=? e then x
      else
        let q := Z.shiftr (Z.pos m) (- e) in
        let rest := Z.pos m - Z.shiftl q (- e) in
        let half := Z.shiftl 1 (- e - 1) in
        if s then
          if half <? rest then Z2F (- (q + 1))
          else if q =? 0 then (-0)%float else Z2F (- q)
        else
          if half <=? rest then Z2F (q + 1) else Z2F q
  | _ => x
  end.

Definition UPSCALE_THRESHOLD : Z := 1200.
Definition MAX_UPSCALE : float := 2.

(** [upscaleFactor] of [drawRegionsWithText] (index.js 556-562), from
    [metadata.width] and [metadata.height]. *)
Definition upscaleFactorOf (width height : Z) : float :=
  if Z.min width height <? UPSCALE_THRESHOLD then
    Math_min MAX_UPSCALE
             (Z2F UPSCALE_THRESHOLD / Z2F (Z.min width height))%float
  else 1%float.

(** [targetWidth] and [targetHeight] (index.js 565-566). *)
Definition targetWidth (width height : Z) : float :=
  Math_round (Z2F width * upscaleFactorOf width height)%float.

Definition targetHeight (width height : Z) : float :=
  Math_round (Z2F height * upscaleFactorOf width height)%float.

(** The check of one smaller side [m] below the threshold: the factor is
    above 1 and at most 2, it is 2 up to 600, and the smaller side is
    scaled to [min(2m, 1200)] exactly. *)
Definition upscaleChecked (m : Z) : bool :=
  let factor := upscaleFactorOf m m in
  ((1 <? factor) && (factor <=? 2))%float
  && (if m <=? 600 then (factor =? 2)%float else (factor <? 2)%float)
  && (Math_round (Z2F m * factor) =? Z2F (Z.min (2 * m) 1200))%float.

End Upscale.

Module RegionSpec.
Import JsNum Regions.

(** [r1] ends at least [gap] pixels above the start of [r2]. *)
Definition above (gap : Z) (r1 r2 : Region.t) : Prop :=
  Region.y r1 + Region.height r1 + gap <= Region.y r2.

(** A band over the full width [width], made of at least [minRows] whole
    grid rows among the first [rows] grid rows. *)
Definition band (width minRows rows : Z) (r : Region.t) : Prop :=
  Region.x r = 0 /\ Region.width r = width /\
  exists a h : Z,
    Region.y r = a * cellSize /\ Region.height r = h * cellSize /\
    0 <= a /\ minRows <= h /\ a + h <= rows.

(** The state of the scan after the grid rows [0 <= y < n]: the current
    run of empty rows ends at the row [n], and every region pushed so far
    ends at least one grid row above the start of that run. *)
Definition scanInv (width minRows n : Z) (s : Scan) : Prop :=
  0 <= currentEmptyHeight s <= n /\
  (0 < currentEmptyHeight s -> startY s = n - currentEmptyHeight s) /\
  StronglySorted (above cellSize) (regions s) /\
  Forall (band width minRows (n - currentEmptyHeight s - 1)) (regions s).

End RegionSpec.

Module WrapSpec.
Import JsString.

(** The non-empty words of a list of lines: each line is cut at its
    spaces. *)
Definition lineWords (lines : list string) : list string :=
  List.filter FontSize.nonEmpty (concat (split space <$> lines)).

(** The non-empty words of a text: it is cut at its line breaks, and each
    paragraph at its spaces. *)
Definition textWords (text : string) : list string :=
  lineWords (split newline text).

(** The text that [insertTextIntoRegions] lays out:
    [textContent.text || String(textContent)]. *)
Definition textOf (textContent : Paragraph.t) : string :=
  match Paragraph.text textContent with
  | Some t => if FontSize.nonEmpty t then t else "[object Object]"
  | None => "[object Object]"
  end.

(** The text holds a word. *)
Definition hasWord (s : string) : bool :=
  FontSize.nonEmpty_list (lineWords [s]).

(** A line is a paragraph spacer without text, or a line of text that
    holds a word. *)
Definition properLine (line : WrappedLine.t) : bool :=
  if WrappedLine.isParagraphSpace line
  then negb (FontSize.nonEmpty (WrappedLine.text line))
  else hasWord (WrappedLine.text line).

(** The position at which [wrapText] puts its line number [i]. *)
Definition lineY (y fontSize : float) (i : nat) : float :=
  match i with
  | O => y
  | S _ => (y + JsNum.Z2F (Z.of_nat i) * fontSize * 1.3)%float
  end.

(** The words of the lines of [wrapText], in order. *)
Definition wordsOf (lines : list WrapText.Line) : list string :=
  concat ((fun l => WrapText.word_text <$> WrapText.segments l) <$> lines).

(** Line number [i] is at [(x, lineY y fontSize i)] and is
    [fontSize * 1.3] high. *)
Definition placed (x y fontSize : float) (lines : list WrapText.Line) : Prop :=
  forall (i : nat) (l : WrapText.Line),
    lines !! i = Some l ->
    WrapText.line_x l = x /\ WrapText.line_y l = lineY y fontSize i /\
    WrapText.lineHeight l = (fontSize * 1.3)%float.

(** The state of the loop of [wrapText] after the words [read]. *)
Definition wrapInv (x y fontSize : float) (read : list string)
    (st : WrapText.Loop) : Prop :=
  wordsOf (WrapText.lines st ++ [WrapText.currentLine st]) = read /\
  Forall (fun l => WrapText.segments l <> []) (WrapText.lines st) /\
  (read <> [] -> WrapText.segments (WrapText.currentLine st) <> []) /\
  placed x y fontSize (WrapText.lines st ++ [WrapText.currentLine st]).

End WrapSpec.

Module Placement.
Import JsNum JsString Wrap.

(** The metrics that [insertTextIntoRegions] computes between the wrap
    and the text objects (index.js 1497-1662). *)
Definition lineHeightOf (layout : Layout) : float :=
  (FontPlan.normalFontSize (plan layout) * 1.2)%float.

Definition textStartXOf (layout : Layout) : float :=
  (Z2F (Region.x (region layout))
   + Z2F (Region.width (region layout)) * 0.075)%float.

Definition manyLines (layout : Layout) : bool :=
  10 <? Z.of_nat (List.length (wrappedLines layout)).

Definition paragraphSpacingOf (layout : Layout) : float :=
  (lineHeightOf layout * (if manyLines layout then 1.1 else 1.3))%float.

Definition totalTextHeightOf (layout : Layout) : float :=
  foldl (fun height line =>
           if WrappedLine.isParagraphSpace line
           then (height + (if manyLines layout then lineHeightOf layout * 0.5
                           else paragraphSpacingOf layout))%float
           else (height + lineHeightOf layout)%float)
        0%float (wrappedLines layout).

Definition verticalAlignmentOf (layout : Layout) : string :=
  determineVerticalAlignment (region layout) (totalTextHeightOf layout)
                             (wrappedLines layout).

(** [region.y + topPadding] *)
Definition topOf (layout : Layout) : float :=
  (Z2F (Region.y (region layout)) + lineHeightOf layout * 0.5)%float.

(** [region.y + region.height - totalTextHeight - bottomPadding] *)
Definition bottomOf (layout : Layout) : float :=
  (Z2F (Region.y (region layout)) + Z2F (Region.height (region layout))
   - totalTextHeightOf layout - lineHeightOf layout * 0.5)%float.

(** [startY] after the [switch] and the clamp. *)
Definition startYOf (layout : Layout) : float :=
  let startY0 :=
    if String.eqb (verticalAlignmentOf layout) "top" then topOf layout
    else if String.eqb (verticalAlignmentOf layout) "bottom" then bottomOf layout
    else (Z2F (Region.y (region layout))
          + (Z2F (Region.height (region layout)) - totalTextHeightOf layout) / 2)%float in
  Math_max (topOf layout) (Math_min startY0 (bottomOf layout)).

End Placement.

Module Batch.

(** [array.slice(start, end)]: a negative index counts from the end, and
    both are clamped to the array. *)
Definition clampIndex (len i : Z) : Z :=
  if i <? 0 then Z.max (len + i) 0 else Z.min i len.

Definition slice {A} (l : list A) (start end_ : Z) : list A :=
  let len := Z.of_nat (List.length l) in
  let k := clampIndex len start in
  let final := clampIndex len end_ in
  take (Z.to_nat (final - k)) (drop (Z.to_nat k) l).

(** The loop [for (let i = 0; i < images.length; i += batchSize)
    batches.push(images.slice(i, i + batchSize))] of [processBatch]
    (index.js 1105-1108); [None] when it is still running after [fuel]
    iterations. *)
Fixpoint batchesLoop {A} (fuel : nat) (images : list A) (batchSize i : Z)
    (batches : list (list A)) : option (list (list A)) :=
  if i <? Z.of_nat (List.length images) then
    match fuel with
    | O => None
    | S fuel' =>
        batchesLoop fuel' images batchSize (i + batchSize)
                    (batches ++ [slice images i (i + batchSize)])
    end
  else Some batches.

(** The counters [completed] and [successful]. *)
Record Progress : Type := mkProgress { completed : Z; successful : Z }.

(** The body of [for (const batch of batches)] (index.js 1120-1128), over
    the outcome [processImage] of each image. *)
Definition runBatch {A} (processImage : A -> bool) (p : Progress)
    (batch : list A) : Progress :=
  let results := processImage <$> batch in
  mkProgress (completed p + Z.of_nat (List.length batch))
             (successful p + Z.of_nat (List.length (List.filter id results))).

Definition default_batchSize : Z := 4.

End Batch.

Module Excel.
Import JsString.

(** [s.trim()]: the white space of [\s] is removed at both ends. *)
Fixpoint trimStart (s : string) : string :=
  match s with
  | EmptyString => EmptyString
  | String c rest => if WrapText.isWhiteSpace c then trimStart rest else s
  end.

Fixpoint trimEnd (s : string) : string :=
  match s with
  | EmptyString => EmptyString
  | String c rest =>
      match trimEnd rest with
      | EmptyString =>
          if WrapText.isWhiteSpace c then EmptyString else String c EmptyString
      | rest' => String c rest'
      end
  end.

Definition trim (s : string) : string := trimEnd (trimStart s).

Section Row.
(** [font.color] is read by [processColor] alone; the row assembly only
    tests it and the colour returned. *)
Variable Color : Type.

Record Font : Type := mkFont { bold : bool; color : option Color }.

(** The closure [processColor] (index.js 739-766): [None] is [null]. *)
Variable processColor : Font -> option string.

(** An entry of [cell.value.richText]. *)
Record Run : Type := mkRun { run_text : string; run_font : option Font }.

(** A cell as the callback of [row.eachCell] reads it: its [font], and
    either the runs of a rich text or [cell.text] and
    [String(cell.value || "")]. *)
Inductive Value : Type :=
| RichText (richText : list Run)
| Plain (text valueString : string).

Record Cell : Type := mkCell { font : option Font; value : Value }.

(** The variables of the callback of [worksheet.eachRow]. *)
Record Row : Type := mkRow {
  rowText : string;
  colorSegments : list ColorSegment.t;
  boldSegments : list Segment.t;
  currentPosition : Z
}.

(** [font && font.bold] *)
Definition isBoldFont (f : option Font) : bool :=
  match f with
  | Some f => bold f
  | None => false
  end.

(** [font && font.color], then [processColor(font)], then [if (color)]. *)
Definition colorOf (f : option Font) : option string :=
  match f with
  | Some f =>
      match color f with
      | Some _ =>
          match processColor f with
          | Some c => if FontSize.nonEmpty c then Some c else None
          | None => None
          end
      | None => None
      end
  | None => None
  end.

(** The callback of [cell.value.richText.forEach]: [cellValue] and the
    two segment lists. *)
Definition addRun (currentPosition : Z)
    (st : string * list ColorSegment.t * list Segment.t) (rt : Run)
  : string * list ColorSegment.t * list Segment.t :=
  let cellValue := fst (fst st) in
  let text := run_text rt in
  let startPos := currentPosition + len cellValue in
  let boldSegments :=
    if isBoldFont (run_font rt)
    then snd st ++ [Segment.mk startPos (len text)] else snd st in
  let colorSegments :=
    match colorOf (run_font rt) with
    | Some color => snd (fst st) ++ [ColorSegment.mk startPos (len text) color]
    | None => snd (fst st)
    end in
  ((cellValue ++ text)%string, colorSegments, boldSegments).

(** The [switch (cell.type)]: [cellValue] and the two segment lists. *)
Definition readCell (row : Row) (cell : Cell)
  : string * list ColorSegment.t * list Segment.t :=
  match value cell with
  | RichText richText =>
      foldl (addRun (currentPosition row))
            (EmptyString, colorSegments row, boldSegments row) richText
  | Plain text valueString =>
      let cellValue := if FontSize.nonEmpty text then text else valueString in
      (cellValue,
       match colorOf (font cell) with
       | Some color =>
           colorSegments row
           ++ [ColorSegment.mk (currentPosition row) (len cellValue) color]
       | None => colorSegments row
       end,
       boldSegments row)
  end.

(** The callback of [row.eachCell] (index.js 775-843). *)
Definition addCell (row : Row) (cell : Cell) : Row :=
  let isBold := isBoldFont (font cell) in
  let read := readCell row cell in
  let cellValue := fst (fst read) in
  if FontSize.nonEmpty (trim cellValue) then
    let separated := FontSize.nonEmpty (rowText row) in
    let rowText1 :=
      if separated then (rowText row ++ " ")%string else rowText row in
    let position1 :=
      if separated then currentPosition row + 1 else currentPosition row in
    mkRow (rowText1 ++ cellValue)%string
          (snd (fst read))
          (if isBold then snd read ++ [Segment.mk position1 (len cellValue)]
           else snd read)
          (position1 + len cellValue)
  else mkRow (rowText row) (snd (fst read)) (snd read) (currentPosition row).

Definition readRow (cells : list Cell) : Row :=
  foldl addCell (mkRow EmptyString [] [] 0) cells.

(** The callback of [worksheet.eachRow] (index.js 769-852): the text
    content pushed for the row, if any. *)
Definition processRow (cells : list Cell) : option Paragraph.t :=
  let row := readRow cells in
  if FontSize.nonEmpty (trim (rowText row))
  then Some (Paragraph.mk (Some (trim (rowText row)))
                          (Some (colorSegments row)) (Some (boldSegments row)))
  else None.

(** [cellValue] of a cell. *)
Definition cellValueOf (cell : Cell) : string :=
  match value cell with
  | RichText richText => foldr (fun rt s => (run_text rt ++ s)%string) EmptyString richText
  | Plain text valueString => if FontSize.nonEmpty text then text else valueString
  end.

Definition isPlain (cell : Cell) : bool :=
  match value cell with
  | Plain _ _ => true
  | RichText _ => false
  end.

(** A cell that is not blank: [cellValue.trim()] is not empty. *)
Definition notBlank (cell : Cell) : bool :=
  FontSize.nonEmpty (trim (cellValueOf cell)).

End Row.

(** Some character of [s] is not white space. *)
Fixpoint hasInk (s : string) : bool :=
  match s with
  | EmptyString => false
  | String c rest => negb (WrapText.isWhiteSpace c) || hasInk rest
  end.

(** [values.join(" ")] *)
Fixpoint joinSpace (values : list string) : string :=
  match values with
  | [] => EmptyString
  | [v] => v
  | v :: rest => (v ++ " " ++ joinSpace rest)%string
  end.

(** [s.substr(start, length)] for a start and a length inside [s]. *)
Definition substr (s : string) (start length : Z) : string :=
  String.substring (Z.to_nat start) (Z.to_nat length) s.

(** The segment lies inside [s]. *)
Definition inside (s : string) (start length : Z) : Prop :=
  0 <= start /\ 0 <= length /\ start + length <= len s.

(** Where the text of a colour segment of a plain cell starts: at
    [start] for the first cell of the row, one character later for the
    others. *)
Definition colourStart (seg : ColorSegment.t) : Z :=
  if ColorSegment.start seg =? 0 then 0 else ColorSegment.start seg + 1.

(** The state of a colour segment in the row text [s]: its text lies in
    [s] from [colourStart], and a segment that does not start the row
    starts at a space. *)
Definition colourPlaced (s : string) (seg : ColorSegment.t) : Prop :=
  inside s (colourStart seg) (ColorSegment.length seg) /\
  (ColorSegment.start seg = 0 \/
   0 < ColorSegment.start seg /\ substr s (ColorSegment.start seg) 1 = " ").

(** The text and the colour that a colour segment stands for. *)
Definition colourRead (s : string) (seg : ColorSegment.t) : string * string :=
  (substr s (colourStart seg) (ColorSegment.length seg), ColorSegment.color seg).

End Excel.

Module LineSpec.
Import JsString.

(** An entry of [currentLineColors] reads its word in the line: the text
    of the entry is found in the line at [start]. *)
Definition wordAt (line : string) (seg : LineColor.t) : Prop :=
  Excel.inside line (LineColor.start seg) (len (LineColor.text seg)) /\
  Excel.substr line (LineColor.start seg) (len (LineColor.text seg))
  = LineColor.text seg.

(** The entries list the words of the line: each one reads its word in the
    line, and the texts that are not empty are the non-empty words of the
    line, in order. *)
Definition spelled (line : string) (segs : list LineColor.t) : Prop :=
  Forall (wordAt line) segs /\
  List.filter FontSize.nonEmpty (LineColor.text <$> segs)
  = WrapSpec.lineWords [line].

(** A wrapped line with colour segments is spelled by them; only a
    paragraph spacer has none. *)
Definition lineSpelled (line : WrappedLine.t) : Prop :=
  match WrappedLine.colorSegments line with
  | Some segs => spelled (WrappedLine.text line) segs
  | None => WrappedLine.isParagraphSpace line = true
  end.

End LineSpec.

Module BlankText.

(** A paragraph without characters, as [insertTextIntoRegions] builds it
    for an empty line of the text. *)
Definition blank (para : Paragraph.t) : Prop :=
  Paragraph.text para = Some EmptyString /\
  Paragraph.boldSegments para = Some [].

End BlankText.

Module Fixtures.
Import JsString.

(** A cache that holds one file of two bytes, and a disk with one other
    file of three bytes. *)
Definition oneCached : Cache.State :=
  Cache.mkState [("a.png", [Byte.x00; Byte.x01])] 2.

Definition smallDisk : Cache.FileSystem :=
  fun path =>
    if String.eqb path "b.png" then Some [Byte.x02; Byte.x03; Byte.x04]
    else None.

Definition emptyDisk : Cache.FileSystem := fun _ => None.

(** The state of the cache after [b.png] has been read from [smallDisk]. *)
Definition twoCached : Cache.State :=
  Cache.mkState [("a.png", [Byte.x00; Byte.x01]);
                 ("b.png", [Byte.x02; Byte.x03; Byte.x04])] 5.

(** Fonts whose colour is the text of the colour itself. *)
Definition colourText (f : Excel.Font string) : option string := Excel.color string f.

Definition plainCell (bold : bool) (colour : option string) (text : string)
  : Excel.Cell string :=
  Excel.mkCell string (Some (Excel.mkFont string bold colour))
               (Excel.Plain string text text).

(** A row of three cells: plain, bold and red, blank. *)
Definition sampleRow : list (Excel.Cell string) :=
  [plainCell false None "Sale"; plainCell true (Some "#FF0000") "now";
   plainCell true None "  "].

Definition colouredRow : list (Excel.Cell string) :=
  [plainCell false (Some "#0000FF") "Sale"; plainCell true (Some "#FF0000") "now"].

(** A bold cell of two runs: plain, then bold and red. *)
Definition richCell : Excel.Cell string :=
  Excel.mkCell string (Some (Excel.mkFont string true None))
    (Excel.RichText string
       [Excel.mkRun string "Sale " None;
        Excel.mkRun string "now" (Some (Excel.mkFont string true (Some "#FF0000")))]).

(** The text content and the regions of a small layout. *)
Definition sampleText : Paragraph.t := Samples.plain "aaaa bbi zz".

Definition sampleRegions : list Rectangle.t :=
  [Rectangle.mk "rectangle" 0 0 100 60 "blue" 1 6000].

Definition noLayout : Wrap.Layout :=
  Wrap.mkLayout (Region.mk 0 0 0 0) (FontPlan.mk 0 0 0 0) 0%float [].

Definition sampleLayout : Wrap.Layout :=
  Eval vm_compute in
    match Wrap.layoutLines [] sampleText sampleRegions with
    | inr (Some layout) => layout
    | _ => noLayout
    end.

(** The layout of the same text on an image of 100 by 98 pixels with a
    dark band on the rows 33 to 57. *)
Definition bandLayout :=
  Eval vm_compute in
    match Wrap.layoutLines [] sampleText
            (Regions.findEmptyRegions (RasterSpec.makeBand 100 98 33 58)
               Regions.default_minWidth Regions.default_minHeight) with
    | inr (Some layout) => layout
    | _ => noLayout
    end.

End Fixtures.

(* ===================================================================== *)
(** * Part II: properties                                                 *)
(* ===================================================================== *)

(** ** Glyph width estimator *)

Section TextWidthFacts.
Import JsNum JsString TextWidth TextWidthSpec.

Lemma increasing_lookup (l : list float) :
  increasing l = true ->
  forall (i j : nat) (a b : float),
    (i < j)%nat -> l !! i = Some a -> l !! j = Some b -> (a <? b)%float = true.
Proof.
  induction l as [|h t IH]; intros Hinc i j a b Hij Hi Hj.
  - discriminate.
  - simpl in Hinc. apply andb_true_iff in Hinc as [Hh Ht].
    destruct j as [|j]; [exfalso; lia|]. simpl in Hj.
    destruct i as [|i]; simpl in Hi.
    + injection Hi as <-. rewrite forallb_forall in Hh.
      apply Hh. apply list_elem_of_In. eapply list_elem_of_lookup_2; eauto.
    + apply (IH Ht i j a b); [lia | exact Hi | exact Hj].
Qed.

Lemma widthsAt_lookup (r : float) (n : Z) :
  1 <= n <= 1000 ->
  widthsAt r !! Z.to_nat (n - 1) = Some (0 + Z2F n * r)%float.
Proof.
  intros Hn. unfold widthsAt. rewrite list_lookup_fmap.
  rewrite (lookup_seqZ_lt 1 1000 (Z.to_nat (n - 1))) by lia.
  replace (1 + Z.of_nat (Z.to_nat (n - 1))) with n by lia. reflexivity.
Qed.

Lemma widthsAt_increasing :
  forallb (fun r => increasing (widthsAt r))
          [widthRatios_space; widthRatios_narrow; widthRatios_wide;
           widthRatios_default] = true.
Proof. vm_compute. reflexivity. Qed.

Lemma boldWidthsAt_lookup (r : float) (n : Z) :
  1 <= n <= 1000 ->
  boldWidthsAt r !! Z.to_nat (n - 1) = Some (0 + Z2F n * 1.1 * r)%float.
Proof.
  intros Hn. unfold boldWidthsAt. rewrite list_lookup_fmap.
  rewrite (lookup_seqZ_lt 1 1000 (Z.to_nat (n - 1))) by lia.
  replace (1 + Z.of_nat (Z.to_nat (n - 1))) with n by lia. reflexivity.
Qed.

Lemma boldWidthsAt_increasing :
  forallb (fun r => increasing (boldWidthsAt r))
          [widthRatios_space; widthRatios_narrow; widthRatios_wide;
           widthRatios_default] = true.
Proof. vm_compute. reflexivity. Qed.

Lemma sizesTo1000_In (n : Z) :
  1 <= n <= 1000 -> In (n, Z2F n) sizesTo1000.
Proof.
  intros Hn. unfold sizesTo1000.
  apply list_elem_of_In, list_elem_of_fmap. exists n.
  split; [reflexivity|]. apply elem_of_seqZ. lia.
Qed.

Lemma crossOrdered_all :
  forallb crossOrdered
          [widthRatios_space; widthRatios_narrow; widthRatios_wide;
           widthRatios_default] = true.
Proof. vm_compute. reflexivity. Qed.

Lemma charRatio_cases (c : ascii) :
  In (charRatio c)
     [widthRatios_space; widthRatios_narrow; widthRatios_wide;
      widthRatios_default].
Proof.
  unfold charRatio.
  destruct (Set_has spaceChars c); [simpl; tauto|].
  destruct (Set_has narrowChars c); [simpl; tauto|].
  destruct (Set_has wideChars c); simpl; tauto.
Qed.

Lemma calculateTextWidth_single (c : ascii) (fontSize : float) :
  calculateTextWidth (String c EmptyString) fontSize
  = (0 + fontSize * charRatio c)%float.
Proof. reflexivity. Qed.

(** The three character sets are pairwise disjoint, so the bucket of a
    character does not depend on the order of the tests. *)
Lemma buckets_disjoint (c : ascii) :
  (Set_has spaceChars c && Set_has narrowChars c = false) /\
  (Set_has spaceChars c && Set_has wideChars c = false) /\
  (Set_has narrowChars c && Set_has wideChars c = false).
Proof.
  destruct c as [[] [] [] [] [] [] [] []]; vm_compute; auto.
Qed.

(** C7 (as stated) fails: in each of the four buckets there are two
    positive font sizes [f1 < f2], neighbours among the binary64 numbers,
    for which a character has the same width at [f1] and at [f2]: the
    product [fontSize * ratio] is rounded to the same number.  Two sizes
    that the solver passes are such neighbours: the trial size 55 and the
    bold size [50 * 1.1] of the trial size 50, at which a space and a
    narrow character have the same width. *)
Lemma calculateTextWidth_not_strictly_monotone :
  ((0 <? 1.7) && (1.7 <? 1.7000000000000002) &&
   (calculateTextWidth " " 1.7 =? calculateTextWidth " " 1.7000000000000002)
   = true)%float /\
  ((0 <? 1.5000000000000007) && (1.5000000000000007 <? 1.5000000000000009) &&
   (calculateTextWidth "i" 1.5000000000000007
    =? calculateTextWidth "i" 1.5000000000000009) = true)%float /\
  ((0 <? 1.5000000000000004) && (1.5000000000000004 <? 1.5000000000000007) &&
   (calculateTextWidth "m" 1.5000000000000004
    =? calculateTextWidth "m" 1.5000000000000007) = true)%float /\
  ((0 <? 1.9000000000000004) && (1.9000000000000004 <? 1.9000000000000006) &&
   (calculateTextWidth "a" 1.9000000000000004
    =? calculateTextWidth "a" 1.9000000000000006) = true)%float /\
  ((calculateTextWidth " " 1.7 <? calculateTextWidth " " 1.7000000000000002)
   = false)%float /\
  ((Z2F 55 <? Z2F 50 * 1.1) &&
   (calculateTextWidth " " (Z2F 55) =? calculateTextWidth " " (Z2F 50 * 1.1)) &&
   (calculateTextWidth "i" (Z2F 55) =? calculateTextWidth "i" (Z2F 50 * 1.1))
   = true)%float.
Proof. vm_compute. repeat split; reflexivity. Qed.

(** C7 (amended): the width of a single character is
    [0 + fontSize * ratio], where the ratio is 0.3 for a space or a tab,
    0.35 for a character of the narrow set, 0.75 for one of the wide set
    and 0.55 otherwise.  In every bucket the width grows strictly with the
    size over the integer sizes 1..1000 (the trial sizes are the integers
    14..72), and over the bold sizes [n * 1.1] of these integers.  An
    integer size [n1] and a bold size [n2 * 1.1] are ordered as the
    numbers [n1] and [1.1 n2] are, and so are the widths at them,
    strictly; where [n1 = 1.1 n2] the bold size is [n1] or just above it,
    and the width at it is the width at [n1] or above it. *)
Theorem calculateTextWidth_buckets_and_monotone
    (c : ascii) (n1 n2 : Z) :
  1 <= n1 <= 1000 -> 1 <= n2 <= 1000 ->
  (forall fontSize,
      calculateTextWidth (String c EmptyString) fontSize
      = (0 + fontSize *
             (if Set_has (String space (String tab EmptyString)) c then 0.3
              else if Set_has ("ijl,.'" ++ String dquote "|!()[]{}/-_")%string c
                   then 0.35
              else if Set_has "mwWM@QOCDG%&#AHNUX" c then 0.75
              else 0.55))%float) /\
  (n1 < n2 ->
   (calculateTextWidth (String c EmptyString) (Z2F n1)
    <? calculateTextWidth (String c EmptyString) (Z2F n2))%float = true /\
   (calculateTextWidth (String c EmptyString) (Z2F n1 * 1.1)
    <? calculateTextWidth (String c EmptyString) (Z2F n2 * 1.1))%float = true) /\
  (10 * n1 < 11 * n2 ->
   (Z2F n1 <? Z2F n2 * 1.1)%float = true /\
   (calculateTextWidth (String c EmptyString) (Z2F n1)
    <? calculateTextWidth (String c EmptyString) (Z2F n2 * 1.1))%float = true) /\
  (11 * n2 < 10 * n1 ->
   (Z2F n2 * 1.1 <? Z2F n1)%float = true /\
   (calculateTextWidth (String c EmptyString) (Z2F n2 * 1.1)
    <? calculateTextWidth (String c EmptyString) (Z2F n1))%float = true) /\
  (10 * n1 = 11 * n2 ->
   (Z2F n1 <=? Z2F n2 * 1.1)%float = true /\
   (calculateTextWidth (String c EmptyString) (Z2F n1)
    <=? calculateTextWidth (String c EmptyString) (Z2F n2 * 1.1))%float = true).
Proof.
  intros H1 H2. split; [intros; reflexivity|].
  rewrite !calculateTextWidth_single.
  pose proof widthsAt_increasing as Hint.
  pose proof boldWidthsAt_increasing as Hbold.
  pose proof crossOrdered_all as Hcross.
  rewrite forallb_forall in Hint, Hbold, Hcross.
  specialize (Hint _ (charRatio_cases c)).
  specialize (Hbold _ (charRatio_cases c)).
  specialize (Hcross _ (charRatio_cases c)).
  unfold crossOrdered in Hcross. rewrite forallb_forall in Hcross.
  specialize (Hcross _ (sizesTo1000_In n1 H1)).
  rewrite forallb_forall in Hcross.
  specialize (Hcross _ (sizesTo1000_In n2 H2)).
  cbv zeta in Hcross. cbn [fst snd] in Hcross.
  split.
  { intros H12. split.
    - eapply (increasing_lookup _ Hint (Z.to_nat (n1 - 1)) (Z.to_nat (n2 - 1)));
        [lia|apply widthsAt_lookup; lia|apply widthsAt_lookup; lia].
    - eapply (increasing_lookup _ Hbold (Z.to_nat (n1 - 1)) (Z.to_nat (n2 - 1)));
        [lia|apply boldWidthsAt_lookup; lia|apply boldWidthsAt_lookup; lia]. }
  destruct (Z.compare_spec (10 * n1) (11 * n2)) as [Heq|Hlt|Hgt];
    apply andb_true_iff in Hcross; (split; [|split]); intros H; try lia;
    exact Hcross.
Qed.

Lemma calculateTextWidth_buckets_and_monotone_witness :
  (forall fontSize,
      calculateTextWidth "W" fontSize
      = (0 + fontSize *
             (if Set_has (String space (String tab EmptyString)) "W" then 0.3
              else if Set_has ("ijl,.'" ++ String dquote "|!()[]{}/-_")%string "W"
                   then 0.35
              else if Set_has "mwWM@QOCDG%&#AHNUX" "W" then 0.75
              else 0.55))%float) /\
  (14 < 72 ->
   (calculateTextWidth "W" (Z2F 14) <? calculateTextWidth "W" (Z2F 72))%float
   = true /\
   (calculateTextWidth "W" (Z2F 14 * 1.1)
    <? calculateTextWidth "W" (Z2F 72 * 1.1))%float = true) /\
  (10 * 14 < 11 * 72 ->
   (Z2F 14 <? Z2F 72 * 1.1)%float = true /\
   (calculateTextWidth "W" (Z2F 14)
    <? calculateTextWidth "W" (Z2F 72 * 1.1))%float = true) /\
  (11 * 72 < 10 * 14 ->
   (Z2F 72 * 1.1 <? Z2F 14)%float = true /\
   (calculateTextWidth "W" (Z2F 72 * 1.1)
    <? calculateTextWidth "W" (Z2F 14))%float = true) /\
  (10 * 14 = 11 * 72 ->
   (Z2F 14 <=? Z2F 72 * 1.1)%float = true /\
   (calculateTextWidth "W" (Z2F 14)
    <=? calculateTextWidth "W" (Z2F 72 * 1.1))%float = true).
Proof.
  apply (calculateTextWidth_buckets_and_monotone "W" 14 72); lia.
Defined.

End TextWidthFacts.

(** ** Image read cache *)

Section CacheFacts.
Import Cache CacheSpec.

Lemma buf_length_nonneg (b : Buffer) : 0 <= buf_length b.
Proof. unfold buf_length. lia. Qed.

Lemma totalBytes_nonneg (m : list (string * Buffer)) : 0 <= totalBytes m.
Proof.
  induction m as [|kv m IH]; simpl; [lia|].
  pose proof (buf_length_nonneg (snd kv)). lia.
Qed.

Lemma Map_delete_absent (k : string) (m : list (string * Buffer)) :
  ~ In k (map fst m) -> Map_delete k m = m.
Proof.
  induction m as [|[k' v'] m IH]; simpl; intros Hk; [reflexivity|].
  destruct (String.eqb_spec k' k) as [->|Hne]; simpl.
  - exfalso. apply Hk. left. reflexivity.
  - f_equal. apply IH. intros Hin. apply Hk. right. exact Hin.
Qed.

(** Evicting the oldest entry keeps the bookkeeping consistent. *)
Lemma clearOldestCache_consistent (st : State) :
  consistent st -> consistent (clearOldestCache st).
Proof.
  destruct st as [m sz]. unfold consistent, clearOldestCache. simpl.
  destruct m as [|[k v] m]; simpl; [tauto|].
  intros [Hsz Hnd]. apply NoDup_cons in Hnd as [Hk Hnd].
  rewrite String.eqb_refl. simpl.
  rewrite Map_delete_absent by (rewrite <- list_elem_of_In; exact Hk).
  split; [lia | exact Hnd].
Qed.

Lemma clearOldestCache_shrinks (st : State) :
  consistent st -> imageCache st <> [] ->
  S (List.length (imageCache (clearOldestCache st))) = List.length (imageCache st).
Proof.
  destruct st as [m sz]. unfold consistent, clearOldestCache. simpl.
  destruct m as [|[k v] m]; simpl; [congruence|].
  intros [_ Hnd] _. apply NoDup_cons in Hnd as [Hk _].
  rewrite String.eqb_refl. simpl.
  rewrite Map_delete_absent by (rewrite <- list_elem_of_In; exact Hk).
  reflexivity.
Qed.

(** A buffer that is larger than the budget keeps the guard of the
    eviction loop true, whatever is evicted. *)
Lemma evictLoop_diverges (len : Z) :
  MAX_CACHE_SIZE < len ->
  forall (fuel : nat) (st : State), consistent st -> evictLoop fuel len st = None.
Proof.
  intros Hlen fuel. induction fuel as [|fuel IH]; intros st Hst.
  - simpl. destruct Hst as [Hsz _].
    pose proof (totalBytes_nonneg (imageCache st)).
    destruct (Z.gtb_spec (currentCacheSize st + len) MAX_CACHE_SIZE); [reflexivity|lia].
  - simpl. destruct Hst as [Hsz Hnd].
    pose proof (totalBytes_nonneg (imageCache st)).
    destruct (Z.gtb_spec (currentCacheSize st + len) MAX_CACHE_SIZE); [|lia].
    apply IH. apply clearOldestCache_consistent. split; assumption.
Qed.

(** A buffer within the budget is admitted after at most one eviction per
    cached entry. *)
Lemma evictLoop_terminates (len : Z) :
  len <= MAX_CACHE_SIZE ->
  forall (fuel : nat) (st : State),
    consistent st -> (List.length (imageCache st) <= fuel)%nat ->
    exists st', evictLoop fuel len st = Some st' /\ consistent st' /\
                currentCacheSize st' + len <= MAX_CACHE_SIZE.
Proof.
  intros Hlen fuel. induction fuel as [|fuel IH]; intros st Hst Hfuel.
  - destruct st as [m sz]. simpl in *.
    destruct m; [|simpl in Hfuel; lia].
    destruct Hst as [Hsz Hnd]. simpl in Hsz. subst sz.
    destruct (Z.gtb_spec (0 + len) MAX_CACHE_SIZE); [lia|].
    eexists. split; [reflexivity|]. split; [split; [reflexivity|exact Hnd]|simpl; lia].
  - simpl. destruct (Z.gtb_spec (currentCacheSize st + len) MAX_CACHE_SIZE).
    + destruct (imageCache st) eqn:Hm.
      * destruct Hst as [Hsz _]. rewrite Hm in Hsz. simpl in Hsz. lia.
      * apply IH; [apply clearOldestCache_consistent; exact Hst|].
        pose proof (clearOldestCache_shrinks st Hst) as Hs.
        rewrite Hm in Hs. specialize (Hs ltac:(discriminate)).
        simpl in *. lia.
    + eexists. split; [reflexivity|]. split; [exact Hst|lia].
Qed.

Lemma readImageFile_diverges (fs : FileSystem) (imagePath : string)
    (imageBuffer : Buffer) (st : State) :
  consistent st ->
  Map_get imagePath (imageCache st) = None ->
  fs imagePath = Some imageBuffer ->
  MAX_CACHE_SIZE < buf_length imageBuffer ->
  forall fuel, readImageFile fuel fs imagePath st = None.
Proof.
  intros Hst Hget Hfs Hlen fuel. unfold readImageFile.
  rewrite Hget, Hfs. rewrite evictLoop_diverges by assumption. reflexivity.
Qed.

Lemma readImageFile_returns (fs : FileSystem) (imagePath : string) (st : State) :
  consistent st ->
  (forall b, fs imagePath = Some b -> buf_length b <= MAX_CACHE_SIZE) ->
  exists out, readImageFile (List.length (imageCache st)) fs imagePath st = Some out.
Proof.
  intros Hst Hfs. unfold readImageFile.
  destruct (Map_get imagePath (imageCache st)); [eauto|].
  destruct (fs imagePath) as [b|] eqn:Hb; [|eauto].
  destruct (evictLoop_terminates (buf_length b) (Hfs b eq_refl)
              (List.length (imageCache st)) st Hst (le_n _)) as (st' & -> & _).
  eauto.
Qed.

Lemma oversized_length : buf_length oversized = MAX_CACHE_SIZE + 1.
Proof.
  unfold buf_length, oversized. rewrite repeat_length.
  rewrite Z2Nat.id; [reflexivity|]. unfold MAX_CACHE_SIZE. lia.
Qed.

(** C3 (fails on the code): with an empty cache, [readImageFile] of an
    image file of [MAX_CACHE_SIZE + 1] bytes does not return: however many
    iterations of the eviction loop are run, the loop is still running
    ([clearOldestCache] returns at once on the empty cache, and
    [0 + imageBuffer.length > MAX_CACHE_SIZE] stays true). *)
Theorem readImageFile_oversized_never_returns (fuel : nat) :
  readImageFile fuel diskWithOversized "big.png" emptyState = None.
Proof.
  apply (readImageFile_diverges diskWithOversized "big.png" oversized).
  - split; [reflexivity | constructor].
  - reflexivity.
  - reflexivity.
  - rewrite oversized_length. lia.
Qed.

End CacheFacts.

(** ** Sorting with a comparator [(a, b) => key(b) - key(a)] *)

Section SortFacts.
Import Regions.
Context {A : Type} (key : A -> Z).

Local Abbreviation cmp := (fun a b : A => key b - key a).
Local Abbreviation desc := (fun a b : A => key b <= key a).

Lemma insertBy_Permutation (a : A) (l : list A) :
  Permutation (a :: l) (insertBy cmp a l).
Proof.
  induction l as [|b l IH]; simpl; [reflexivity|].
  destruct (cmp a b <=? 0); [reflexivity|].
  rewrite perm_swap. apply perm_skip. exact IH.
Qed.

Lemma sortBy_Permutation (l : list A) : Permutation l (sortBy cmp l).
Proof.
  induction l as [|a l IH]; simpl; [reflexivity|].
  rewrite <- insertBy_Permutation. apply perm_skip. exact IH.
Qed.

Lemma insertBy_sorted (a : A) (l : list A) :
  StronglySorted desc l -> StronglySorted desc (insertBy cmp a l).
Proof.
  induction l as [|b l IH]; simpl; intros Hs.
  - constructor; [constructor|constructor].
  - apply StronglySorted_inv in Hs as [Hs Hb].
    destruct (Z.leb_spec (cmp a b) 0) as [Hab|Hab]; simpl in *.
    + constructor; [constructor; assumption|].
      constructor; [lia|].
      eapply Forall_impl; [exact Hb|]. simpl. intros c Hc. lia.
    + constructor; [apply IH; exact Hs|].
      rewrite <- insertBy_Permutation. constructor; [lia|exact Hb].
Qed.

Lemma sortBy_sorted (l : list A) : StronglySorted desc (sortBy cmp l).
Proof.
  induction l as [|a l IH]; simpl; [constructor|].
  apply insertBy_sorted. exact IH.
Qed.

(** Stability: the elements of one key are left in their order. *)
Lemma insertBy_filter (k : Z) (a : A) (l : list A) :
  List.filter (fun x => key x =? k) (insertBy cmp a l)
  = List.filter (fun x => key x =? k) (a :: l).
Proof.
  induction l as [|b l IH]; [reflexivity|].
  cbn [insertBy].
  destruct (Z.leb_spec (cmp a b) 0) as [Hab|Hab]; [reflexivity|].
  simpl in Hab. cbn [List.filter] in *.
  destruct (Z.eqb_spec (key b) k) as [Hb|Hb].
  - rewrite IH. destruct (Z.eqb_spec (key a) k); [lia|reflexivity].
  - rewrite IH. reflexivity.
Qed.

Lemma sortBy_filter (k : Z) (l : list A) :
  List.filter (fun x => key x =? k) (sortBy cmp l)
  = List.filter (fun x => key x =? k) l.
Proof.
  induction l as [|a l IH]; [reflexivity|].
  cbn [sortBy foldr]. fold (sortBy cmp l).
  rewrite insertBy_filter. cbn [List.filter]. rewrite IH. reflexivity.
Qed.

Lemma sortBy_stableSortOf (l : list A) : stableSortOf key l (sortBy cmp l).
Proof.
  split; [apply sortBy_Permutation|].
  split; [apply sortBy_sorted|].
  intros k. apply sortBy_filter.
Qed.

(** A stable sorted arrangement is unique. *)
Lemma stable_sorted_unique (l1 l2 : list A) :
  StronglySorted desc l1 -> StronglySorted desc l2 ->
  Permutation l1 l2 ->
  (forall k, List.filter (fun x => key x =? k) l1
             = List.filter (fun x => key x =? k) l2) ->
  l1 = l2.
Proof.
  revert l2. induction l1 as [|a l1 IH]; intros l2 Hs1 Hs2 Hp Hf.
  - apply Permutation_nil in Hp. congruence.
  - destruct l2 as [|b l2].
    { apply Permutation_sym, Permutation_nil in Hp. discriminate. }
    apply StronglySorted_inv in Hs1 as [Hs1 Ha].
    apply StronglySorted_inv in Hs2 as [Hs2 Hb].
    assert (Hba : key b <= key a).
    { assert (Hin : In b (a :: l1)).
      { eapply Permutation_in; [symmetry; exact Hp|left; reflexivity]. }
      destruct Hin as [->|Hin]; [lia|].
      rewrite Forall_forall in Ha. apply Ha. apply list_elem_of_In. exact Hin. }
    assert (Hab : key a <= key b).
    { assert (Hin : In a (b :: l2)).
      { eapply Permutation_in; [exact Hp|left; reflexivity]. }
      destruct Hin as [->|Hin]; [lia|].
      rewrite Forall_forall in Hb. apply Hb. apply list_elem_of_In. exact Hin. }
    assert (Heq : a = b).
    { specialize (Hf (key a)). cbn [List.filter] in Hf.
      rewrite Z.eqb_refl in Hf.
      destruct (Z.eqb_spec (key b) (key a)); [congruence|lia]. }
    subst b. f_equal. apply IH; try assumption.
    + eapply Permutation_cons_inv. exact Hp.
    + intros k. specialize (Hf k). cbn [List.filter] in Hf.
      destruct (key a =? k); congruence.
Qed.

Lemma stableSortOf_unique (l l1 l2 : list A) :
  stableSortOf key l l1 -> stableSortOf key l l2 -> l1 = l2.
Proof.
  intros (Hp1 & Hs1 & Hf1) (Hp2 & Hs2 & Hf2).
  apply stable_sorted_unique; try assumption.
  - rewrite <- Hp1. exact Hp2.
  - intros k. rewrite Hf1, Hf2. reflexivity.
Qed.

End SortFacts.

(** ** Empty-region finder: ordering and minimum height *)

Section RegionOrderFacts.
Import Regions.

Lemma emptyRectangles_Forall (img : Raster) (minHeight : Z) :
  Forall (fun r => Rectangle.area r = Rectangle.width r * Rectangle.height r /\
                   minHeight <= Rectangle.height r)
         (emptyRectangles img minHeight).
Proof.
  unfold emptyRectangles. apply Forall_fmap, Forall_forall.
  intros r Hr. apply list_elem_of_In, filter_In in Hr as [_ Hr].
  simpl. split; [reflexivity|lia].
Qed.

(** C4: for every raster and every [minHeight], the rectangles returned by
    [findEmptyRegions] are in descending order of [area], the [area] of
    each is its [width] times its [height], and none has a [height] below
    [minHeight]. *)
Theorem findEmptyRegions_sorted_by_area_desc
    (img : Raster) (minWidth minHeight : Z) :
  StronglySorted (fun a b => Rectangle.area b <= Rectangle.area a)
                 (findEmptyRegions img minWidth minHeight) /\
  Forall (fun r => Rectangle.area r = Rectangle.width r * Rectangle.height r /\
                   ~ Rectangle.height r < minHeight)
         (findEmptyRegions img minWidth minHeight).
Proof.
  unfold findEmptyRegions, findEmptyRegions_with. split.
  - apply (sortBy_sorted Rectangle.area).
  - rewrite <- (sortBy_Permutation Rectangle.area).
    eapply Forall_impl; [apply emptyRectangles_Forall|].
    simpl. intros r [Ha Hh]. split; [exact Ha|lia].
Qed.

End RegionOrderFacts.

(** ** Empty-region finder: the occupancy grid *)

Section GridFacts.
Import JsNum Regions RasterSpec.

Lemma ceil_div_5 (n : Z) : 5 * ceil_div n 5 - 5 < n <= 5 * ceil_div n 5.
Proof.
  unfold ceil_div.
  pose proof (Z.div_mod (- n) 5 ltac:(lia)) as Hd.
  pose proof (Z.mod_pos_bound (- n) 5 ltac:(lia)) as Hm. lia.
Qed.

Lemma floor_div_5 (n : Z) : 5 * (n / 5) <= n < 5 * (n / 5) + 5.
Proof.
  pose proof (Z.div_mod n 5 ltac:(lia)) as Hd.
  pose proof (Z.mod_pos_bound n 5 ltac:(lia)) as Hm. lia.
Qed.

Lemma cell_index_inj (gw gy gx gy' gx' : Z) :
  0 <= gx < gw -> 0 <= gx' < gw ->
  gy * gw + gx = gy' * gw + gx' -> gy = gy' /\ gx = gx'.
Proof.
  intros Hx Hx' Heq.
  assert (gy = gy') as -> by nia. split; [reflexivity|lia].
Qed.

Lemma occupied_replicate (n : nat) (i : Z) : occupied (replicate n 0) i = false.
Proof.
  unfold occupied.
  destruct (replicate n 0 !! Z.to_nat i) as [v|] eqn:Hv; [|reflexivity].
  apply lookup_replicate in Hv as [-> _]. reflexivity.
Qed.

Lemma occupied_insert (g : list Z) (j : nat) (i : Z) :
  occupied (<[j:=1]> g) i
  = occupied g i || ((Z.to_nat i =? j)%nat && (j <? List.length g)%nat).
Proof.
  unfold occupied.
  destruct (Nat.eqb_spec (Z.to_nat i) j) as [->|Hne].
  - destruct (Nat.ltb_spec j (List.length g)) as [Hlt|Hge].
    + rewrite list_lookup_insert_eq by exact Hlt. simpl. rewrite orb_true_r. reflexivity.
    + rewrite list_insert_ge by exact Hge. rewrite orb_false_r. reflexivity.
  - rewrite list_lookup_insert_ne by congruence. rewrite orb_false_r. reflexivity.
Qed.

Lemma markPixel_eq (img : Raster) (gridWidth : Z) (g : list Z) (y x : Z) :
  markPixel (data img) (info_width img) gridWidth g y x
  = if isDark (pixelAt img x y) then <[cellOf gridWidth x y := 1]> g else g.
Proof.
  unfold markPixel, pixelAt, isDark, cellOf.
  destruct (data img !! Z.to_nat (y * info_width img + x)); reflexivity.
Qed.

Lemma markPixel_length (img : Raster) (gridWidth : Z) (g : list Z) (y x : Z) :
  List.length (markPixel (data img) (info_width img) gridWidth g y x)
  = List.length g.
Proof.
  rewrite markPixel_eq. destruct (isDark _); [apply length_insert|reflexivity].
Qed.

(** A cell is occupied after the pixels [xs] of the row [y] are read iff it
    was occupied before or one of these pixels is dark and lies in it. *)
Lemma occupied_markRow (img : Raster) (gridWidth y : Z) (xs : list Z)
    (g : list Z) (i : Z) :
  occupied
    (foldl (fun g x => markPixel (data img) (info_width img) gridWidth g y x) g xs) i
  = occupied g i ||
    (existsb (fun x => isDark (pixelAt img x y) &&
                       (Z.to_nat i =? cellOf gridWidth x y)%nat) xs
     && (Z.to_nat i <? List.length g)%nat).
Proof.
  revert g. induction xs as [|x xs IH]; intros g; simpl.
  - rewrite orb_false_r. reflexivity.
  - rewrite IH, markPixel_length, markPixel_eq.
    destruct (isDark (pixelAt img x y)); simpl; [|reflexivity].
    rewrite occupied_insert.
    destruct (Nat.eqb_spec (Z.to_nat i) (cellOf gridWidth x y)) as [->|]; simpl.
    + destruct (occupied g i); simpl; [reflexivity|].
      destruct (_ <? _)%nat; simpl; [reflexivity|].
      rewrite andb_false_r. reflexivity.
    + rewrite orb_false_r. reflexivity.
Qed.

Lemma markRow_length (img : Raster) (gridWidth y : Z) (g : list Z) :
  List.length (markRow (data img) (info_width img) gridWidth g y) = List.length g.
Proof.
  unfold markRow. generalize (seqZ 0 (info_width img)). intros xs.
  revert g. induction xs as [|x xs IH]; intros g; simpl; [reflexivity|].
  rewrite IH. apply markPixel_length.
Qed.

Lemma occupied_markRows (img : Raster) (gridWidth : Z) (ys : list Z)
    (g : list Z) (i : Z) :
  occupied (foldl (markRow (data img) (info_width img) gridWidth) g ys) i
  = occupied g i ||
    (darkIn img gridWidth ys i && (Z.to_nat i <? List.length g)%nat).
Proof.
  unfold darkIn.
  revert g. induction ys as [|y ys IH]; intros g; simpl.
  - rewrite orb_false_r. reflexivity.
  - rewrite IH, markRow_length. unfold markRow. rewrite occupied_markRow.
    destruct (occupied g i); simpl; [reflexivity|].
    destruct (_ <? _)%nat; simpl.
    + rewrite !andb_true_r. reflexivity.
    + rewrite !andb_false_r. reflexivity.
Qed.

Lemma occupied_gridOf (img : Raster) (i : Z) :
  occupied (gridOf img) i
  = darkIn img (ceil_div (info_width img) cellSize)
           (seqZ 0 (info_height img)) i
    && (Z.to_nat i <? Z.to_nat (ceil_div (info_width img) cellSize
                                * ceil_div (info_height img) cellSize))%nat.
Proof.
  unfold gridOf, markCells. cbv zeta.
  rewrite occupied_markRows, occupied_replicate, length_replicate. reflexivity.
Qed.

End GridFacts.

Section ScanFacts.
Import JsNum Regions RasterSpec.

Lemma cell_column_bound (w x : Z) :
  0 <= x < w -> 0 <= x / cellSize < ceil_div w cellSize.
Proof.
  unfold cellSize. intros Hx.
  pose proof (floor_div_5 x). pose proof (ceil_div_5 w). lia.
Qed.

(** A grid row is empty when no pixel of its five pixel rows is dark. *)
Lemma isRowEmpty_true (img : Raster) (gy : Z) :
  0 <= gy ->
  (forall x y, 0 <= x < info_width img -> 0 <= y < info_height img ->
               y / cellSize = gy -> isDark (pixelAt img x y) = false) ->
  isRowEmpty (gridOf img) (ceil_div (info_width img) cellSize) gy = true.
Proof.
  intros Hgy Hwhite. unfold isRowEmpty. apply forallb_forall.
  intros gx Hgx. apply list_elem_of_In, elem_of_seqZ in Hgx.
  apply negb_true_iff. rewrite occupied_gridOf.
  apply andb_false_iff. left. apply not_true_is_false. intros Hd.
  unfold darkIn in Hd.
  apply existsb_exists in Hd as (y & Hy & Hd).
  apply existsb_exists in Hd as (x & Hx & Hd).
  apply list_elem_of_In, elem_of_seqZ in Hy.
  apply list_elem_of_In, elem_of_seqZ in Hx.
  apply andb_true_iff in Hd as [Hdark Hcell].
  apply Nat.eqb_eq in Hcell. unfold cellOf in Hcell.
  pose proof (cell_column_bound (info_width img) x ltac:(lia)) as Hc.
  assert (0 <= y / cellSize) by (apply Z.div_pos; unfold cellSize; lia).
  assert (Heq : gy * ceil_div (info_width img) cellSize + gx
                = y / cellSize * ceil_div (info_width img) cellSize + x / cellSize)
    by nia.
  apply cell_index_inj in Heq as [Heq _]; [|lia|lia].
  rewrite (Hwhite x y) in Hdark; [discriminate|lia|lia|congruence].
Qed.

(** A grid row is not empty when one pixel of its pixel rows is dark. *)
Lemma isRowEmpty_false (img : Raster) (x y : Z) :
  0 <= x < info_width img -> 0 <= y < info_height img ->
  isDark (pixelAt img x y) = true ->
  isRowEmpty (gridOf img) (ceil_div (info_width img) cellSize) (y / cellSize)
  = false.
Proof.
  intros Hx Hy Hdark. apply not_true_is_false. intros He.
  unfold isRowEmpty in He. rewrite forallb_forall in He.
  pose proof (cell_column_bound (info_width img) x Hx) as Hc.
  pose proof (cell_column_bound (info_height img) y Hy) as Hr.
  specialize (He (x / cellSize)).
  rewrite <- list_elem_of_In, elem_of_seqZ in He. specialize (He ltac:(lia)).
  apply negb_true_iff in He. rewrite occupied_gridOf in He.
  apply andb_false_iff in He as [He|He].
  - apply not_true_iff_false in He. apply He. unfold darkIn.
    apply existsb_exists. exists y. split.
    { apply list_elem_of_In, elem_of_seqZ. lia. }
    apply existsb_exists. exists x. split.
    { apply list_elem_of_In, elem_of_seqZ. lia. }
    rewrite Hdark. simpl. apply Nat.eqb_eq. reflexivity.
  - apply Nat.ltb_ge in He. nia.
Qed.

Section Scan.
Variables (grid : list Z) (gridWidth width minHeight : Z).

Lemma scan_empty_rows (ys : list Z) (s : Scan) :
  0 <= currentEmptyHeight s ->
  (forall y, In y ys -> isRowEmpty grid gridWidth y = true) ->
  foldl (scanRow grid gridWidth width minHeight) s ys
  = mkScan (currentEmptyHeight s + Z.of_nat (List.length ys))
           (if currentEmptyHeight s =? 0 then List.hd (startY s) ys else startY s)
           (regions s).
Proof.
  revert s. induction ys as [|y ys IH]; intros s Hs Hys.
  - destruct s; simpl. rewrite Z.add_0_r. destruct (_ =? _); reflexivity.
  - cbn [foldl]. unfold scanRow at 2. rewrite (Hys y) by (left; reflexivity).
    rewrite IH; [|simpl; lia|intros; apply Hys; right; assumption].
    cbn [currentEmptyHeight startY regions List.hd List.length].
    destruct (Z.eqb_spec (currentEmptyHeight s + 1) 0); [lia|].
    f_equal. lia.
Qed.

Lemma scan_occupied_rows_idle (ys : list Z) (startY : Z) (rs : list Region.t) :
  0 < ceil_div minHeight cellSize ->
  (forall y, In y ys -> isRowEmpty grid gridWidth y = false) ->
  foldl (scanRow grid gridWidth width minHeight) (mkScan 0 startY rs) ys
  = mkScan 0 startY rs.
Proof.
  intros Hmin. induction ys as [|y ys IH]; intros Hys; [reflexivity|].
  cbn [foldl]. unfold scanRow at 2. rewrite (Hys y) by (left; reflexivity).
  unfold pushRun. cbn [currentEmptyHeight Regions.startY regions].
  destruct (Z.geb_spec 0 (ceil_div minHeight cellSize)); [lia|].
  apply IH. intros; apply Hys; right; assumption.
Qed.

Lemma scan_occupied_rows (y : Z) (ys : list Z) (s : Scan) :
  0 < ceil_div minHeight cellSize ->
  (forall y', In y' (y :: ys) -> isRowEmpty grid gridWidth y' = false) ->
  foldl (scanRow grid gridWidth width minHeight) s (y :: ys)
  = mkScan 0 (startY s) (pushRun width minHeight s).
Proof.
  intros Hmin Hys. cbn [foldl]. unfold scanRow at 2.
  rewrite (Hys y) by (left; reflexivity).
  apply scan_occupied_rows_idle; [exact Hmin|].
  intros; apply Hys; right; assumption.
Qed.

End Scan.

Lemma ceil_div_mono (a b : Z) : a <= b -> ceil_div a cellSize <= ceil_div b cellSize.
Proof.
  unfold cellSize. intros Hab.
  pose proof (ceil_div_5 a). pose proof (ceil_div_5 b). lia.
Qed.

Lemma allWhite_not_dark (img : Raster) (x y : Z) :
  allWhite img -> isDark (pixelAt img x y) = false.
Proof.
  unfold allWhite, pixelAt, isDark. intros Hw.
  destruct (data img !! _) as [p|] eqn:Hp; [|reflexivity].
  rewrite Forall_forall in Hw.
  specialize (Hw p (list_elem_of_lookup_2 _ _ _ Hp)). lia.
Qed.

Lemma seqZ_hd (n d : Z) : List.hd d (seqZ 0 n) = if 0 <? n then 0 else d.
Proof.
  destruct (Z.ltb_spec 0 n).
  - rewrite (seqZ_cons 0 n) by lia. reflexivity.
  - rewrite seqZ_nil by lia. reflexivity.
Qed.

(** C5: for an all-white raster of [W] by [H] pixels with
    [H >= minHeight], [findEmptyRegions] returns exactly one rectangle: it
    starts at [(0, 0)], has the full width [W], and its height is [H]
    rounded up to the next multiple of the cell size (5 pixels). *)
Theorem findEmptyRegions_all_white
    (img : Raster) (minWidth minHeight : Z) :
  0 <= info_width img -> 0 <= info_height img ->
  allWhite img ->
  minHeight <= info_height img ->
  let W := info_width img in
  let H := info_height img in
  let h := ceil_div H cellSize * cellSize in
  findEmptyRegions img minWidth minHeight
  = [Rectangle.mk "rectangle" 0 0 W h "blue" 1 (W * h)] /\
  H <= h < H + cellSize.
Proof.
  intros HW HH Hwhite Hmin. cbv zeta.
  pose proof (ceil_div_5 (info_height img)) as Hh.
  pose proof (ceil_div_mono minHeight (info_height img) Hmin) as Hm.
  split; [|unfold cellSize; lia].
  unfold findEmptyRegions, findEmptyRegions_with, emptyRectangles.
  fold (gridOf img). cbv zeta. unfold scanRows.
  rewrite scan_empty_rows.
  2: { simpl. lia. }
  2: { intros gy Hgy. apply list_elem_of_In, elem_of_seqZ in Hgy.
       apply isRowEmpty_true; [lia|].
       intros; apply allWhite_not_dark; assumption. }
  cbn [currentEmptyHeight startY regions]. rewrite length_seqZ.
  rewrite seqZ_hd. change (0 =? 0) with true. cbv iota.
  replace (if 0 <? ceil_div (info_height img) cellSize then 0 else 0) with 0
    by (destruct (_ <? _); reflexivity).
  replace (0 + Z.of_nat (Z.to_nat (ceil_div (info_height img) cellSize)))
    with (ceil_div (info_height img) cellSize) by (unfold cellSize; lia).
  unfold pushRun. cbn [currentEmptyHeight startY regions].
  destruct (Z.geb_spec (ceil_div (info_height img) cellSize)
                       (ceil_div minHeight cellSize)); [|lia].
  cbn [app]. unfold mergeRegions. cbn [foldl mergeStep fst snd app].
  cbn [List.filter Region.height].
  destruct (Z.geb_spec (ceil_div (info_height img) cellSize * cellSize) minHeight).
  2: { exfalso. unfold cellSize in *. lia. }
  reflexivity.
Qed.

End ScanFacts.

Section BandFacts.
Import JsNum Regions RasterSpec.

Lemma bandRaster_isDark (img : Raster) (y1 y2 x y : Z) :
  bandRaster img y1 y2 = true ->
  0 <= x < info_width img -> 0 <= y < info_height img ->
  isDark (pixelAt img x y) = (y1 <=? y) && (y <? y2).
Proof.
  unfold bandRaster. intros Hb Hx Hy.
  rewrite forallb_forall in Hb. specialize (Hb y).
  rewrite <- list_elem_of_In, elem_of_seqZ in Hb. specialize (Hb ltac:(lia)).
  rewrite forallb_forall in Hb. specialize (Hb x).
  rewrite <- list_elem_of_In, elem_of_seqZ in Hb. specialize (Hb ltac:(lia)).
  destruct (pixelAt img x y) as [p|]; [|discriminate]. simpl.
  destruct ((y1 <=? y) && (y <? y2)); [exact Hb|].
  apply Z.ltb_ge. apply Z.leb_le. exact Hb.
Qed.

(** C6 (amended): for a white raster with one dark band over its full
    width on the pixel rows [y1 <= y < y2], when [minHeight] is a positive
    multiple of the cell size (as the default 30 is), the band is at least
    [4 * cellSize] high and the white bands above and below it are at
    least [minHeight] high, [findEmptyRegions] returns exactly two
    rectangles, not merged: the band above, cut down to whole grid rows,
    and the band below, widened to whole grid rows; the one of larger area
    comes first.  The merge loop joins two regions exactly when the gap
    between them is below [4 * cellSize] pixels. *)
Theorem findEmptyRegions_dark_band
    (img : Raster) (minWidth minHeight y1 y2 : Z) :
  0 < info_width img ->
  bandRaster img y1 y2 = true ->
  0 < minHeight -> minHeight mod cellSize = 0 ->
  minHeight <= y1 ->
  4 * cellSize <= y2 - y1 ->
  minHeight <= info_height img - y2 ->
  let W := info_width img in
  let rows := ceil_div (info_height img) cellSize - ceil_div y2 cellSize in
  let top :=
    Rectangle.mk "rectangle" 0 0 W (y1 / cellSize * cellSize) "blue" 1
                 (W * (y1 / cellSize * cellSize)) in
  let bottom :=
    Rectangle.mk "rectangle" 0 (ceil_div y2 cellSize * cellSize) W
                 (rows * cellSize) "blue" 1 (W * (rows * cellSize)) in
  findEmptyRegions img minWidth minHeight
  = (if Rectangle.area bottom <=? Rectangle.area top
     then [top; bottom] else [bottom; top]) /\
  forall r1 r2 : Region.t,
    mergeRegions [r1; r2]
    = if Region.y r2 - (Region.y r1 + Region.height r1) <? 4 * cellSize
      then [Region.mk (Region.x r1) (Region.y r1) (Region.width r1)
                      (Region.y r2 + Region.height r2 - Region.y r1)]
      else [r1; r2].
Proof.
  intros HW Hband Hmin Hmod Htop Hgap Hbot. cbv zeta.
  split; [|intros r1 r2; unfold mergeRegions; cbn [foldl mergeStep fst snd];
           change (cellSize * 4) with (4 * cellSize);
           destruct (_ <? _); reflexivity].
  set (a := y1 / cellSize). set (b := ceil_div y2 cellSize).
  set (gh := ceil_div (info_height img) cellSize).
  set (k := ceil_div minHeight cellSize).
  pose proof (floor_div_5 y1) as Ha. fold cellSize in Ha. fold a in Ha.
  pose proof (ceil_div_5 y2) as Hb. fold cellSize in Hb. fold b in Hb.
  pose proof (ceil_div_5 (info_height img)) as Hgh.
  fold cellSize in Hgh. fold gh in Hgh.
  pose proof (ceil_div_5 minHeight) as Hk. fold cellSize in Hk. fold k in Hk.
  pose proof (Z.div_mod minHeight cellSize ltac:(unfold cellSize; lia)) as Hdm.
  rewrite Hmod in Hdm.
  assert (Hka : 0 < k <= a) by (unfold cellSize in *; lia).
  assert (Hab : a < b) by (unfold cellSize in *; lia).
  assert (Hbg : b + k <= gh) by (unfold cellSize in *; lia).
  assert (Hdark : forall x y, 0 <= x < info_width img ->
                              0 <= y < info_height img ->
                              isDark (pixelAt img x y) = (y1 <=? y) && (y <? y2))
    by (intros; eapply bandRaster_isDark; eassumption).
  set (gw := ceil_div (info_width img) cellSize).
  assert (Hempty : forall gy, 0 <= gy < gh -> gy < a \/ b <= gy ->
                              isRowEmpty (gridOf img) gw gy = true).
  { intros gy Hgy Hout. apply isRowEmpty_true; [lia|].
    intros x y Hx Hy Hdiv. rewrite Hdark by assumption.
    pose proof (floor_div_5 y) as Hfy. fold cellSize in Hfy. rewrite Hdiv in Hfy.
    apply andb_false_iff.
    destruct Hout; [left; apply Z.leb_gt|right; apply Z.ltb_ge];
      unfold cellSize in *; lia. }
  assert (Hfull : forall gy, a <= gy < b ->
                             isRowEmpty (gridOf img) gw gy = false).
  { intros gy Hgy.
    assert (Hy : Z.max (cellSize * gy) y1 / cellSize = gy).
    { symmetry.
      apply Z.div_unique with (r := Z.max (cellSize * gy) y1 - cellSize * gy);
        unfold cellSize in *; lia. }
    rewrite <- Hy.
    apply (isRowEmpty_false img 0 (Z.max (cellSize * gy) y1)).
    - lia.
    - unfold cellSize in *; lia.
    - rewrite Hdark by (unfold cellSize in *; lia).
      apply andb_true_iff. split; [apply Z.leb_le|apply Z.ltb_lt];
        unfold cellSize in *; lia. }
  unfold findEmptyRegions, findEmptyRegions_with, emptyRectangles.
  fold (gridOf img). cbv zeta. fold gw gh. unfold scanRows.
  replace gh with (a + ((b - a) + (gh - b))) at 1 by lia.
  rewrite seqZ_app by lia. rewrite seqZ_app by lia.
  rewrite !foldl_app.
  rewrite (scan_empty_rows _ _ _ _ (seqZ 0 a) (mkScan 0 0 [])).
  2: { simpl. lia. }
  2: { intros gy Hgy. apply list_elem_of_In, elem_of_seqZ in Hgy.
       apply Hempty; lia. }
  rewrite length_seqZ, seqZ_hd. cbn [currentEmptyHeight startY regions].
  change (0 =? 0) with true. cbv iota.
  replace (if 0 <? a then 0 else 0) with 0 by (destruct (_ <? _); reflexivity).
  replace (0 + Z.of_nat (Z.to_nat a)) with a by lia.
  rewrite (seqZ_cons (0 + a) (b - a)) by lia.
  rewrite (scan_occupied_rows _ _ _ _ (0 + a)).
  2: { fold k. lia. }
  2: { intros gy Hgy. rewrite <- seqZ_cons in Hgy by lia.
       apply list_elem_of_In, elem_of_seqZ in Hgy. apply Hfull. lia. }
  unfold pushRun at 2. cbn [currentEmptyHeight startY regions]. fold k.
  destruct (Z.geb_spec a k); [|lia]. cbn [app].
  rewrite scan_empty_rows.
  2: { simpl. lia. }
  2: { intros gy Hgy. apply list_elem_of_In, elem_of_seqZ in Hgy.
       apply Hempty; lia. }
  rewrite length_seqZ. cbn [currentEmptyHeight startY regions].
  change (0 =? 0) with true. cbv iota.
  rewrite (seqZ_cons (0 + a + (b - a)) (gh - b)) by lia. cbn [List.hd].
  replace (0 + Z.of_nat (Z.to_nat (gh - b))) with (gh - b) by lia.
  replace (0 + a + (b - a)) with b by lia.
  unfold pushRun. cbn [currentEmptyHeight startY regions]. fold k.
  destruct (Z.geb_spec (gh - b) k); [|lia]. cbn [app].
  unfold mergeRegions. cbn [foldl mergeStep fst snd app Region.y Region.height].
  destruct (Z.ltb_spec (b * cellSize - (0 * cellSize + a * cellSize)) (cellSize * 4)).
  { exfalso. unfold cellSize in *. lia. }
  cbn [fst snd app List.filter Region.height].
  destruct (Z.geb_spec (a * cellSize) minHeight).
  2: { exfalso. unfold cellSize in *. lia. }
  destruct (Z.geb_spec ((gh - b) * cellSize) minHeight).
  2: { exfalso. unfold cellSize in *. lia. }
  unfold sortBy, toRectangle.
  cbn [fmap list_fmap foldr insertBy
       Region.x Region.y Region.width Region.height].
  unfold byAreaDesc. cbn [Rectangle.area].
  replace (0 * cellSize) with 0 by reflexivity.
  generalize (info_width img * ((gh - b) * cellSize)).
  generalize (info_width img * (a * cellSize)). intros areaTop areaBottom.
  destruct (Z.leb_spec (areaBottom - areaTop) 0);
    destruct (Z.leb_spec areaBottom areaTop);
    try reflexivity; exfalso; lia.
Qed.

End BandFacts.

(** ** Empty-region finder: instances *)

Section RegionInstances.
Import JsNum Regions RasterSpec.

Lemma findEmptyRegions_all_white_witness :
  findEmptyRegions (makeBand 7 33 0 0) default_minWidth default_minHeight
  = [Rectangle.mk "rectangle" 0 0 7 35 "blue" 1 245] /\
  33 <= 35 < 33 + 5.
Proof.
  refine (findEmptyRegions_all_white (makeBand 7 33 0 0)
            default_minWidth default_minHeight _ _ _ _).
  - simpl. lia.
  - simpl. lia.
  - unfold allWhite. apply (bool_decide_unpack _). vm_compute. exact I.
  - unfold default_minHeight. simpl. lia.
Defined.

Lemma findEmptyRegions_dark_band_witness :
  findEmptyRegions (makeBand 3 100 33 58) default_minWidth default_minHeight
  = [Rectangle.mk "rectangle" 0 60 3 40 "blue" 1 120;
     Rectangle.mk "rectangle" 0 0 3 30 "blue" 1 90].
Proof.
  refine (proj1 (findEmptyRegions_dark_band (makeBand 3 100 33 58)
                   default_minWidth default_minHeight 33 58 _ _ _ _ _ _ _)).
  - simpl. lia.
  - vm_compute. reflexivity.
  - unfold default_minHeight. lia.
  - reflexivity.
  - unfold default_minHeight. lia.
  - unfold cellSize. lia.
  - unfold default_minHeight. simpl. lia.
Defined.

(** A dark band of 8 rows leaves a gap of 10 pixels between the two runs
    of empty grid rows: they are merged into one region. *)
Example findEmptyRegions_thin_band_merged :
  findEmptyRegions (makeBand 2 100 30 38) 100 30
  = [Rectangle.mk "rectangle" 0 0 2 100 "blue" 1 200].
Proof. vm_compute. reflexivity. Qed.

(** C6 (as stated) fails for a [minHeight] that is not a multiple of the
    cell size: with [minHeight = 32], a raster of 90 rows whose rows
    33..52 are dark has a white band of 33 rows above the dark band (of 20
    rows) and one of 37 rows below it, but only one rectangle is returned:
    the band above holds 6 whole grid rows, fewer than
    [Math.ceil(32 / 5) = 7]. *)
Lemma findEmptyRegions_dark_band_minHeight_32 :
  bandRaster (makeBand 1 90 33 53) 33 53 = true /\
  32 <= 33 /\ 4 * cellSize <= 53 - 33 /\ 32 <= 90 - 53 /\
  findEmptyRegions (makeBand 1 90 33 53) 100 32
  = [Rectangle.mk "rectangle" 0 55 1 35 "blue" 1 35].
Proof. vm_compute. repeat split; congruence. Qed.

End RegionInstances.

(** ** Font-size solver *)

Section FontSizeFacts.
Import JsNum JsString TextWidth FontSize Samples FontSizeSpec.

Lemma foldM_inr {A S} (f : S -> A -> Exc.t S) (l : list A) (s : S) :
  (forall s a, In a l -> exists s', f s a = inr s') ->
  exists s', Exc.foldM f l s = inr s'.
Proof.
  revert s. induction l as [|a l IH]; intros s Hf; simpl.
  - eexists. reflexivity.
  - destruct (Hf s a (or_introl eq_refl)) as [s1 ->]. simpl.
    apply IH. intros s2 b Hb. apply Hf. right. exact Hb.
Qed.

Lemma foldM_inl {A S} (f : S -> A -> Exc.t S) (l : list A) (s : S) :
  (exists a, In a l /\ forall s, exists e, f s a = inl e) ->
  exists e, Exc.foldM f l s = inl e.
Proof.
  revert s. induction l as [|a l IH]; intros s (b & Hb & Hf); simpl.
  - destruct Hb.
  - destruct (f s a) as [e|s1] eqn:Hfa; simpl; [eauto|].
    destruct Hb as [->|Hb].
    + destruct (Hf s) as [e He]. congruence.
    + apply IH. eauto.
Qed.

(** The counting pass throws exactly when a paragraph lacks its text or
    its bold segments. *)
Lemma countChars_inr (paragraphs : list Paragraph.t) :
  Forall wellFormed paragraphs -> exists counts, countChars paragraphs = inr counts.
Proof.
  intros Hwf. apply foldM_inr. intros acc para Hin.
  rewrite Forall_forall in Hwf.
  destruct (Hwf para (proj2 (list_elem_of_In _ _) Hin)) as [[t Ht] [b Hb]].
  rewrite Ht, Hb. simpl. eexists. reflexivity.
Qed.

Lemma countChars_inl (paragraphs : list Paragraph.t) :
  ~ Forall wellFormed paragraphs -> exists e, countChars paragraphs = inl e.
Proof.
  intros Hwf. apply foldM_inl.
  assert (Hdec : forall p, Decision (wellFormed p))
    by (intros p; unfold wellFormed; apply _).
  apply (not_Forall_Exists _), Exists_exists in Hwf as (para & Hin & Hbad).
  exists para. split; [apply list_elem_of_In; exact Hin|].
  intros acc. unfold wellFormed in Hbad.
  destruct (Paragraph.text para) as [t|] eqn:Ht; simpl; [|eauto].
  destruct (Paragraph.boldSegments para) as [b|] eqn:Hb; simpl; [|eauto].
  exfalso. apply Hbad. split; [rewrite Ht|rewrite Hb]; eauto.
Qed.

Lemma trialAt_inr (effectiveWidth effectiveHeight : float)
    (paragraphs : list Paragraph.t) (fontSize : Z) :
  Forall wellFormed paragraphs ->
  exists tr, trialAt effectiveWidth effectiveHeight paragraphs fontSize = inr tr.
Proof.
  intros Hwf. unfold trialAt, runTrial.
  match goal with |- context [Exc.foldM ?f ?l ?s] =>
    destruct (foldM_inr f l s) as [st Hst] end.
  - intros st para Hin. rewrite Forall_forall in Hwf.
    destruct (Hwf para (proj2 (list_elem_of_In _ _) Hin)) as [[t Ht] [b Hb]].
    unfold trialParagraph. rewrite Ht, Hb. simpl.
    destruct (nonEmpty t); simpl; destruct (wrapChars _ _ _ _ _ _ _ _ _);
      eexists; reflexivity.
  - rewrite Hst. simpl. eexists. reflexivity.
Qed.







End FontSizeFacts.

Section FontSizeClaims.
Import JsNum JsString TextWidth FontSize Samples FontSizeSpec.

(** The search does not throw on well-formed input, and throws exactly
    when the region is undefined or a paragraph lacks a property. *)
Lemma fontSizeSearch_inr (r : Region.t) (paragraphs : list Paragraph.t) :
  Forall wellFormed paragraphs ->
  exists s, fontSizeSearch (Some r) paragraphs = inr s.
Proof.
  intros Hwf. unfold fontSizeSearch. cbn [Exc.prop_of Exc.ret Exc.bind].
  destruct (countChars_inr paragraphs Hwf) as [counts ->].
  cbn [Exc.prop_of Exc.ret Exc.bind].
  generalize (mkSearch 14 72
                (initialSizeOf r paragraphs (fst counts) (snd counts)) [] 0).
  generalize (Z.to_nat maxIterations).
  intros fuel. induction fuel as [|fuel IH]; intros st; simpl; [eauto|].
  destruct ((minSize st <=? maxSize st) && (iterations st <? maxIterations));
    [|eauto].
  unfold searchStep.
  destruct (trialAt_inr (effectiveWidthOf r) (effectiveHeightOf r) paragraphs
              ((minSize st + maxSize st) / 2) Hwf) as [tr ->].
  simpl. apply IH.
Qed.

Lemma fontSizeSearch_inl (region : option Region.t)
    (paragraphs : list Paragraph.t) :
  region = None \/ ~ Forall wellFormed paragraphs ->
  exists e, fontSizeSearch region paragraphs = inl e.
Proof.
  intros Hbad. unfold fontSizeSearch.
  destruct region as [r|]; simpl; [|eauto].
  destruct Hbad as [Hbad|Hbad]; [discriminate|].
  destruct (countChars_inl paragraphs Hbad) as [e ->]. simpl. eauto.
Qed.

(** C8: if the computation of the [try] block throws,
    [calculateOptimalFontSize] returns exactly the fallback
    [{normalFontSize: 20, boldFontSize: 22, lineSpacingRatio: 1.2,
      estimatedLines: paragraphs.length}]: the error does not propagate. *)
Theorem calculateOptimalFontSize_fallback
    (imageBuffer : Cache.Buffer) (region : option Region.t) (text : string)
    (paragraphs : list Paragraph.t) (e : Exc.error) :
  fontSizeSearch region paragraphs = inl e ->
  calculateOptimalFontSize imageBuffer region text paragraphs
  = FontPlan.mk 20 22 1.2 (Z.of_nat (List.length paragraphs)).
Proof.
  intros Hthrow. unfold calculateOptimalFontSize. rewrite Hthrow. reflexivity.
Qed.

Lemma calculateOptimalFontSize_fallback_witness :
  calculateOptimalFontSize [] (Some (Region.mk 0 0 1200 800)) "ab"
    [plain "a"; withoutBold "b"]
  = FontPlan.mk 20 22 1.2 2.
Proof.
  exact (calculateOptimalFontSize_fallback [] (Some (Region.mk 0 0 1200 800))
           "ab" [plain "a"; withoutBold "b"]
           (Exc.TypeError "Cannot read properties of undefined: forEach")
           eq_refl).
Defined.



(** A text that fits: for ["Sale now"] in a region of 300 by 100 pixels the
    trial at 43 fits, six trials are run and the size returned is 61, the
    largest size that fitted. *)
Example calculateOptimalFontSize_fitting :
  existsb (fitsAt (Region.mk 0 0 300 100) [plain "Sale now"]) descent = true /\
  fontSizeSearch (Some (Region.mk 0 0 300 100)) [plain "Sale now"]
  = inr (mkSearch 62 61 61 ["Sale now"] 6) /\
  calculateOptimalFontSize [] (Some (Region.mk 0 0 300 100)) "Sale now"
    [plain "Sale now"]
  = FontPlan.mk 61 (61 * 1.1) 1.2 1.
Proof. vm_compute. repeat split; reflexivity. Qed.

End FontSizeClaims.

(** ** Compositor markup: escaping *)

Section EscapeFacts.
Import JsString Svg SvgSpec.

Local Infix "+:+" := String.append (at level 60, right associativity).

Lemma append_assoc (a b c : string) : (a +:+ b) +:+ c = a +:+ (b +:+ c).
Proof. induction a as [|x a IH]; simpl; [reflexivity|]. rewrite IH. reflexivity. Qed.

Lemma replaceAll_append (c : ascii) (by_ a b : string) :
  replaceAll c by_ (a +:+ b) = replaceAll c by_ a +:+ replaceAll c by_ b.
Proof.
  induction a as [|x a IH]; simpl; [reflexivity|].
  destruct (Ascii.eqb x c); rewrite IH; [rewrite append_assoc|]; reflexivity.
Qed.

Lemma escapeXml_append (a b : string) :
  escapeXml (a +:+ b) = escapeXml a +:+ escapeXml b.
Proof. unfold escapeXml. rewrite !replaceAll_append. reflexivity. Qed.

Lemma escapeXml_char (c : ascii) :
  escapeXml (String c EmptyString) = escapeChar c.
Proof. destruct c as [[] [] [] [] [] [] [] []]; reflexivity. Qed.

(** The chain of five replacements writes, for each character of the
    input, its entity; the ampersands of the entities written first are
    not escaped again, as [&] is replaced first. *)
Lemma escapeXml_escapeEach (s : string) : escapeXml s = escapeEach s.
Proof.
  induction s as [|c s IH]; [reflexivity|].
  change (String c s) with (String c EmptyString +:+ s).
  rewrite escapeXml_append, escapeXml_char, IH. reflexivity.
Qed.

Lemma count_append (c : ascii) (a b : string) :
  count c (a +:+ b) = (count c a + count c b)%nat.
Proof. induction a as [|x a IH]; simpl; [reflexivity|]. rewrite IH. lia. Qed.

Lemma count_escapeChar_markup (c a : ascii) :
  isMarkup c = true -> count c (escapeChar a) = O.
Proof.
  unfold isMarkup. intros Hc.
  repeat (apply orb_true_iff in Hc as [Hc|Hc]);
    apply Ascii.eqb_eq in Hc; subst c;
    destruct a as [[] [] [] [] [] [] [] []]; reflexivity.
Qed.

Lemma count_escapeChar_amp (a : ascii) :
  count "&" (escapeChar a) = if isMeta a then 1%nat else O.
Proof. destruct a as [[] [] [] [] [] [] [] []]; reflexivity. Qed.

(** Escaped text holds none of [<], [>] and the quotes. *)
Lemma count_escapeXml_markup (c : ascii) (s : string) :
  isMarkup c = true -> count c (escapeXml s) = O.
Proof.
  intros Hc. rewrite escapeXml_escapeEach.
  induction s as [|a s IH]; [reflexivity|]. simpl.
  rewrite count_append, IH, count_escapeChar_markup by exact Hc. reflexivity.
Qed.

(** Escaped text holds one ampersand for each metacharacter of the
    input. *)
Lemma count_escapeXml_amp (s : string) :
  count "&" (escapeXml s) = countMeta s.
Proof.
  rewrite escapeXml_escapeEach.
  induction s as [|a s IH]; [reflexivity|]. simpl.
  rewrite count_append, IH, count_escapeChar_amp. reflexivity.
Qed.

Lemma prefix_empty (s : string) : String.prefix EmptyString s = true.
Proof. destruct s; reflexivity. Qed.

Lemma wellEscaped_escapeChar (a : ascii) (rest : string) :
  wellEscaped (escapeChar a +:+ rest) = wellEscaped rest.
Proof.
  destruct a as [[] [] [] [] [] [] [] []]; cbn;
    rewrite ?prefix_empty; cbn;
    try reflexivity; destruct (wellEscaped rest); reflexivity.
Qed.

(** In escaped text every ampersand opens one of the five entities. *)
Lemma wellEscaped_escapeXml (s : string) : wellEscaped (escapeXml s) = true.
Proof.
  rewrite escapeXml_escapeEach.
  induction s as [|a s IH]; [reflexivity|]. simpl.
  rewrite wellEscaped_escapeChar. exact IH.
Qed.

End EscapeFacts.

Section UnescapeFacts.
Import JsString Svg SvgSpec.

Local Infix "+:+" := String.append (at level 60, right associativity).

Lemma substring_all (s : string) : String.substring 0 (String.length s) s = s.
Proof. induction s as [|c s IH]; simpl; [reflexivity|]. rewrite IH. reflexivity. Qed.

Lemma length_append (a b : string) :
  String.length (a +:+ b) = (String.length a + String.length b)%nat.
Proof. induction a as [|x a IH]; simpl; [reflexivity|]. rewrite IH. reflexivity. Qed.

Lemma unescapeXml_go_escapeEach (s : string) :
  forall fuel, (String.length (escapeEach s) <= fuel)%nat ->
               unescapeXml_go fuel (escapeEach s) = s.
Proof.
  induction s as [|a s IH]; intros fuel Hfuel.
  - destruct fuel; reflexivity.
  - cbn [escapeEach] in *. rewrite length_append in Hfuel.
    assert (Hrest : forall f, (String.length (escapeEach s) <= f)%nat ->
                              unescapeXml_go f (escapeEach s) = s) by exact IH.
    clear IH. generalize dependent (escapeEach s). intros t Hfuel Hrest.
    destruct a as [[] [] [] [] [] [] [] []]; cbn in Hfuel;
      (destruct fuel as [|fuel]; [exfalso; lia|]);
      cbn; rewrite ?prefix_empty; cbn;
      rewrite ?Nat.sub_0_r, ?substring_all;
      (rewrite Hrest by lia); reflexivity.
Qed.

(** Decoding the entities of escaped text gives the text back. *)
Lemma unescapeXml_escapeXml (s : string) : unescapeXml (escapeXml s) = s.
Proof.
  unfold unescapeXml. rewrite escapeXml_escapeEach.
  apply unescapeXml_go_escapeEach. lia.
Qed.

End UnescapeFacts.

Section MarkupFacts.
Import JsString Svg SvgSpec TextObject.
Variable num : float -> string.

Local Infix "+:+" := String.append (at level 60, right associativity).

Lemma count_join_imap (c : ascii) (m : LineColor.t -> nat)
    (l : list LineColor.t) :
  forall f g : nat -> LineColor.t -> string,
    (forall i seg, count c (f i seg) = (count c (g i (eraseText seg)) + m seg)%nat) ->
    count c (join (imap f l))
    = (count c (join (imap g (eraseText <$> l)))
       + foldr (fun seg n => (m seg + n)%nat) O l)%nat.
Proof.
  induction l as [|seg l IH]; intros f g Hfg; [reflexivity|].
  cbn [imap fmap list_fmap join foldr]. rewrite !count_append.
  fold (join (imap (f ∘ S) l)). fold (join (imap (g ∘ S) (eraseText <$> l))).
  rewrite (IH (f ∘ S) (g ∘ S)) by (intros; apply Hfg).
  rewrite Hfg. lia.
Qed.

Lemma count_tspanWith (c : ascii) (embedded : string) (obj : TextObject.t)
    (i : nat) (seg : LineColor.t) :
  count c (tspanWith num embedded obj i seg)
  = (count c (tspanWith num "" (withoutText obj) i (eraseText seg))
     + count c embedded)%nat.
Proof.
  destruct obj, seg. unfold tspanWith, withoutText, eraseText.
  cbn [TextObject.fontSize LineColor.color].
  rewrite !count_append. cbn [count]. lia.
Qed.

Lemma count_plainWith (c : ascii) (embedded : string) (obj : TextObject.t) :
  count c (plainWith num embedded obj)
  = (count c (plainWith num "" (withoutText obj)) + count c embedded)%nat.
Proof.
  destruct obj. unfold plainWith, withoutText.
  cbn [TextObject.x TextObject.y TextObject.fontSize TextObject.textAnchor
       TextObject.dominantBaseline TextObject.fontWeight TextObject.fontFamily
       TextObject.style].
  rewrite !count_append. cbn [count]. lia.
Qed.

Lemma segmentedOpen_withoutText (obj : TextObject.t) :
  segmentedOpen num (withoutText obj) = segmentedOpen num obj.
Proof. destruct obj. reflexivity. Qed.

(** The markup of an element, counted character by character: what the
    texts add to the element without texts. *)
Lemma count_textElement (c : ascii) (obj : TextObject.t) :
  count c (textElement num obj)
  = (count c (textElement num (withoutText obj))
     + match colorSegments obj with
       | [] => count c (escapeXml (text obj))
       | segs => foldr (fun seg n =>
                          (count c (escapeXml (LineColor.text seg)) + n)%nat) O segs
       end)%nat.
Proof.
  unfold textElement.
  destruct (colorSegments obj) as [|seg segs] eqn:Hsegs.
  - assert (Hw : colorSegments (withoutText obj) = [])
      by (destruct obj; simpl in *; subst; reflexivity).
    rewrite Hw. cbv zeta. rewrite count_plainWith.
    change (escapeXml (text (withoutText obj))) with EmptyString.
    destruct obj; reflexivity.
  - assert (Hw : colorSegments (withoutText obj) = eraseText <$> (seg :: segs))
      by (destruct obj; simpl in *; subst; reflexivity).
    rewrite Hw. cbn [fmap list_fmap].
    change (eraseText seg :: list_fmap _ _ eraseText segs)
      with (eraseText <$> (seg :: segs)).
    rewrite segmentedOpen_withoutText. rewrite !count_append.
    rewrite (count_join_imap c
               (fun s => count c (escapeXml (LineColor.text s)))
               (seg :: segs) (tspan num obj) (tspan num (withoutText obj))).
    + cbn [fmap list_fmap]. lia.
    + intros i s. unfold tspan. rewrite count_tspanWith.
      destruct obj, s. reflexivity.
Qed.

End MarkupFacts.

Section EscapeClaim.
Import JsString Svg SvgSpec TextObject.

Local Infix "+:+" := String.append (at level 60, right associativity).

Lemma foldr_zero (f : LineColor.t -> nat) (l : list LineColor.t) :
  (forall seg, f seg = O) -> foldr (fun seg n => (f seg + n)%nat) O l = O.
Proof.
  intros Hf. induction l as [|seg l IH]; simpl; [reflexivity|].
  rewrite Hf, IH. reflexivity.
Qed.

Lemma count_textElement_markup (num : float -> string) (c : ascii)
    (obj : TextObject.t) :
  isMarkup c = true ->
  count c (textElement num obj) = count c (textElement num (withoutText obj)).
Proof.
  intros Hc. rewrite count_textElement.
  destruct (colorSegments obj).
  - rewrite count_escapeXml_markup by exact Hc. lia.
  - rewrite foldr_zero by (intros; apply count_escapeXml_markup; exact Hc). lia.
Qed.

(** The same for the whole list of elements that [drawRegionsWithText]
    joins into the markup, whatever the upscale factor. *)
Lemma count_svgElements_markup (num : float -> string) (c : ascii)
    (upscaleFactor : float) (textObjects : list TextObject.t) :
  isMarkup c = true ->
  count c (join (svgElements num upscaleFactor textObjects))
  = count c (join (svgElements num upscaleFactor (withoutText <$> textObjects))).
Proof.
  intros Hc. unfold svgElements.
  induction textObjects as [|obj objs IH]; [reflexivity|].
  cbn [fmap list_fmap join foldr]. rewrite !count_append.
  fold (join (textElement num <$> (scaleTextObject upscaleFactor <$> objs))).
  fold (join (textElement num <$>
                (scaleTextObject upscaleFactor <$> (withoutText <$> objs)))).
  rewrite IH. f_equal.
  rewrite count_textElement_markup by exact Hc.
  destruct obj; reflexivity.
Qed.

(** C9: the element that [drawRegionsWithText] writes for a text object
    embeds the texts only after escaping, in both branches (one [tspan]
    per colour segment, or the whole text); the escaping writes the entity
    of each of the five metacharacters, leaves every ampersand at the head
    of an entity and decodes back to the text; so the markup holds as many
    [<], [>], double and single quotes as the markup of the same object
    without texts, and one more ampersand for each metacharacter of the
    texts; the same count holds for the joined elements of any list of
    text objects at any upscale factor. *)
Theorem drawRegionsWithText_escapes_text
    (num : float -> string) (obj : TextObject.t)
    (upscaleFactor : float) (textObjects : list TextObject.t) :
  textElement num obj
  = match colorSegments obj with
    | [] => plainWith num (escapeXml (text obj)) obj
    | segs =>
        segmentedOpen num obj +:+
        join (imap (fun index segment =>
                      tspanWith num (escapeXml (LineColor.text segment))
                                obj index segment) segs) +:+
        segmentedClose
    end /\
  (forall s, escapeXml s = escapeEach s /\
             wellEscaped (escapeXml s) = true /\
             unescapeXml (escapeXml s) = s) /\
  count "<" (textElement num obj)
  = count "<" (textElement num (withoutText obj)) /\
  count ">" (textElement num obj)
  = count ">" (textElement num (withoutText obj)) /\
  count dquote (textElement num obj)
  = count dquote (textElement num (withoutText obj)) /\
  count squote (textElement num obj)
  = count squote (textElement num (withoutText obj)) /\
  count "&" (textElement num obj)
  = (count "&" (textElement num (withoutText obj)) + embeddedMeta obj)%nat /\
  Forall (fun c =>
            count c (join (svgElements num upscaleFactor textObjects))
            = count c (join (svgElements num upscaleFactor
                                         (withoutText <$> textObjects))))
         ["<"%char; ">"%char; dquote; squote].
Proof.
  split. { unfold textElement. destruct (colorSegments obj); reflexivity. }
  split.
  { intros s. split; [apply escapeXml_escapeEach|].
    split; [apply wellEscaped_escapeXml|apply unescapeXml_escapeXml]. }
  repeat (split; [apply count_textElement_markup; reflexivity|]).
  split.
  - rewrite count_textElement. unfold embeddedMeta.
    destruct (colorSegments obj) as [|seg segs].
    + rewrite count_escapeXml_amp. reflexivity.
    + f_equal. generalize (seg :: segs). intros l.
      induction l as [|s l IH]; simpl; [reflexivity|].
      rewrite count_escapeXml_amp, IH. reflexivity.
  - repeat (constructor; [apply count_svgElements_markup; reflexivity|]).
    constructor.
Qed.

(** The pipeline on a text with metacharacters: the words reach the markup
    as [a&lt;b], [&amp;] and [c]. *)
Example insertTextIntoRegions_markup_escaped :
  match Wrap.insertion_textObjects [] (Samples.plain "a<b & c")
          [Rectangle.mk "rectangle" 0 0 1200 800 "blue" 1 960000] with
  | inr (Some textObjects) =>
      let markup := join (svgElements printZero 1 textObjects) in
      count "<" markup = 8%nat /\ count ">" markup = 8%nat /\
      count "&" markup = 2%nat /\
      count "<" (join (svgElements printZero 1 (withoutText <$> textObjects)))
      = 8%nat
  | _ => False
  end.
Proof. vm_compute. repeat split; reflexivity. Qed.

(** The text case of [drawObjects], which the pipeline does not call,
    embeds [obj.text] as it is: a [<] of the text is a [<] of the markup. *)
Remark drawObjects_text_not_escaped :
  count "<" (drawObjects_text printZero (plainObject "<"))
  = S (count "<" (drawObjects_text printZero (plainObject ""))) /\
  count "<" (textElement printZero (plainObject "<"))
  = count "<" (textElement printZero (plainObject "")).
Proof. vm_compute. split; reflexivity. Qed.

End EscapeClaim.

(** ** Line breaker *)

Section WrapFacts.
Import JsNum JsString TextWidth Samples.

(** C1 (fails on the code): the text ["aaaa bbi zz"] laid out in a region
    of 100 by 60 pixels.  The solver chooses the font size 22, so
    [effectiveWidth] is 85, a space is 6.6 wide, ["aaaa"] is 48.4 wide and
    ["bbi"] is 31.9 wide.  The test [currentWidth + wordWidth <=
    effectiveWidth] of [insertTextIntoRegions] leaves the space out
    (48.4 + 31.9 <= 85), so ["bbi"] is appended: the line ["aaaa bbi"] has
    two words and an estimated width of 86.9, above [effectiveWidth].
    [wrapText], whose test counts the space, breaks the line after
    ["aaaa"]. *)
Theorem insertTextIntoRegions_line_exceeds_effectiveWidth :
  match Wrap.layoutLines [] (plain "aaaa bbi zz")
          [Rectangle.mk "rectangle" 0 0 100 60 "blue" 1 6000] with
  | inr (Some layout) =>
      FontPlan.normalFontSize (Wrap.plan layout) = 22%float /\
      Wrap.effectiveWidth layout = 85%float /\
      List.map WrappedLine.text (Wrap.wrappedLines layout) = ["aaaa bbi"; "zz"]
  | _ => False
  end /\
  match Wrap.insertion_textObjects [] (plain "aaaa bbi zz")
          [Rectangle.mk "rectangle" 0 0 100 60 "blue" 1 6000] with
  | inr (Some textObjects) =>
      List.map (fun obj => (TextObject.text obj, TextObject.fontSize obj))
               textObjects
      = [("aaaa bbi", 22%float); ("zz", 22%float)]
  | _ => False
  end /\
  ((85 <? 0 + calculateTextWidth "aaaa" 22 + calculateTextWidth " " 22
            + calculateTextWidth "bbi" 22) = true)%float /\
  ((0 + calculateTextWidth "aaaa" 22 + calculateTextWidth "bbi" 22 <=? 85)
   = true)%float /\
  List.map (fun line => List.map WrapText.word_text (WrapText.segments line))
           (WrapText.wrapText "aaaa bbi zz" 85 22 0 0 [] [])
  = [["aaaa"]; ["bbi"; "zz"]].
Proof. vm_compute. repeat split; reflexivity. Qed.

End WrapFacts.

(** ** The sort of the engine *)

Section SortLeftFacts.
Import Regions Engine.
Context {A : Type} (key : A -> Z).

Local Abbreviation cmp := (fun a b : A => key b - key a).
Local Abbreviation desc := (fun a b : A => key b <= key a).

Lemma insertAfter_Permutation (a : A) (l : list A) :
  Permutation (l ++ [a]) (insertAfter cmp a l).
Proof.
  induction l as [|b l IH]; simpl; [reflexivity|].
  destruct (key a - key b <=? 0); [apply perm_skip; exact IH|].
  symmetry. apply (Permutation_cons_append (b :: l) a).
Qed.

Lemma insertAfter_sorted (a : A) (l : list A) :
  StronglySorted desc l -> StronglySorted desc (insertAfter cmp a l).
Proof.
  induction l as [|b l IH]; simpl; intros Hs.
  - constructor; [constructor|constructor].
  - apply StronglySorted_inv in Hs as [Hs Hb].
    destruct (Z.leb_spec (key a - key b) 0) as [Hab|Hab].
    + constructor; [apply IH; exact Hs|].
      rewrite <- insertAfter_Permutation. apply Forall_app. split; [exact Hb|].
      constructor; [lia|constructor].
    + constructor; [constructor; assumption|].
      constructor; [lia|].
      eapply Forall_impl; [exact Hb|]. simpl. intros c Hc. lia.
Qed.

Lemma filter_none (f : A -> bool) (l : list A) :
  (forall x, In x l -> f x = false) -> List.filter f l = [].
Proof.
  induction l as [|x l IH]; intros Hf; [reflexivity|]. simpl.
  rewrite (Hf x (or_introl eq_refl)). apply IH.
  intros y Hy. apply Hf. right. exact Hy.
Qed.

Lemma insertAfter_filter (k : Z) (a : A) (l : list A) :
  StronglySorted desc l ->
  List.filter (fun x => key x =? k) (insertAfter cmp a l)
  = List.filter (fun x => key x =? k) (l ++ [a]).
Proof.
  induction l as [|b l IH]; intros Hs; [reflexivity|].
  apply StronglySorted_inv in Hs as [Hs Hb].
  cbn [insertAfter app].
  destruct (Z.leb_spec (key a - key b) 0) as [Hab|Hab].
  - cbn [List.filter]. rewrite IH by exact Hs. reflexivity.
  - change (a :: b :: l) with ([a] ++ (b :: l)).
    change (b :: l ++ [a]) with ((b :: l) ++ [a]).
    rewrite !List.filter_app. cbn [List.filter].
    destruct (Z.eqb_spec (key a) k) as [Hk|Hk]; [|rewrite app_nil_r; reflexivity].
    assert (Hnone : List.filter (fun x => key x =? k) (b :: l) = []).
    { apply filter_none.
      intros x [->|Hx]; apply Z.eqb_neq; [lia|].
      rewrite Forall_forall in Hb.
      specialize (Hb x (proj2 (list_elem_of_In _ _) Hx)). simpl in Hb. lia. }
    cbn [List.filter] in Hnone. rewrite Hnone. reflexivity.
Qed.

Lemma sortLeft_snoc (l : list A) (a : A) :
  sortLeft cmp (l ++ [a]) = insertAfter cmp a (sortLeft cmp l).
Proof. unfold sortLeft. rewrite foldl_app. reflexivity. Qed.

Lemma sortLeft_stableSortOf (l : list A) : stableSortOf key l (sortLeft cmp l).
Proof.
  induction l as [|a l (Hp & Hs & Hf)] using rev_ind.
  - split; [reflexivity|]. split; [constructor|reflexivity].
  - rewrite sortLeft_snoc. split; [|split].
    + rewrite <- insertAfter_Permutation. apply Permutation_app_tail. exact Hp.
    + apply insertAfter_sorted. exact Hs.
    + intros k. rewrite insertAfter_filter by exact Hs.
      rewrite !List.filter_app, Hf. reflexivity.
Qed.

End SortLeftFacts.

Section EngineSortFacts.
Import JsNum Regions Engine.

Lemma sortBy_sortsStably : sortsStably (@sortBy Rectangle.t).
Proof. intros l. apply (sortBy_stableSortOf Rectangle.area). Qed.

Lemma sortLeft_sortsStably : sortsStably (@sortLeft Rectangle.t).
Proof. intros l. apply (sortLeft_stableSortOf Rectangle.area). Qed.

(** The model sorts by insertion where the engine runs its own sort: the
    regions are the same for every function that meets the contract of
    [Array.prototype.sort], a stable sort. *)
Lemma findEmptyRegions_any_stable_sort
    (sort : (Rectangle.t -> Rectangle.t -> Z) ->
            list Rectangle.t -> list Rectangle.t)
    (img : Raster) (minWidth minHeight : Z) :
  sortsStably sort ->
  findEmptyRegions_with sort img minWidth minHeight
  = findEmptyRegions img minWidth minHeight.
Proof.
  intros Hsort. unfold findEmptyRegions, findEmptyRegions_with.
  eapply stableSortOf_unique; [apply Hsort|apply sortBy_sortsStably].
Qed.

Example findEmptyRegions_sortLeft :
  findEmptyRegions_with (@sortLeft Rectangle.t)
                        (RasterSpec.makeBand 3 100 33 58) 100 30
  = findEmptyRegions (RasterSpec.makeBand 3 100 33 58) 100 30.
Proof. apply findEmptyRegions_any_stable_sort, sortLeft_sortsStably. Qed.

End EngineSortFacts.

(** ** Image read cache: what a read leaves behind *)

Section CacheExtras.
Import Cache CacheSpec.

Lemma Map_get_Map_set (k : string) (v : Buffer) (m : list (string * Buffer)) :
  Map_get k (Map_set k v m) = Some v.
Proof.
  unfold Map_get. induction m as [|[k' v'] m IH]; simpl.
  - rewrite String.eqb_refl. reflexivity.
  - destruct (String.eqb_spec k' k) as [->|Hne]; simpl.
    + rewrite String.eqb_refl. reflexivity.
    + destruct (String.eqb_spec k' k); [contradiction|]. exact IH.
Qed.

Lemma Map_get_None (k : string) (m : list (string * Buffer)) :
  Map_get k m = None <-> ~ In k (map fst m).
Proof.
  unfold Map_get. induction m as [|[k' v'] m IH]; simpl.
  - tauto.
  - destruct (String.eqb_spec k' k) as [->|Hne]; simpl.
    + split; [discriminate|]. intros H. exfalso. apply H. left. reflexivity.
    + rewrite IH. tauto.
Qed.

Lemma Map_set_absent (k : string) (v : Buffer) (m : list (string * Buffer)) :
  ~ In k (map fst m) -> Map_set k v m = m ++ [(k, v)].
Proof.
  induction m as [|[k' v'] m IH]; simpl; intros Hk; [reflexivity|].
  destruct (String.eqb_spec k' k) as [->|Hne].
  - exfalso. apply Hk. left. reflexivity.
  - f_equal. apply IH. tauto.
Qed.

Lemma totalBytes_app (m1 m2 : list (string * Buffer)) :
  totalBytes (m1 ++ m2) = totalBytes m1 + totalBytes m2.
Proof. induction m1 as [|kv m1 IH]; simpl; lia. Qed.

(** The eviction loop drops the oldest entries, and no more of them than
    it has to. *)
Lemma evictLoop_drop (len : Z) (fuel : nat) :
  forall st st', consistent st -> evictLoop fuel len st = Some st' ->
    exists k : nat,
      imageCache st' = drop k (imageCache st) /\
      currentCacheSize st' = totalBytes (drop k (imageCache st)) /\
      currentCacheSize st' + len <= MAX_CACHE_SIZE /\
      forall j : nat, (j < k)%nat ->
        MAX_CACHE_SIZE < totalBytes (drop j (imageCache st)) + len.
Proof.
  induction fuel as [|fuel IH]; intros st st' Hst Hloop; simpl in Hloop;
    destruct (Z.gtb_spec (currentCacheSize st + len) MAX_CACHE_SIZE) as [Hgt|Hle];
    try discriminate.
  - injection Hloop as <-. exists O. rewrite drop_0.
    split; [reflexivity|]. split; [apply Hst|]. split; [lia|]. intros j Hj. lia.
  - destruct (imageCache st) as [|[k v] m] eqn:Hm.
    + assert (Hsame : clearOldestCache st = st)
        by (unfold clearOldestCache; rewrite Hm; reflexivity).
      rewrite Hsame in Hloop.
      destruct (IH st st' Hst Hloop) as (n & H1 & H2 & H3 & H4).
      rewrite Hm in *. rewrite drop_nil in *. exists O. rewrite drop_0.
      split; [exact H1|]. split; [exact H2|]. split; [exact H3|]. intros j Hj. lia.
    + pose proof (clearOldestCache_consistent st Hst) as Hst1.
      destruct (IH _ st' Hst1 Hloop) as (n & H1 & H2 & H3 & H4).
      assert (Hcache : imageCache (clearOldestCache st) = m).
      { unfold clearOldestCache. rewrite Hm. simpl.
        rewrite String.eqb_refl. simpl. apply Map_delete_absent.
        destruct Hst as [_ Hnd]. rewrite Hm in Hnd. simpl in Hnd.
        apply NoDup_cons in Hnd as [Hk _]. rewrite <- list_elem_of_In. exact Hk. }
      rewrite Hcache in *. exists (S n). simpl.
      split; [exact H1|]. split; [exact H2|]. split; [exact H3|].
      intros [|j] Hj.
      * rewrite drop_0. destruct Hst as [Hsz _]. rewrite Hm in Hsz. lia.
      * simpl. apply H4. lia.
  - injection Hloop as <-. exists O. rewrite drop_0.
    split; [reflexivity|]. split; [apply Hst|]. split; [lia|]. intros j Hj. lia.
Qed.

(** A path that is not cached is appended behind what the eviction has
    left. *)
Lemma Map_set_dropped (imagePath : string) (b : Buffer)
    (cache : list (string * Buffer)) (k : nat) :
  Map_get imagePath cache = None ->
  Map_set imagePath b (drop k cache) = drop k cache ++ [(imagePath, b)].
Proof.
  intros Hget. apply Map_set_absent. apply Map_get_None in Hget.
  intros Hin. apply Hget.
  rewrite <- (take_drop k cache), map_app, in_app_iff. right. exact Hin.
Qed.

(** X3: a read that misses the cache and returns has evicted the [k]
    oldest entries, in insertion order, and appended the file read: the
    new cache is the old one without its first [k] entries, followed by the
    new entry; [currentCacheSize] is the number of bytes that it holds and
    is within the budget; and [k] is the least such number: dropping fewer
    entries would not have made room for the file. *)
Theorem readImageFile_evicts_oldest_first
    (fuel : nat) (fs : FileSystem) (imagePath : string) (imageBuffer : Buffer)
    (st st' : State) :
  consistent st ->
  Map_get imagePath (imageCache st) = None ->
  readImageFile fuel fs imagePath st = Some (Returned imageBuffer st') ->
  exists k : nat,
    imageCache st' = drop k (imageCache st) ++ [(imagePath, imageBuffer)] /\
    currentCacheSize st'
    = totalBytes (drop k (imageCache st)) + buf_length imageBuffer /\
    currentCacheSize st' <= MAX_CACHE_SIZE /\
    forall j : nat, (j < k)%nat ->
      MAX_CACHE_SIZE
      < totalBytes (drop j (imageCache st)) + buf_length imageBuffer.
Proof.
  intros Hst Hget Hread. unfold readImageFile in Hread. rewrite Hget in Hread.
  destruct (fs imagePath) as [b|]; [|discriminate].
  destruct (evictLoop fuel (buf_length b) st) as [st1|] eqn:Hloop; [|discriminate].
  injection Hread as <- <-.
  destruct (evictLoop_drop _ _ _ _ Hst Hloop) as (k & H1 & H2 & H3 & H4).
  exists k. simpl. rewrite H1, H2.
  split; [|split; [reflexivity|split; [lia|exact H4]]].
  apply Map_set_dropped. exact Hget.
Qed.

Lemma NoDup_drop_snoc (k : nat) (key : string) (keys : list string) :
  NoDup keys -> ~ In key keys -> NoDup (drop k keys ++ [key]).
Proof.
  intros Hnd Hk. apply NoDup_app. split; [|split].
  - rewrite <- (take_drop k keys) in Hnd. apply NoDup_app in Hnd. tauto.
  - intros x Hx Hx'. apply list_elem_of_In in Hx'. destruct Hx' as [->|[]].
    apply Hk. rewrite <- (take_drop k keys), in_app_iff.
    right. apply list_elem_of_In. exact Hx.
  - apply NoDup_singleton.
Qed.

(** X1: from a cache whose bookkeeping is consistent and within the
    budget, the read of a file that is absent, cached, or no larger than
    the budget returns after at most one eviction per cached entry, and
    leaves the bookkeeping consistent and within the budget: a buffer
    returned is the cached one (the cache is then untouched) or the one
    read from the disk, and is cached afterwards; when the file cannot be
    read the error is rethrown and the cache is untouched. *)
Theorem readImageFile_keeps_cache_consistent
    (fs : FileSystem) (imagePath : string) (st : State) :
  consistent st ->
  currentCacheSize st <= MAX_CACHE_SIZE ->
  (forall b, fs imagePath = Some b -> buf_length b <= MAX_CACHE_SIZE) ->
  exists out,
    readImageFile (List.length (imageCache st)) fs imagePath st = Some out /\
    match out with
    | Returned b st' =>
        consistent st' /\ currentCacheSize st' <= MAX_CACHE_SIZE /\
        Map_get imagePath (imageCache st') = Some b /\
        (Map_get imagePath (imageCache st) = Some b /\ st' = st \/
         Map_get imagePath (imageCache st) = None /\ fs imagePath = Some b)
    | Thrown st' =>
        st' = st /\ Map_get imagePath (imageCache st) = None /\
        fs imagePath = None
    end.
Proof.
  intros Hst Hsz Hfs.
  destruct (Map_get imagePath (imageCache st)) as [cached|] eqn:Hget.
  { exists (Returned cached st). unfold readImageFile. rewrite Hget.
    split; [reflexivity|]. tauto. }
  destruct (fs imagePath) as [b|] eqn:Hb.
  2: { exists (Thrown st). unfold readImageFile. rewrite Hget, Hb.
       split; [reflexivity|]. tauto. }
  destruct (evictLoop_terminates (buf_length b) (Hfs b eq_refl)
              (List.length (imageCache st)) st Hst (le_n _))
    as (st1 & Hloop & _ & _).
  pose (st' := mkState (Map_set imagePath b (imageCache st1))
                       (currentCacheSize st1 + buf_length b)).
  assert (Hread : readImageFile (List.length (imageCache st)) fs imagePath st
                  = Some (Returned b st')).
  { unfold readImageFile. rewrite Hget, Hb, Hloop. reflexivity. }
  exists (Returned b st'). split; [exact Hread|].
  destruct (evictLoop_drop _ _ _ _ Hst Hloop) as (k & H1 & H2 & H3 & _).
  assert (Hc : imageCache st'
               = drop k (imageCache st) ++ [(imagePath, b)])
    by (unfold st'; cbn [imageCache]; rewrite H1;
        apply Map_set_dropped; exact Hget).
  assert (Hs : currentCacheSize st'
               = totalBytes (drop k (imageCache st)) + buf_length b)
    by (unfold st'; cbn [currentCacheSize]; rewrite H2; reflexivity).
  assert (Hmax : currentCacheSize st' <= MAX_CACHE_SIZE)
    by (unfold st'; cbn [currentCacheSize]; lia).
  split; [|split; [exact Hmax|split; [apply Map_get_Map_set|right; tauto]]].
  split.
  - rewrite Hs, Hc, totalBytes_app. simpl. lia.
  - rewrite Hc, map_app, <- skipn_map. simpl.
    apply NoDup_drop_snoc; [apply Hst|]. apply Map_get_None. exact Hget.
Qed.

(** X2: once [readImageFile] has returned a buffer for a path, reading
    the same path again returns the same buffer and leaves the cache as it
    is, whatever the disk holds by then and without running the eviction
    loop. *)
Theorem readImageFile_second_read_hits_cache
    (fuel fuel' : nat) (fs fs' : FileSystem) (imagePath : string)
    (imageBuffer : Buffer) (st st' : State) :
  readImageFile fuel fs imagePath st = Some (Returned imageBuffer st') ->
  readImageFile fuel' fs' imagePath st' = Some (Returned imageBuffer st').
Proof.
  unfold readImageFile at 1.
  destruct (Map_get imagePath (imageCache st)) as [cached|] eqn:Hget.
  - intros H. injection H as <- <-. unfold readImageFile. rewrite Hget. reflexivity.
  - destruct (fs imagePath) as [b|]; [|discriminate].
    destruct (evictLoop fuel (buf_length b) st) as [st1|]; [|discriminate].
    intros H. injection H as <- <-. unfold readImageFile. simpl.
    rewrite Map_get_Map_set. reflexivity.
Qed.

Lemma readImageFile_keeps_cache_consistent_witness :
  exists out,
    readImageFile (List.length (imageCache Fixtures.oneCached))
                  Fixtures.smallDisk "b.png" Fixtures.oneCached = Some out /\
    match out with
    | Returned b st' =>
        consistent st' /\ currentCacheSize st' <= MAX_CACHE_SIZE /\
        Map_get "b.png" (imageCache st') = Some b /\
        (Map_get "b.png" (imageCache Fixtures.oneCached) = Some b /\
         st' = Fixtures.oneCached \/
         Map_get "b.png" (imageCache Fixtures.oneCached) = None /\
         Fixtures.smallDisk "b.png" = Some b)
    | Thrown st' =>
        st' = Fixtures.oneCached /\
        Map_get "b.png" (imageCache Fixtures.oneCached) = None /\
        Fixtures.smallDisk "b.png" = None
    end.
Proof.
  apply (readImageFile_keeps_cache_consistent Fixtures.smallDisk "b.png"
           Fixtures.oneCached).
  - split; [reflexivity|]. apply NoDup_singleton.
  - vm_compute. discriminate.
  - intros b Hb. vm_compute in Hb. injection Hb as <-. vm_compute. discriminate.
Defined.

Lemma readImageFile_second_read_hits_cache_witness :
  readImageFile 0 Fixtures.emptyDisk "b.png" Fixtures.twoCached
  = Some (Returned [Byte.x02; Byte.x03; Byte.x04] Fixtures.twoCached).
Proof.
  apply (readImageFile_second_read_hits_cache 1 0 Fixtures.smallDisk
           Fixtures.emptyDisk "b.png" [Byte.x02; Byte.x03; Byte.x04]
           Fixtures.oneCached Fixtures.twoCached).
  vm_compute. reflexivity.
Defined.

Lemma readImageFile_evicts_oldest_first_witness :
  exists k : nat,
    imageCache Fixtures.twoCached
    = drop k (imageCache Fixtures.oneCached)
      ++ [("b.png", [Byte.x02; Byte.x03; Byte.x04])] /\
    currentCacheSize Fixtures.twoCached
    = totalBytes (drop k (imageCache Fixtures.oneCached))
      + buf_length [Byte.x02; Byte.x03; Byte.x04] /\
    currentCacheSize Fixtures.twoCached <= MAX_CACHE_SIZE /\
    forall j : nat, (j < k)%nat ->
      MAX_CACHE_SIZE
      < totalBytes (drop j (imageCache Fixtures.oneCached))
        + buf_length [Byte.x02; Byte.x03; Byte.x04].
Proof.
  apply (readImageFile_evicts_oldest_first 1 Fixtures.smallDisk "b.png"
           [Byte.x02; Byte.x03; Byte.x04] Fixtures.oneCached Fixtures.twoCached).
  - split; [reflexivity|]. apply NoDup_singleton.
  - reflexivity.
  - vm_compute. reflexivity.
Defined.

End CacheExtras.

(** ** Empty-region finder: shape and spacing of the regions *)

Section RegionInvariants.
Import JsNum Regions RegionSpec.

Lemma StronglySorted_snoc {A} (R : A -> A -> Prop) (l : list A) (a : A) :
  StronglySorted R l -> Forall (fun x => R x a) l -> StronglySorted R (l ++ [a]).
Proof.
  induction l as [|b l IH]; simpl; intros Hs Hf.
  - constructor; constructor.
  - apply StronglySorted_inv in Hs as [Hs Hb].
    apply Forall_cons in Hf as [Hba Hf].
    constructor; [apply IH; assumption|].
    apply Forall_app. split; [exact Hb|]. constructor; [exact Hba|constructor].
Qed.

Lemma StronglySorted_snoc_inv {A} (R : A -> A -> Prop) (l : list A) (a : A) :
  StronglySorted R (l ++ [a]) -> StronglySorted R l /\ Forall (fun x => R x a) l.
Proof.
  induction l as [|b l IH]; simpl; intros Hs.
  - split; constructor.
  - apply StronglySorted_inv in Hs as [Hs Hb].
    destruct (IH Hs) as [Hl Hf]. apply Forall_app in Hb as [Hb Hba].
    split; [constructor; assumption|].
    constructor; [|exact Hf]. apply Forall_cons in Hba as [Hba _]. exact Hba.
Qed.

Lemma band_weaken (W k n n' : Z) (r : Region.t) :
  n <= n' -> band W k n r -> band W k n' r.
Proof.
  intros Hn (Hx & Hw & a & h & Hy & Hh & Ha & Hk & Hah).
  split; [exact Hx|]. split; [exact Hw|]. exists a, h. repeat split; try assumption; lia.
Qed.

Section Scan.
Variables (grid : list Z) (gridWidth width minHeight : Z).
Hypothesis Hmin : 0 < ceil_div minHeight cellSize.

Local Abbreviation scanInv := (RegionSpec.scanInv width (ceil_div minHeight cellSize)).

Lemma pushRun_inv (n : Z) (s : Scan) :
  scanInv n s ->
  StronglySorted (above cellSize) (pushRun width minHeight s) /\
  Forall (band width (ceil_div minHeight cellSize) n) (pushRun width minHeight s).
Proof using Hmin.
  intros (Hc & Hs & Hsorted & Hbands). unfold pushRun.
  assert (Hweak : Forall (band width (ceil_div minHeight cellSize) n) (regions s)).
  { eapply Forall_impl; [exact Hbands|]. intros r. apply band_weaken. lia. }
  destruct (Z.geb_spec (currentEmptyHeight s) (ceil_div minHeight cellSize)) as [Hge|Hlt];
    [|split; assumption].
  specialize (Hs ltac:(lia)). split.
  - apply StronglySorted_snoc; [exact Hsorted|].
    eapply Forall_impl; [exact Hbands|].
    intros r (_ & _ & a & h & Hy & Hh & Ha & Hk & Hah).
    unfold above. simpl. rewrite Hy, Hh, Hs. unfold cellSize in *. lia.
  - apply Forall_app. split; [exact Hweak|]. constructor; [|constructor].
    split; [reflexivity|]. split; [reflexivity|].
    exists (startY s), (currentEmptyHeight s). simpl.
    repeat split; try reflexivity; lia.
Qed.

Lemma scanRow_inv (n : Z) (s : Scan) :
  0 <= n -> scanInv n s ->
  scanInv (n + 1) (scanRow grid gridWidth width minHeight s n).
Proof using Hmin.
  intros Hn Hinv. unfold scanRow.
  destruct (isRowEmpty grid gridWidth n).
  - destruct Hinv as (Hc & Hs & Hsorted & Hbands).
    unfold RegionSpec.scanInv. simpl. split; [lia|]. split.
    + intros _. destruct (Z.eqb_spec (currentEmptyHeight s) 0); [lia|].
      rewrite Hs by lia. lia.
    + split; [exact Hsorted|].
      eapply Forall_impl; [exact Hbands|]. intros r. apply band_weaken. lia.
  - destruct (pushRun_inv n s Hinv) as [Hsorted Hbands].
    unfold RegionSpec.scanInv. simpl. split; [lia|]. split; [lia|].
    split; [exact Hsorted|].
    eapply Forall_impl; [exact Hbands|]. intros r. apply band_weaken. lia.
Qed.

Lemma scan_inv (n : nat) :
  scanInv (Z.of_nat n)
    (foldl (scanRow grid gridWidth width minHeight) (mkScan 0 0 [])
           (seqZ 0 (Z.of_nat n))).
Proof using Hmin.
  induction n as [|n IH].
  - simpl. unfold RegionSpec.scanInv. simpl. split; [lia|]. split; [lia|].
    split; constructor.
  - rewrite Nat2Z.inj_succ, <- Z.add_1_r.
    rewrite seqZ_app by lia. rewrite foldl_app.
    rewrite (seqZ_cons (0 + Z.of_nat n) 1) by lia.
    rewrite (seqZ_nil _ (Z.pred 1)) by lia.
    cbn [foldl]. rewrite Z.add_0_l. apply scanRow_inv; [lia|exact IH].
Qed.

Lemma scanRows_inv (gridHeight : Z) :
  StronglySorted (above cellSize)
    (scanRows grid gridWidth gridHeight width minHeight) /\
  Forall (band width (ceil_div minHeight cellSize) (Z.max 0 gridHeight))
    (scanRows grid gridWidth gridHeight width minHeight).
Proof using Hmin.
  unfold scanRows.
  destruct (Z.le_gt_cases 0 gridHeight) as [Hpos|Hneg].
  - rewrite Z.max_r by lia.
    rewrite <- (Z2Nat.id gridHeight) by lia.
    apply pushRun_inv. apply scan_inv.
  - rewrite seqZ_nil by lia. rewrite Z.max_l by lia.
    apply (pushRun_inv 0). unfold RegionSpec.scanInv. simpl.
    split; [lia|]. split; [lia|]. split; constructor.
Qed.

End Scan.

Lemma mergeStep_inv (W k n : Z) (rest : list Region.t) :
  0 < k ->
  forall (cur : Region.t) (out : list Region.t),
    band W k n cur ->
    Forall (band W k n) out ->
    StronglySorted (above (4 * cellSize)) (out ++ [cur]) ->
    Forall (above cellSize cur) rest ->
    StronglySorted (above cellSize) rest ->
    Forall (band W k n) rest ->
    let st := foldl mergeStep (Some cur, out) rest in
    exists cur', fst st = Some cur' /\
      Forall (band W k n) (snd st ++ [cur']) /\
      StronglySorted (above (4 * cellSize)) (snd st ++ [cur']).
Proof.
  intros Hk. induction rest as [|r rest IH];
    intros cur out Hcur Hout Hsorted Habove Hrest Hbands; cbv zeta.
  - exists cur. simpl. split; [reflexivity|]. split; [|exact Hsorted].
    apply Forall_app. split; [exact Hout|]. constructor; [exact Hcur|constructor].
  - apply Forall_cons in Habove as [Hr Habove].
    apply StronglySorted_inv in Hrest as [Hrest Hr_rest].
    apply Forall_cons in Hbands as [Hrb Hbands].
    cbn [foldl].
    assert (Hstep :
      mergeStep (Some cur, out) r
      = if Region.y r - (Region.y cur + Region.height cur) <? cellSize * 4
        then (Some (Region.mk (Region.x cur) (Region.y cur) (Region.width cur)
                      (Region.y r + Region.height r - Region.y cur)), out)
        else (Some r, out ++ [cur])) by reflexivity.
    rewrite Hstep. clear Hstep.
    pose proof Hcur as (Hx & Hw & a & h & Hy & Hh & Ha & Hhk & Hah).
    pose proof Hrb as (Hx' & Hw' & a' & h' & Hy' & Hh' & Ha' & Hhk' & Hah').
    unfold above in Hr.
    apply StronglySorted_snoc_inv in Hsorted as [Hso Hoc].
    destruct (Z.ltb_spec (Region.y r - (Region.y cur + Region.height cur))
                         (cellSize * 4)) as [Hnear|Hfar].
    + apply IH; try assumption.
      * split; [exact Hx|]. split; [exact Hw|].
        exists a, (a' + h' - a). simpl. unfold cellSize in *.
        repeat split; lia.
      * apply StronglySorted_snoc; [exact Hso|].
        eapply Forall_impl; [exact Hoc|]. intros o. unfold above. simpl. tauto.
      * eapply Forall_impl; [exact Hr_rest|]. intros x. unfold above. simpl. lia.
    + apply IH; try assumption.
      * apply Forall_app. split; [exact Hout|]. constructor; [exact Hcur|constructor].
      * apply StronglySorted_snoc.
        { apply StronglySorted_snoc; assumption. }
        apply Forall_app. split.
        { eapply Forall_impl; [exact Hoc|]. intros o. unfold above.
          unfold cellSize in *. lia. }
        constructor; [|constructor]. unfold above. unfold cellSize in *. lia.
Qed.

(** The merged regions are whole-row bands at least [4 * cellSize] pixels
    apart. *)
Lemma mergeRegions_inv (W k n : Z) (rs : list Region.t) :
  0 < k ->
  StronglySorted (above cellSize) rs -> Forall (band W k n) rs ->
  Forall (band W k n) (mergeRegions rs) /\
  StronglySorted (above (4 * cellSize)) (mergeRegions rs).
Proof.
  intros Hk Hsorted Hbands. unfold mergeRegions.
  destruct rs as [|r rs]; [simpl; split; constructor|].
  cbn [foldl]. change (mergeStep (None, []) r) with (Some r, @nil Region.t).
  apply StronglySorted_inv in Hsorted as [Hsorted Hr].
  apply Forall_cons in Hbands as [Hrb Hbands].
  destruct (mergeStep_inv W k n rs Hk r [] Hrb ltac:(constructor)
              ltac:(repeat constructor) Hr Hsorted Hbands)
    as (cur & Hcur & Hb & Hs).
  cbv zeta in Hcur. rewrite Hcur. split; assumption.
Qed.

Lemma StronglySorted_filter {A} (R : A -> A -> Prop) (f : A -> bool) (l : list A) :
  StronglySorted R l -> StronglySorted R (List.filter f l).
Proof.
  induction l as [|a l IH]; simpl; intros Hs; [constructor|].
  apply StronglySorted_inv in Hs as [Hs Ha].
  destruct (f a); [|apply IH; exact Hs].
  constructor; [apply IH; exact Hs|].
  rewrite Forall_forall in *. intros x Hx.
  apply Ha. apply list_elem_of_In in Hx. apply filter_In in Hx as [Hx _].
  apply list_elem_of_In. exact Hx.
Qed.

Lemma StronglySorted_pairwise {A} (R : A -> A -> Prop) (l : list A) (x y : A) :
  StronglySorted R l -> In x l -> In y l -> x = y \/ R x y \/ R y x.
Proof.
  induction l as [|a l IH]; intros Hs Hx Hy; [destruct Hx|].
  apply StronglySorted_inv in Hs as [Hs Ha]. rewrite Forall_forall in Ha.
  destruct Hx as [->|Hx], Hy as [->|Hy].
  - left. reflexivity.
  - right. left. apply Ha, list_elem_of_In. exact Hy.
  - right. right. apply Ha, list_elem_of_In. exact Hx.
  - apply IH; assumption.
Qed.

(** The regions that [findEmptyRegions] keeps, before they are tagged and
    sorted. *)
Lemma kept_regions (img : Raster) (minHeight : Z) :
  0 < minHeight ->
  exists kept : list Region.t,
    emptyRectangles img minHeight = toRectangle <$> kept /\
    Forall (band (info_width img) (ceil_div minHeight cellSize)
                 (Z.max 0 (ceil_div (info_height img) cellSize))) kept /\
    StronglySorted (above (4 * cellSize)) kept.
Proof.
  intros Hmin.
  assert (Hk : 0 < ceil_div minHeight cellSize).
  { pose proof (ceil_div_5 minHeight). unfold cellSize. lia. }
  unfold emptyRectangles. cbv zeta.
  match goal with |- context [scanRows ?g ?gw ?gh ?w ?mh] =>
    destruct (scanRows_inv g gw w mh Hk gh) as [Hs Hb];
    destruct (mergeRegions_inv _ _ _ _ Hk Hs Hb) as [Hb' Hs']
  end.
  eexists. split; [reflexivity|]. split.
  - rewrite Forall_forall in *. intros r Hr. apply Hb'.
    apply list_elem_of_In in Hr. apply filter_In in Hr as [Hr _].
    apply list_elem_of_In. exact Hr.
  - apply StronglySorted_filter. exact Hs'.
Qed.

Lemma findEmptyRegions_In (img : Raster) (minWidth minHeight : Z) (r : Rectangle.t) :
  In r (findEmptyRegions img minWidth minHeight) <->
  In r (emptyRectangles img minHeight).
Proof.
  unfold findEmptyRegions, findEmptyRegions_with.
  split; apply Permutation_in;
    [symmetry|]; apply (sortBy_Permutation Rectangle.area).
Qed.

(** X4: for a positive [minHeight], every rectangle that
    [findEmptyRegions] returns is a tagged band over the full width of the
    image: [x] is 0 and [width] is [info.width]; [y] and [height] are
    multiples of the cell size with [y >= 0] and [height >= minHeight]; and
    the band ends inside the grid, that is at most at the image height
    rounded up to the next multiple of the cell size. *)
Theorem findEmptyRegions_full_width_bands
    (img : Raster) (minWidth minHeight : Z) :
  0 < minHeight ->
  Forall (fun r =>
            Rectangle.type r = "rectangle" /\ Rectangle.color r = "blue" /\
            Rectangle.strokeWidth r = 1 /\
            Rectangle.x r = 0 /\ Rectangle.width r = info_width img /\
            0 <= Rectangle.y r /\
            Rectangle.y r mod cellSize = 0 /\
            Rectangle.height r mod cellSize = 0 /\
            minHeight <= Rectangle.height r /\
            Rectangle.y r + Rectangle.height r
            <= Z.max 0 (ceil_div (info_height img) cellSize) * cellSize)
         (findEmptyRegions img minWidth minHeight).
Proof.
  intros Hmin. rewrite Forall_forall. intros r Hr.
  apply list_elem_of_In, findEmptyRegions_In in Hr.
  destruct (kept_regions img minHeight Hmin) as (kept & Heq & Hb & _).
  rewrite Heq in Hr. apply list_elem_of_In, list_elem_of_fmap in Hr as (g & -> & Hg).
  rewrite Forall_forall in Hb.
  destruct (Hb g Hg) as (Hx & Hw & a & h & Hy & Hh & Ha & Hk & Hah).
  pose proof (ceil_div_5 minHeight) as Hc.
  unfold toRectangle. simpl. rewrite Hx, Hw, Hy, Hh.
  rewrite !Z.mod_mul by (unfold cellSize; lia).
  unfold cellSize in *. repeat split; try reflexivity; lia.
Qed.

(** X5: for a positive [minHeight], two different rectangles returned by
    [findEmptyRegions] never overlap: one of them ends at least
    [4 * cellSize] pixels above the start of the other. *)
Theorem findEmptyRegions_regions_apart
    (img : Raster) (minWidth minHeight : Z) (r1 r2 : Rectangle.t) :
  0 < minHeight ->
  In r1 (findEmptyRegions img minWidth minHeight) ->
  In r2 (findEmptyRegions img minWidth minHeight) ->
  r1 = r2 \/
  Rectangle.y r1 + Rectangle.height r1 + 4 * cellSize <= Rectangle.y r2 \/
  Rectangle.y r2 + Rectangle.height r2 + 4 * cellSize <= Rectangle.y r1.
Proof.
  intros Hmin H1 H2. apply findEmptyRegions_In in H1, H2.
  destruct (kept_regions img minHeight Hmin) as (kept & Heq & _ & Hs).
  rewrite Heq in H1, H2.
  apply list_elem_of_In, list_elem_of_fmap in H1 as (g1 & -> & Hg1).
  apply list_elem_of_In, list_elem_of_fmap in H2 as (g2 & -> & Hg2).
  apply list_elem_of_In in Hg1, Hg2.
  destruct (StronglySorted_pairwise _ _ _ _ Hs Hg1 Hg2) as [->|[H|H]].
  - left. reflexivity.
  - right. left. exact H.
  - right. right. exact H.
Qed.

Lemma findEmptyRegions_full_width_bands_witness :
  Forall (fun r =>
            Rectangle.type r = "rectangle" /\ Rectangle.color r = "blue" /\
            Rectangle.strokeWidth r = 1 /\
            Rectangle.x r = 0 /\
            Rectangle.width r = info_width (RasterSpec.makeBand 3 98 33 58) /\
            0 <= Rectangle.y r /\
            Rectangle.y r mod cellSize = 0 /\
            Rectangle.height r mod cellSize = 0 /\
            default_minHeight <= Rectangle.height r /\
            Rectangle.y r + Rectangle.height r
            <= Z.max 0 (ceil_div (info_height (RasterSpec.makeBand 3 98 33 58))
                                 cellSize) * cellSize)
         (findEmptyRegions (RasterSpec.makeBand 3 98 33 58)
                           default_minWidth default_minHeight).
Proof.
  apply (findEmptyRegions_full_width_bands (RasterSpec.makeBand 3 98 33 58)
           default_minWidth default_minHeight).
  unfold default_minHeight. lia.
Defined.

Lemma findEmptyRegions_regions_apart_witness :
  Rectangle.mk "rectangle" 0 60 3 40 "blue" 1 120
  = Rectangle.mk "rectangle" 0 0 3 30 "blue" 1 90 \/
  60 + 40 + 4 * cellSize <= 0 \/ 0 + 30 + 4 * cellSize <= 60.
Proof.
  apply (findEmptyRegions_regions_apart (RasterSpec.makeBand 3 98 33 58)
           default_minWidth default_minHeight
           (Rectangle.mk "rectangle" 0 60 3 40 "blue" 1 120)
           (Rectangle.mk "rectangle" 0 0 3 30 "blue" 1 90)).
  - unfold default_minHeight. lia.
  - vm_compute. left. reflexivity.
  - vm_compute. right. left. reflexivity.
Defined.

End RegionInvariants.

(** ** Empty-region finder: images without a region, and thin bands *)

Section RegionEdgeCases.
Import JsNum Regions RasterSpec RegionSpec.

Lemma Forall_absurd {A} (P : A -> Prop) (l : list A) :
  Forall P l -> (forall x, ~ P x) -> l = [].
Proof.
  intros Hl Hp. destruct l as [|a l]; [reflexivity|].
  apply Forall_cons in Hl as [Ha _]. destruct (Hp a Ha).
Qed.

(** X7: an image with fewer grid rows than [Math.ceil(minHeight /
    cellSize)] has no region, whatever its pixels are: with the default
    [minHeight] of 30, an image of at most 25 pixel rows yields the empty
    list. *)
Theorem findEmptyRegions_short_image
    (img : Raster) (minWidth minHeight : Z) :
  0 < minHeight ->
  ceil_div (info_height img) cellSize < ceil_div minHeight cellSize ->
  findEmptyRegions img minWidth minHeight = [].
Proof.
  intros Hmin Hshort.
  destruct (kept_regions img minHeight Hmin) as (kept & Heq & Hb & _).
  unfold findEmptyRegions, findEmptyRegions_with. rewrite Heq.
  rewrite (Forall_absurd _ kept Hb); [reflexivity|].
  intros r (_ & _ & a & h & _ & _ & Ha & Hk & Hah).
  pose proof (ceil_div_5 minHeight). unfold cellSize in *. lia.
Qed.

(** X6: when every block of [cellSize] pixel rows of the image holds a
    dark pixel (intensity below 200), no grid row is empty and
    [findEmptyRegions] returns the empty list, without raising. *)
Theorem findEmptyRegions_no_empty_row
    (img : Raster) (minWidth minHeight : Z) :
  0 < minHeight ->
  (forall gy, 0 <= gy < ceil_div (info_height img) cellSize ->
     exists x y, 0 <= x < info_width img /\ 0 <= y < info_height img /\
                 y / cellSize = gy /\ isDark (pixelAt img x y) = true) ->
  findEmptyRegions img minWidth minHeight = [].
Proof.
  intros Hmin Hdark.
  assert (Hk : 0 < ceil_div minHeight cellSize).
  { pose proof (ceil_div_5 minHeight). unfold cellSize. lia. }
  unfold findEmptyRegions, findEmptyRegions_with, emptyRectangles.
  fold (gridOf img). cbv zeta. unfold scanRows.
  rewrite scan_occupied_rows_idle; [|exact Hk|].
  - unfold pushRun. cbn [currentEmptyHeight regions].
    destruct (Z.geb_spec 0 (ceil_div minHeight cellSize)); [lia|]. reflexivity.
  - intros gy Hgy. apply list_elem_of_In, elem_of_seqZ in Hgy.
    destruct (Hdark gy ltac:(lia)) as (x & y & Hx & Hy & <- & Hd).
    apply (isRowEmpty_false img x y); assumption.
Qed.

(** The scan of a raster with one dark band, when the runs of empty grid
    rows above and below the band are both high enough. *)
Lemma scanRows_band (img : Raster) (minHeight y1 y2 : Z) :
  0 < info_width img ->
  bandRaster img y1 y2 = true ->
  let a := y1 / cellSize in
  let b := ceil_div y2 cellSize in
  let gh := ceil_div (info_height img) cellSize in
  let k := ceil_div minHeight cellSize in
  0 < k -> k <= a -> y1 < y2 -> k <= gh - b ->
  scanRows (gridOf img) (ceil_div (info_width img) cellSize) gh
           (info_width img) minHeight
  = [Region.mk 0 (0 * cellSize) (info_width img) (a * cellSize);
     Region.mk 0 (b * cellSize) (info_width img) ((gh - b) * cellSize)].
Proof.
  intros HW Hband a b gh k Hk Hka Hy Hbg.
  pose proof (floor_div_5 y1) as Ha. fold cellSize in Ha. fold a in Ha.
  pose proof (ceil_div_5 y2) as Hb. fold cellSize in Hb. fold b in Hb.
  pose proof (ceil_div_5 (info_height img)) as Hgh.
  fold cellSize in Hgh. fold gh in Hgh.
  assert (Hab : a < b) by (unfold cellSize in *; lia).
  assert (Hdark : forall x y, 0 <= x < info_width img ->
                              0 <= y < info_height img ->
                              isDark (pixelAt img x y) = (y1 <=? y) && (y <? y2))
    by (intros; eapply bandRaster_isDark; eassumption).
  set (gw := ceil_div (info_width img) cellSize).
  assert (Hempty : forall gy, 0 <= gy < gh -> gy < a \/ b <= gy ->
                              isRowEmpty (gridOf img) gw gy = true).
  { intros gy Hgy Hout. apply isRowEmpty_true; [lia|].
    intros x y Hx Hy' Hdiv. rewrite Hdark by assumption.
    pose proof (floor_div_5 y) as Hfy. fold cellSize in Hfy. rewrite Hdiv in Hfy.
    apply andb_false_iff.
    destruct Hout; [left; apply Z.leb_gt|right; apply Z.ltb_ge];
      unfold cellSize in *; lia. }
  assert (Hfull : forall gy, a <= gy < b ->
                             isRowEmpty (gridOf img) gw gy = false).
  { intros gy Hgy.
    assert (Hy' : Z.max (cellSize * gy) y1 / cellSize = gy).
    { symmetry.
      apply Z.div_unique with (r := Z.max (cellSize * gy) y1 - cellSize * gy);
        unfold cellSize in *; lia. }
    rewrite <- Hy'.
    apply (isRowEmpty_false img 0 (Z.max (cellSize * gy) y1)).
    - lia.
    - unfold cellSize in *; lia.
    - rewrite Hdark by (unfold cellSize in *; lia).
      apply andb_true_iff. split; [apply Z.leb_le|apply Z.ltb_lt];
        unfold cellSize in *; lia. }
  unfold scanRows.
  replace gh with (a + ((b - a) + (gh - b))) at 1 by lia.
  rewrite seqZ_app by lia. rewrite seqZ_app by lia.
  rewrite !foldl_app.
  rewrite (scan_empty_rows _ _ _ _ (seqZ 0 a) (mkScan 0 0 [])).
  2: { simpl. lia. }
  2: { intros gy Hgy. apply list_elem_of_In, elem_of_seqZ in Hgy.
       apply Hempty; lia. }
  rewrite length_seqZ, seqZ_hd. cbn [currentEmptyHeight startY regions].
  change (0 =? 0) with true. cbv iota.
  replace (if 0 <? a then 0 else 0) with 0 by (destruct (_ <? _); reflexivity).
  replace (0 + Z.of_nat (Z.to_nat a)) with a by lia.
  rewrite (seqZ_cons (0 + a) (b - a)) by lia.
  rewrite (scan_occupied_rows _ _ _ _ (0 + a)).
  2: { fold k. lia. }
  2: { intros gy Hgy. rewrite <- seqZ_cons in Hgy by lia.
       apply list_elem_of_In, elem_of_seqZ in Hgy. apply Hfull. lia. }
  unfold pushRun at 2. cbn [currentEmptyHeight startY regions]. fold k.
  destruct (Z.geb_spec a k); [|lia]. cbn [app].
  rewrite scan_empty_rows.
  2: { simpl. lia. }
  2: { intros gy Hgy. apply list_elem_of_In, elem_of_seqZ in Hgy.
       apply Hempty; lia. }
  rewrite length_seqZ. cbn [currentEmptyHeight startY regions].
  change (0 =? 0) with true. cbv iota.
  rewrite (seqZ_cons (0 + a + (b - a)) (gh - b)) by lia. cbn [List.hd].
  replace (0 + Z.of_nat (Z.to_nat (gh - b))) with (gh - b) by lia.
  replace (0 + a + (b - a)) with b by lia.
  unfold pushRun. cbn [currentEmptyHeight startY regions]. fold k.
  destruct (Z.geb_spec (gh - b) k); [|lia]. reflexivity.
Qed.

(** X8: a dark band over the full width that covers fewer than four grid
    rows does not separate the white bands around it: when the runs of
    empty grid rows above and below the band are both high enough to
    qualify, they are merged and [findEmptyRegions] returns one rectangle,
    which spans the whole grid height, the dark band included. *)
Theorem findEmptyRegions_thin_band_swallowed
    (img : Raster) (minWidth minHeight y1 y2 : Z) :
  0 < info_width img ->
  bandRaster img y1 y2 = true ->
  0 < minHeight ->
  let a := y1 / cellSize in
  let b := ceil_div y2 cellSize in
  let gh := ceil_div (info_height img) cellSize in
  ceil_div minHeight cellSize <= a ->
  y1 < y2 -> b - a < 4 ->
  ceil_div minHeight cellSize <= gh - b ->
  findEmptyRegions img minWidth minHeight
  = [Rectangle.mk "rectangle" 0 0 (info_width img) (gh * cellSize) "blue" 1
                  (info_width img * (gh * cellSize))].
Proof.
  intros HW Hband Hmin a b gh Hka Hy Hthin Hbg.
  pose proof (ceil_div_5 minHeight) as Hk.
  pose proof (floor_div_5 y1) as Ha. fold cellSize in Ha. fold a in Ha.
  pose proof (ceil_div_5 y2) as Hb. fold cellSize in Hb. fold b in Hb.
  unfold findEmptyRegions, findEmptyRegions_with, emptyRectangles.
  fold (gridOf img). cbv zeta.
  rewrite (scanRows_band img minHeight y1 y2 HW Hband); try assumption.
  2: { unfold cellSize. lia. }
  fold a b gh.
  unfold mergeRegions. cbn [foldl mergeStep fst snd app Region.x Region.y
                            Region.width Region.height].
  destruct (Z.ltb_spec (b * cellSize - (0 * cellSize + a * cellSize)) (cellSize * 4)).
  2: { exfalso. unfold cellSize in *. lia. }
  cbn [fst snd app List.filter Region.height].
  destruct (Z.geb_spec (b * cellSize + (gh - b) * cellSize - 0 * cellSize) minHeight).
  2: { exfalso. unfold cellSize in *. lia. }
  unfold sortBy, toRectangle.
  cbn [fmap list_fmap foldr insertBy Region.x Region.y Region.width Region.height].
  replace (b * cellSize + (gh - b) * cellSize - 0 * cellSize) with (gh * cellSize)
    by (unfold cellSize; lia).
  reflexivity.
Qed.

Lemma findEmptyRegions_short_image_witness :
  findEmptyRegions (makeBand 3 25 0 0) default_minWidth default_minHeight = [].
Proof.
  apply (findEmptyRegions_short_image (makeBand 3 25 0 0)
           default_minWidth default_minHeight).
  - unfold default_minHeight. lia.
  - vm_compute. reflexivity.
Defined.

Lemma findEmptyRegions_no_empty_row_witness :
  findEmptyRegions (makeBand 3 10 0 10) default_minWidth default_minHeight = [].
Proof.
  apply (findEmptyRegions_no_empty_row (makeBand 3 10 0 10)
           default_minWidth default_minHeight).
  - unfold default_minHeight. lia.
  - intros gy Hgy. exists 0, (gy * cellSize).
    change (ceil_div (info_height (makeBand 3 10 0 10)) cellSize) with 2 in Hgy.
    assert (Hcases : gy = 0 \/ gy = 1) by lia.
    destruct Hcases as [->| ->]; vm_compute; repeat split; congruence.
Defined.

Lemma findEmptyRegions_thin_band_swallowed_witness :
  findEmptyRegions (makeBand 2 100 30 38) default_minWidth default_minHeight
  = [Rectangle.mk "rectangle" 0 0 2 100 "blue" 1 200].
Proof.
  apply (findEmptyRegions_thin_band_swallowed (makeBand 2 100 30 38)
           default_minWidth default_minHeight 30 38).
  - simpl. lia.
  - vm_compute. reflexivity.
  - unfold default_minHeight. lia.
  - vm_compute. discriminate.
  - lia.
  - vm_compute. reflexivity.
  - vm_compute. discriminate.
Defined.

End RegionEdgeCases.

(** ** Line breaker: no word is lost *)

Section SplitFacts.
Import JsString.

Lemma split_nonempty (sep : ascii) (s : string) : split sep s <> [].
Proof.
  destruct s as [|c s]; simpl; [discriminate|].
  destruct (Ascii.eqb c sep); [discriminate|].
  destruct (split sep s); discriminate.
Qed.

Lemma split_append (sep : ascii) (a b : string) :
  split sep (a ++ String sep b)%string = split sep a ++ split sep b.
Proof.
  induction a as [|c a IH]; simpl.
  - rewrite Ascii.eqb_refl. reflexivity.
  - destruct (Ascii.eqb c sep); [rewrite IH; reflexivity|].
    rewrite IH. pose proof (split_nonempty sep a) as Hne.
    destruct (split sep a); [contradiction|reflexivity].
Qed.

(** A word cut out by [split] holds no separator. *)
Lemma split_word (sep : ascii) (s : string) :
  Forall (fun w => split sep w = [w]) (split sep s).
Proof.
  induction s as [|c s IH]; simpl.
  - constructor; [reflexivity|constructor].
  - destruct (Ascii.eqb c sep) eqn:Hc.
    + constructor; [reflexivity|exact IH].
    + pose proof (split_nonempty sep s) as Hne.
      destruct (split sep s) as [|w ws]; [contradiction|].
      apply Forall_cons in IH as [Hw Hws].
      constructor; [|exact Hws]. simpl. rewrite Hc, Hw. reflexivity.
Qed.

End SplitFacts.

Section WordsKept.
Import JsString Wrap WrapSpec.

Lemma lineWords_app (l1 l2 : list string) :
  lineWords (l1 ++ l2) = lineWords l1 ++ lineWords l2.
Proof.
  unfold lineWords. rewrite fmap_app, concat_app, List.filter_app. reflexivity.
Qed.

Lemma lineWords_empty : lineWords [EmptyString] = [].
Proof. reflexivity. Qed.

Lemma lineWords_word (w : string) :
  split space w = [w] -> lineWords [w] = List.filter FontSize.nonEmpty [w].
Proof. intros Hw. unfold lineWords. simpl. rewrite Hw, app_nil_r. reflexivity. Qed.

Lemma lineWords_join (line w : string) :
  split space w = [w] ->
  lineWords [(line ++ String space w)%string]
  = lineWords [line] ++ List.filter FontSize.nonEmpty [w].
Proof.
  intros Hw. unfold lineWords. simpl. rewrite !app_nil_r.
  rewrite split_append, List.filter_app, Hw. reflexivity.
Qed.

Section Paragraph.
Variables (normalFontSize boldFontSize effectiveWidth : float).
Variables (text : string).
Variables (colorSegments : list ColorSegment.t) (boldSegments : list Segment.t).

Local Abbreviation step :=
  (wrapWord normalFontSize boldFontSize effectiveWidth text
            colorSegments boldSegments).

(** The words of the lines pushed so far and of the current line are the
    words read so far; no line that is pushed is empty. *)
Lemma wrapWord_words (w : string) (st : Line * list WrappedLine.t) :
  split space w = [w] ->
  lineWords ((WrappedLine.text <$> snd (step st w))
             ++ [currentLine (fst (step st w))])
  = lineWords ((WrappedLine.text <$> snd st) ++ [currentLine (fst st)])
    ++ List.filter FontSize.nonEmpty [w].
Proof.
  intros Hw. destruct st as [ln ls]. unfold wrapWord. cbn [fst snd].
  destruct (_ <=? _)%float; cbn [fst snd currentLine].
  - rewrite !lineWords_app, <- app_assoc. f_equal.
    destruct (currentLine ln) as [|c cl] eqn:Hcl; cbn [FontSize.nonEmpty].
    + rewrite lineWords_empty. apply lineWords_word. exact Hw.
    + rewrite append_assoc.
      change (" " ++ w)%string with (String space w).
      apply lineWords_join. exact Hw.
  - destruct (currentLine ln) as [|c cl] eqn:Hcl; cbn [FontSize.nonEmpty].
    + rewrite !lineWords_app, lineWords_empty, app_nil_r.
      rewrite (lineWords_word w Hw). reflexivity.
    + rewrite fmap_app. cbn [fmap list_fmap lineOf WrappedLine.text].
      rewrite Hcl. rewrite !lineWords_app, <- !app_assoc.
      rewrite (lineWords_word w Hw). reflexivity.
Qed.

Lemma wrapWord_fold_words (ws : list string) :
  Forall (fun w => split space w = [w]) ws ->
  forall st,
    lineWords ((WrappedLine.text <$> snd (foldl step st ws))
               ++ [currentLine (fst (foldl step st ws))])
    = lineWords ((WrappedLine.text <$> snd st) ++ [currentLine (fst st)])
      ++ List.filter FontSize.nonEmpty ws.
Proof.
  induction ws as [|w ws IH]; intros Hws st.
  - simpl. rewrite app_nil_r. reflexivity.
  - apply Forall_cons in Hws as [Hw Hws]. cbn [foldl].
    rewrite IH by exact Hws. rewrite wrapWord_words by exact Hw.
    rewrite <- app_assoc. f_equal.
    change (w :: ws) with ([w] ++ ws). rewrite List.filter_app. reflexivity.
Qed.

Lemma wrapWords_words (wrappedLines : list WrappedLine.t) :
  lineWords (WrappedLine.text <$>
               wrapWords normalFontSize boldFontSize effectiveWidth text
                         colorSegments boldSegments wrappedLines)
  = lineWords (WrappedLine.text <$> wrappedLines) ++ lineWords [text].
Proof.
  unfold wrapWords. cbv zeta.
  pose proof (wrapWord_fold_words (split space text) (split_word space text)
                (mkLine "" 0%float
                        (indexOf text (List.hd "" (split space text)) 0) [],
                 wrappedLines)) as Hfold.
  cbn [fst snd currentLine] in Hfold.
  set (st := foldl _ _ _) in *.
  rewrite (lineWords_app _ [EmptyString]), lineWords_empty, app_nil_r in Hfold.
  replace (lineWords [text])
    with (List.filter FontSize.nonEmpty (split space text))
    by (unfold lineWords; simpl; rewrite app_nil_r; reflexivity).
  rewrite <- Hfold. rewrite lineWords_app.
  destruct (currentLine (fst st)) as [|c cl] eqn:Hcl; cbn [FontSize.nonEmpty].
  - rewrite lineWords_empty, app_nil_r. reflexivity.
  - rewrite fmap_app, lineWords_app. cbn [fmap list_fmap lineOf WrappedLine.text].
    rewrite Hcl. reflexivity.
Qed.

Lemma hasWord_word (w : string) :
  split space w = [w] -> hasWord w = FontSize.nonEmpty w.
Proof.
  intros Hw. unfold hasWord. rewrite (lineWords_word w Hw).
  destruct w; reflexivity.
Qed.

Lemma hasWord_join (line w : string) :
  split space w = [w] -> hasWord line = true ->
  hasWord (line ++ String space w)%string = true.
Proof.
  intros Hw Hline. unfold hasWord in *. rewrite (lineWords_join line w Hw).
  destruct (lineWords [line]); [discriminate|reflexivity].
Qed.

(** The lines pushed are text lines with a word, and so is the current
    line unless it is empty. *)
Lemma wrapWord_proper (w : string) (st : Line * list WrappedLine.t) :
  split space w = [w] ->
  Forall (fun l => properLine l = true) (snd st) ->
  currentLine (fst st) = EmptyString \/ hasWord (currentLine (fst st)) = true ->
  Forall (fun l => properLine l = true) (snd (step st w)) /\
  (currentLine (fst (step st w)) = EmptyString \/
   hasWord (currentLine (fst (step st w))) = true).
Proof.
  intros Hw Hst Hcur. destruct st as [ln ls]. unfold wrapWord. cbn [fst snd] in *.
  assert (Hword : w = EmptyString \/ hasWord w = true).
  { rewrite (hasWord_word w Hw). destruct w; [left|right]; reflexivity. }
  destruct (_ <=? _)%float; cbn [fst snd currentLine].
  - split; [exact Hst|].
    destruct (currentLine ln) as [|c cl] eqn:Hcl; cbn [FontSize.nonEmpty].
    + exact Hword.
    + right. rewrite append_assoc. change (" " ++ w)%string with (String space w).
      apply hasWord_join; [exact Hw|].
      destruct Hcur as [Hcur|Hcur]; [discriminate|exact Hcur].
  - split; [|exact Hword].
    destruct (currentLine ln) as [|c cl] eqn:Hcl; cbn [FontSize.nonEmpty];
      [exact Hst|].
    apply Forall_app. split; [exact Hst|]. constructor; [|constructor].
    unfold properLine, lineOf. cbn [WrappedLine.isParagraphSpace WrappedLine.text].
    rewrite Hcl. destruct Hcur as [Hcur|Hcur]; [discriminate|exact Hcur].
Qed.

Lemma wrapWords_proper (wrappedLines : list WrappedLine.t) :
  Forall (fun l => properLine l = true) wrappedLines ->
  Forall (fun l => properLine l = true)
         (wrapWords normalFontSize boldFontSize effectiveWidth text
                    colorSegments boldSegments wrappedLines).
Proof.
  intros Hls. unfold wrapWords. cbv zeta.
  set (st0 := (mkLine "" 0%float _ [], wrappedLines)).
  assert (Hfold :
    Forall (fun l => properLine l = true)
           (snd (foldl step st0 (split space text))) /\
    (currentLine (fst (foldl step st0 (split space text))) = EmptyString \/
     hasWord (currentLine (fst (foldl step st0 (split space text)))) = true)).
  { assert (H0 : Forall (fun l => properLine l = true) (snd st0)) by exact Hls.
    assert (H1 : currentLine (fst st0) = EmptyString \/
                 hasWord (currentLine (fst st0)) = true) by (left; reflexivity).
    pose proof (split_word space text) as Hwords.
    clearbody st0. revert st0 H0 H1.
    induction Hwords as [|w ws Hw _ IH]; intros st0 H0 H1; [split; assumption|].
    cbn [foldl]. destruct (wrapWord_proper w st0 Hw H0 H1) as [H0' H1'].
    apply IH; assumption. }
  destruct Hfold as [Hfold Hcur].
  set (st := foldl _ _ _) in *.
  destruct (currentLine (fst st)) as [|c cl] eqn:Hcl; cbn [FontSize.nonEmpty];
    [exact Hfold|].
  apply Forall_app. split; [exact Hfold|]. constructor; [|constructor].
  unfold properLine, lineOf. cbn [WrappedLine.isParagraphSpace WrappedLine.text].
  rewrite Hcl. destruct Hcur as [Hcur|Hcur]; [discriminate|exact Hcur].
Qed.

End Paragraph.

Lemma wrapParagraphs_fold (normalFontSize boldFontSize effectiveWidth : float)
    (text : string) (colorSegments : list ColorSegment.t)
    (boldSegments : list Segment.t) (paras : list string) :
  forall st : list WrappedLine.t * bool,
    Forall (fun l => properLine l = true) (fst st) ->
    exists st',
      Exc.foldM (wrapParagraph normalFontSize boldFontSize effectiveWidth)
                (paragraphOf text colorSegments boldSegments <$> paras) st
      = inr st' /\
      lineWords (WrappedLine.text <$> fst st')
      = lineWords (WrappedLine.text <$> fst st) ++ lineWords paras /\
      Forall (fun l => properLine l = true) (fst st').
Proof.
  induction paras as [|para paras IH]; intros st Hst.
  - exists st. simpl. split; [reflexivity|]. split; [|exact Hst].
    unfold lineWords at 3. simpl. rewrite app_nil_r. reflexivity.
  - cbn [fmap list_fmap Exc.foldM]. unfold wrapParagraph at 1.
    cbn [paragraphOf Paragraph.text Paragraph.boldSegments
         Paragraph.colorSegments Exc.prop_of Exc.ret Exc.bind].
    match goal with |- context [Exc.foldM _ _ (?lines, false)] =>
      destruct (IH (lines, false)) as (st' & Hfold & Hwords & Hproper)
    end.
    { cbn [fst]. apply wrapWords_proper.
      destruct (snd st); [exact Hst|].
      apply Forall_app. split; [exact Hst|]. constructor; [reflexivity|constructor]. }
    exists st'. split; [exact Hfold|]. split; [|exact Hproper].
    rewrite Hwords. cbn [fst]. rewrite wrapWords_words.
    change (para :: paras) with ([para] ++ paras).
    rewrite (lineWords_app [para]), app_assoc. f_equal. f_equal.
    destruct (snd st); [reflexivity|].
    rewrite fmap_app, lineWords_app. cbn [fmap list_fmap].
    change (WrappedLine.text paragraphSpace) with EmptyString.
    rewrite lineWords_empty, app_nil_r. reflexivity.
Qed.

(** The words of the wrapped lines, and the shape of the lines. *)
Lemma layoutLines_keeps_words
    (imageBuffer : Cache.Buffer) (textContent : Paragraph.t)
    (emptyRegions : list Rectangle.t) (layout : Layout) :
  layoutLines imageBuffer textContent emptyRegions = inr (Some layout) ->
  lineWords (WrappedLine.text <$> wrappedLines layout)
  = textWords (textOf textContent) /\
  Forall (fun line => properLine line = true) (wrappedLines layout).
Proof.
  unfold layoutLines. fold (textOf textContent).
  destruct (List.filter _ emptyRegions) as [|r rs]; [discriminate|].
  destruct (Paragraph.colorSegments textContent) as [cs|];
    cbn [Exc.prop_of Exc.ret Exc.bind Exc.throw]; [|discriminate].
  destruct (Paragraph.boldSegments textContent) as [bs|];
    cbn [Exc.prop_of Exc.ret Exc.bind Exc.throw]; [|discriminate].
  unfold wrapParagraphs.
  match goal with |- context [Exc.foldM (wrapParagraph ?n ?b ?w) _ _] =>
    destruct (wrapParagraphs_fold n b w (textOf textContent) cs bs
                (split newline (textOf textContent)) ([], true))
      as (st' & Hfold & Hwords & Hproper); [constructor|]
  end.
  rewrite Hfold. cbn [Exc.ret Exc.bind]. intros H. injection H as <-.
  cbn [wrappedLines]. split; [|exact Hproper].
  rewrite Hwords. reflexivity.
Qed.

(** X9: whenever [insertTextIntoRegions] gets as far as the wrapped
    lines, the non-empty words of the lines, read line by line, are the
    non-empty words of the text, in the same order: the wrap loses,
    repeats and reorders no word, however narrow the region is.  Every
    wrapped line is a paragraph spacer without text or a line of text
    that holds a word. *)
Theorem insertTextIntoRegions_keeps_every_word
    (imageBuffer : Cache.Buffer) (textContent : Paragraph.t)
    (emptyRegions : list Rectangle.t) (layout : Layout) :
  layoutLines imageBuffer textContent emptyRegions = inr (Some layout) ->
  lineWords (WrappedLine.text <$> wrappedLines layout)
  = textWords (textOf textContent) /\
  Forall (fun line => properLine line = true) (wrappedLines layout).
Proof.
  apply layoutLines_keeps_words.
Qed.

Lemma insertTextIntoRegions_keeps_every_word_witness :
  lineWords (WrappedLine.text <$> wrappedLines Fixtures.sampleLayout)
  = textWords (textOf Fixtures.sampleText) /\
  Forall (fun line => properLine line = true)
         (wrappedLines Fixtures.sampleLayout).
Proof.
  apply (insertTextIntoRegions_keeps_every_word [] Fixtures.sampleText
           Fixtures.sampleRegions Fixtures.sampleLayout).
  vm_compute. reflexivity.
Defined.

End WordsKept.

(** ** The stand-alone word wrap *)

Section WrapTextFacts.
Import JsNum JsString WrapText WrapSpec.

Lemma wordsOf_app (l1 l2 : list Line) : wordsOf (l1 ++ l2) = wordsOf l1 ++ wordsOf l2.
Proof. unfold wordsOf. rewrite fmap_app, concat_app. reflexivity. Qed.

Lemma splitSpaces_nonempty (inSpace : bool) (s : string) :
  splitSpaces inSpace s <> [].
Proof.
  revert inSpace. induction s as [|c s IH]; intros inSpace; simpl; [discriminate|].
  destruct (isWhiteSpace c).
  - destruct inSpace; [apply IH|discriminate].
  - destruct (splitSpaces false s); discriminate.
Qed.

Section Wrap.
Variables (text : string) (maxWidth fontSize x y : float).
Variables (colorSegments : list ColorSegment.t) (boldSegments : list Segment.t).

Local Abbreviation step :=
  (wrapWord text maxWidth fontSize x y colorSegments boldSegments).

Lemma wrapWord_inv (read : list string) (st : Loop) (word : string) :
  wrapInv x y fontSize read st ->
  wrapInv x y fontSize (read ++ [word]) (step st word).
Proof.
  intros (Hwords & Hlines & Hcur & Hplaced). unfold wrapWord. cbv zeta.
  destruct (_ && _) eqn:Hbreak.
  - apply andb_true_iff in Hbreak as [_ Hne].
    assert (Hsegs : segments (currentLine st) <> [])
      by (destruct (segments (currentLine st)); [discriminate|discriminate]).
    unfold wrapInv. cbn [lines currentLine segments].
    split; [|split; [|split]].
    + rewrite wordsOf_app, Hwords. unfold wordsOf. simpl. reflexivity.
    + apply Forall_app. split; [exact Hlines|]. constructor; [exact Hsegs|constructor].
    + intros _. discriminate.
    + intros i l Hl.
      apply lookup_app_Some in Hl as [Hi|[Hlen Hi]];
        [apply Hplaced; exact Hi|].
      destruct (i - length (lines st ++ [currentLine st]))%nat eqn:Hd;
        [|destruct n; discriminate].
      simpl in Hi. injection Hi as <-. cbn [line_x line_y lineHeight].
      split; [reflexivity|]. split; [|reflexivity].
      assert (Hi : i = length (lines st ++ [currentLine st])) by lia.
      rewrite Hi. rewrite length_app. simpl.
      rewrite Nat.add_1_r. reflexivity.
  - unfold wrapInv. cbn [lines currentLine segments].
    split; [|split; [exact Hlines|split]].
    + rewrite wordsOf_app in *. rewrite <- Hwords, <- app_assoc. f_equal.
      unfold wordsOf. simpl. rewrite !app_nil_r, fmap_app. reflexivity.
    + intros _. destruct (segments (currentLine st)); discriminate.
    + intros i l Hl.
      apply lookup_app_Some in Hl as [Hi|[Hlen Hi]].
      * apply Hplaced. apply lookup_app_l_Some. exact Hi.
      * destruct (i - length (lines st))%nat eqn:Hd; [|destruct n; discriminate].
        simpl in Hi. injection Hi as <-. cbn [line_x line_y lineHeight].
        apply (Hplaced i). rewrite lookup_app_r by exact Hlen.
        rewrite Hd. reflexivity.
Qed.

Lemma wrapWord_fold_inv (ws : list string) :
  forall (read : list string) (st : Loop),
    wrapInv x y fontSize read st ->
    wrapInv x y fontSize (read ++ ws) (foldl step st ws).
Proof.
  induction ws as [|w ws IH]; intros read st Hst.
  - rewrite app_nil_r. exact Hst.
  - cbn [foldl]. change (w :: ws) with ([w] ++ ws). rewrite app_assoc.
    apply IH. apply wrapWord_inv. exact Hst.
Qed.

End Wrap.

(** X10: for a text that is not empty, the words of the lines of
    [wrapText], read line by line, are the words of [text.split(/\s+/)]
    in the same order; no line is without words; and line number [i] is
    placed at [x], at [y] for the first line and at
    [y + i * fontSize * 1.3] for the others, with a line height of
    [fontSize * 1.3]. *)
Theorem wrapText_keeps_every_word
    (text : string) (maxWidth fontSize x y : float)
    (colorSegments : list ColorSegment.t) (boldSegments : list Segment.t) :
  FontSize.nonEmpty text = true ->
  let result := wrapText text maxWidth fontSize x y colorSegments boldSegments in
  wordsOf result = splitSpaces false text /\
  Forall (fun line => segments line <> []) result /\
  placed x y fontSize result.
Proof.
  intros Htext. cbv zeta. unfold wrapText. rewrite Htext. cbv zeta.
  pose proof (wrapWord_fold_inv text maxWidth fontSize x y colorSegments
                boldSegments (splitSpaces false text) []
                (mkLoop [] (mkLine x y [] 0%float (fontSize * 1.3)%float) 0 0))
    as Hinv.
  cbn [app] in Hinv.
  destruct Hinv as (Hwords & Hlines & Hcur & Hplaced).
  { unfold wrapInv. cbn [lines currentLine segments app].
    split; [reflexivity|]. split; [constructor|]. split; [congruence|].
    intros [|i] l Hl; [|discriminate]. simpl in Hl. injection Hl as <-.
    repeat split; reflexivity. }
  specialize (Hcur (splitSpaces_nonempty false text)).
  set (st := foldl _ _ _) in *.
  destruct (segments (currentLine st)) eqn:Hsegs; [contradiction|].
  cbn [FontSize.nonEmpty_list].
  split; [exact Hwords|]. split; [|exact Hplaced].
  apply Forall_app. split; [exact Hlines|].
  constructor; [rewrite Hsegs; discriminate|constructor].
Qed.

Lemma wrapText_keeps_every_word_witness :
  wordsOf (wrapText "aaaa bbi zz" 85 22 0 0 [] []) = splitSpaces false "aaaa bbi zz" /\
  Forall (fun line => segments line <> []) (wrapText "aaaa bbi zz" 85 22 0 0 [] []) /\
  placed 0 0 22 (wrapText "aaaa bbi zz" 85 22 0 0 [] []).
Proof.
  apply (wrapText_keeps_every_word "aaaa bbi zz" 85 22 0 0 [] []).
  reflexivity.
Defined.

End WrapTextFacts.

(** ** Text insertion: which regions and inputs give text objects *)

Section OutcomeFacts.
Import JsString Wrap WrapSpec.

(** The layout half of [insertTextIntoRegions]: what it has computed
    when it returns the image or calls [drawRegionsWithText]. *)
Lemma insertion_textObjects_outcome
    (imageBuffer : Cache.Buffer) (textContent : Paragraph.t)
    (emptyRegions : list Rectangle.t) :
  match List.filter (fun r => (Rectangle.width r >=? 100)
                              && (Rectangle.height r >=? 30)) emptyRegions with
  | [] => insertion_textObjects imageBuffer textContent emptyRegions = inr None
  | r :: _ =>
      match Paragraph.colorSegments textContent,
            Paragraph.boldSegments textContent with
      | Some _, Some _ =>
          exists layout,
            layoutLines imageBuffer textContent emptyRegions = inr (Some layout) /\
            region layout = regionOf r /\
            insertion_textObjects imageBuffer textContent emptyRegions
            = inr (Some (textObjectsOf layout))
      | _, _ =>
          exists e,
            insertion_textObjects imageBuffer textContent emptyRegions = inl e
      end
  end.
Proof.
  unfold insertion_textObjects, layoutLines. fold (textOf textContent).
  destruct (List.filter _ emptyRegions) as [|r rs]; [reflexivity|].
  destruct (Paragraph.colorSegments textContent) as [cs|];
    cbn [Exc.prop_of Exc.ret Exc.bind Exc.throw]; [|destruct (Paragraph.boldSegments textContent); eauto].
  destruct (Paragraph.boldSegments textContent) as [bs|];
    cbn [Exc.prop_of Exc.ret Exc.bind Exc.throw]; [|eauto].
  unfold wrapParagraphs.
  match goal with |- context [Exc.foldM (wrapParagraph ?n ?b ?w) _ _] =>
    destruct (wrapParagraphs_fold n b w (textOf textContent) cs bs
                (split newline (textOf textContent)) ([], true))
      as (st' & Hfold & _ & _); [constructor|]
  end.
  rewrite Hfold. cbn [Exc.ret Exc.bind].
  eexists. split; [reflexivity|]. split; reflexivity.
Qed.

(** X11: [insertTextIntoRegions] looks for the first region of at least
    100 by 30 pixels.  When there is none it returns the image as it is,
    without reading the segments and without calling
    [drawRegionsWithText].  When there is one and [colorSegments] and
    [boldSegments] are both present, it lays the text out in that region,
    calls [drawRegionsWithText] with the image, that region and the text
    objects of the layout, and returns what the call returns: it throws
    exactly when [drawRegionsWithText] throws.  When one of the two is
    [undefined] it throws before the call, whatever [drawRegionsWithText]
    would do. *)
Theorem insertTextIntoRegions_outcome
    (imageBuffer : Cache.Buffer) (textContent : Paragraph.t)
    (emptyRegions : list Rectangle.t) :
  match List.filter (fun r => (Rectangle.width r >=? 100)
                              && (Rectangle.height r >=? 30)) emptyRegions with
  | [] =>
      forall drawRegionsWithText,
        insertTextIntoRegions drawRegionsWithText imageBuffer textContent
                              emptyRegions
        = inr imageBuffer
  | r :: _ =>
      match Paragraph.colorSegments textContent,
            Paragraph.boldSegments textContent with
      | Some _, Some _ =>
          exists layout,
            layoutLines imageBuffer textContent emptyRegions = inr (Some layout) /\
            region layout = regionOf r /\
            forall drawRegionsWithText,
              insertTextIntoRegions drawRegionsWithText imageBuffer textContent
                                    emptyRegions
              = drawRegionsWithText imageBuffer [r] (textObjectsOf layout)
      | _, _ =>
          exists e,
            forall drawRegionsWithText,
              insertTextIntoRegions drawRegionsWithText imageBuffer textContent
                                    emptyRegions
              = inl e
      end
  end.
Proof.
  pose proof (insertion_textObjects_outcome imageBuffer textContent emptyRegions)
    as Hobjects.
  unfold insertTextIntoRegions.
  destruct (List.filter _ emptyRegions) as [|r rs]; [reflexivity|].
  destruct (Paragraph.colorSegments textContent) as [cs|],
           (Paragraph.boldSegments textContent) as [bs|].
  - destruct Hobjects as (layout & Hlayout & Hregion & Hobjects).
    exists layout. split; [exact Hlayout|]. split; [exact Hregion|].
    intros draw. rewrite Hobjects. reflexivity.
  - destruct Hobjects as [e He]. exists e. intros draw. rewrite He. reflexivity.
  - destruct Hobjects as [e He]. exists e. intros draw. rewrite He. reflexivity.
  - destruct Hobjects as [e He]. exists e. intros draw. rewrite He. reflexivity.
Qed.

End OutcomeFacts.

(** ** Compositor: the upscale factor *)

Section UpscaleFacts.
Import JsNum Upscale.

Lemma upscaleChecked_all :
  forallb upscaleChecked (seqZ 1 1199) = true.
Proof. vm_compute. reflexivity. Qed.

(** [Math_round] on the corner cases of [Math.round]. *)
Lemma Math_round_samples :
  (Math_round 2.5 =? 3)%float = true /\ (Math_round (-2.5) =? -2)%float = true /\
  (Math_round 0.49999999999999994 =? 0)%float = true /\
  Prim2SF (Math_round (-0.3)) = S754_zero true /\
  (Math_round 2.4 =? 2)%float = true /\ (Math_round (-2.6) =? -3)%float = true
  /\ (Math_round 1e300 =? 1e300)%float = true.
Proof. vm_compute. repeat split; reflexivity. Qed.

(** X12: for an image of at least one pixel each way, the upscale factor
    of [drawRegionsWithText] lies between 1 and 2; it is 1 exactly when the
    smaller side is at least 1200 pixels, and 2 when the smaller side is at
    most 600; and when the image is upscaled its smaller side [m] becomes
    exactly [min(2 m, 1200)] pixels after [Math.round]. *)
Theorem drawRegionsWithText_upscale (width height : Z) :
  1 <= width -> 1 <= height ->
  let m := Z.min width height in
  let factor := upscaleFactorOf width height in
  ((1 <=? factor) && (factor <=? 2))%float = true /\
  (1200 <= m -> factor = 1%float) /\
  (m < 1200 -> (1 <? factor)%float = true) /\
  (m <= 600 -> (factor =? 2)%float = true) /\
  (m < 1200 ->
   (Math_round (Z2F m * factor) =? Z2F (Z.min (2 * m) 1200))%float = true).
Proof.
  intros Hw Hh. cbv zeta. unfold upscaleFactorOf.
  set (m := Z.min width height). assert (Hm : 1 <= m) by lia. clearbody m.
  unfold UPSCALE_THRESHOLD.
  destruct (Z.ltb_spec m 1200) as [Hlt|Hge].
  - pose proof upscaleChecked_all as Hall. rewrite forallb_forall in Hall.
    specialize (Hall m). rewrite <- list_elem_of_In, elem_of_seqZ in Hall.
    specialize (Hall ltac:(lia)). unfold upscaleChecked, upscaleFactorOf in Hall.
    cbv zeta in Hall. rewrite Z.min_id in Hall. unfold UPSCALE_THRESHOLD in Hall.
    destruct (Z.ltb_spec m 1200); [|lia].
    apply andb_true_iff in Hall as [Hall Hround].
    apply andb_true_iff in Hall as [Hrange Htwo].
    apply andb_true_iff in Hrange as [Hone Hmax].
    split; [|split; [lia|split; [intros _; exact Hone|split]]].
    + rewrite Hmax, andb_true_r.
      rewrite FloatAxioms.leb_spec. rewrite FloatAxioms.ltb_spec in Hone.
      unfold SFleb. unfold SFltb in Hone.
      destruct (SFcompare _ _) as [[]|]; try discriminate; reflexivity.
    + intros Hsix. destruct (Z.leb_spec m 600); [exact Htwo|lia].
    + intros _. exact Hround.
  - split; [vm_compute; reflexivity|].
    split; [reflexivity|]. split; [lia|]. split; lia.
Qed.

Lemma drawRegionsWithText_upscale_witness :
  ((1 <=? upscaleFactorOf 800 1000) && (upscaleFactorOf 800 1000 <=? 2))%float
  = true /\
  (1200 <= Z.min 800 1000 -> upscaleFactorOf 800 1000 = 1%float) /\
  (Z.min 800 1000 < 1200 -> (1 <? upscaleFactorOf 800 1000)%float = true) /\
  (Z.min 800 1000 <= 600 -> (upscaleFactorOf 800 1000 =? 2)%float = true) /\
  (Z.min 800 1000 < 1200 ->
   (Math_round (Z2F (Z.min 800 1000) * upscaleFactorOf 800 1000)
    =? Z2F (Z.min (2 * Z.min 800 1000) 1200))%float = true).
Proof.
  apply (drawRegionsWithText_upscale 800 1000); lia.
Defined.

End UpscaleFacts.

(** ** Order of JavaScript numbers *)

Section FloatOrder.
Import JsNum.

Lemma ltb_leb (a b : float) : (a <? b)%float = true -> (a <=? b)%float = true.
Proof.
  rewrite FloatAxioms.ltb_spec, FloatAxioms.leb_spec. unfold SFltb, SFleb.
  destruct (SFcompare _ _) as [[]|]; try discriminate; reflexivity.
Qed.

Lemma leb_refl (a : float) : is_nan a = false -> (a <=? a)%float = true.
Proof.
  unfold is_nan. rewrite FloatAxioms.eqb_spec, FloatAxioms.leb_spec.
  unfold SFeqb, SFleb.
  destruct (SFcompare _ _) as [[]|]; try discriminate; reflexivity.
Qed.

Lemma SFcompare_total (x y : spec_float) :
  SFcompare x x = Some Eq -> SFcompare y y = Some Eq ->
  SFltb x y = false -> SFltb y x = false -> SFleb x y = true.
Proof.
  unfold SFltb, SFleb.
  destruct x as [sx|sx| |sx mx ex], y as [sy|sy| |sy my ey]; simpl;
    try discriminate; try reflexivity;
    try (destruct sx; try destruct sy; simpl; intros; try discriminate; reflexivity).
  intros _ _.
  change (PosDef.Pos.compare_cont Eq my mx) with (Pos.compare my mx).
  change (PosDef.Pos.compare_cont Eq mx my) with (Pos.compare mx my).
  rewrite (Z.compare_antisym ex ey), (Pos.compare_antisym mx my).
  destruct sx, sy; simpl; try discriminate; try reflexivity;
    destruct (ex ?= ey); simpl; try discriminate; try reflexivity;
    destruct (mx ?= my)%positive; simpl; try discriminate; reflexivity.
Qed.

(** [Math.max] is NaN or at least its first argument. *)
Lemma Math_max_lower (a b : float) :
  is_nan (Math_max a b) = true \/ (a <=? Math_max a b)%float = true.
Proof.
  unfold Math_max.
  destruct (is_nan a) eqn:Ha; [left; exact Ha|].
  destruct (is_nan b) eqn:Hb; [left; exact Hb|]. right.
  destruct (a <? b)%float eqn:Hab; [apply ltb_leb; exact Hab|].
  destruct (b <? a)%float eqn:Hba; [apply leb_refl; exact Ha|].
  destruct (get_sign a); [|apply leb_refl; exact Ha].
  rewrite FloatAxioms.leb_spec.
  rewrite FloatAxioms.ltb_spec in Hab, Hba.
  unfold is_nan in Ha, Hb. rewrite FloatAxioms.eqb_spec in Ha, Hb.
  apply negb_false_iff in Ha, Hb. unfold SFeqb in Ha, Hb.
  apply SFcompare_total; try assumption.
  - destruct (SFcompare (Prim2SF a) (Prim2SF a)) as [[]|]; try discriminate; reflexivity.
  - destruct (SFcompare (Prim2SF b) (Prim2SF b)) as [[]|]; try discriminate; reflexivity.
Qed.

End FloatOrder.

(** ** Text insertion: where the text starts *)

Section PlacementFacts.
Import JsNum JsString Wrap Placement.

Lemma determineVerticalAlignment_cases (region : Region.t)
    (totalTextHeight : float) (textLines : list WrappedLine.t) :
  determineVerticalAlignment region totalTextHeight textLines = "center" \/
  determineVerticalAlignment region totalTextHeight textLines = "top".
Proof.
  unfold determineVerticalAlignment. cbv zeta.
  destruct (_ || _); [left; reflexivity|].
  destruct (_ <? _)%float; [right; reflexivity|].
  destruct (existsb _ _); [right|left]; reflexivity.
Qed.

(** X13: [determineVerticalAlignment] answers ["center"] or ["top"],
    never ["bottom"], so the [case "bottom"] of the [switch] in
    [insertTextIntoRegions] is never taken; and the [startY] from which
    the text objects are laid out is NaN or at least
    [region.y + topPadding]: the text never starts above the top padding
    of the region, also when it is higher than the region. *)
Theorem insertTextIntoRegions_starts_below_top_padding (layout : Layout) :
  textObjectsOf layout
  = snd (foldl (textObjectOf (FontPlan.normalFontSize (plan layout))
                             (FontPlan.boldFontSize (plan layout))
                             (lineHeightOf layout) (paragraphSpacingOf layout)
                             (textStartXOf layout) (effectiveWidth layout))
               (startYOf layout, []) (wrappedLines layout)) /\
  (verticalAlignmentOf layout = "center" \/ verticalAlignmentOf layout = "top") /\
  startYOf layout
  = Math_max (topOf layout)
      (Math_min (if String.eqb (verticalAlignmentOf layout) "top"
                 then topOf layout
                 else (Z2F (Region.y (region layout))
                       + (Z2F (Region.height (region layout))
                          - totalTextHeightOf layout) / 2)%float)
                (bottomOf layout)) /\
  (is_nan (startYOf layout) = true \/
   (topOf layout <=? startYOf layout)%float = true).
Proof.
  split; [reflexivity|].
  split; [apply determineVerticalAlignment_cases|].
  split; [|apply Math_max_lower].
  unfold startYOf. cbv zeta.
  destruct (determineVerticalAlignment_cases (region layout)
              (totalTextHeightOf layout) (wrappedLines layout)) as [H|H];
    unfold verticalAlignmentOf; rewrite H; reflexivity.
Qed.

End PlacementFacts.

(** ** Text insertion: the text objects *)

Section TextObjectFacts.
Import JsNum JsString Wrap WrapSpec Placement.

Lemma hasWord_nonEmpty (s : string) : hasWord s = true -> FontSize.nonEmpty s = true.
Proof. destruct s; [discriminate|reflexivity]. Qed.

Section Objects.
Variables (normalFontSize boldFontSize lineHeight paragraphSpacing : float).
Variables (textStartX effectiveWidth : float).

Local Abbreviation step :=
  (textObjectOf normalFontSize boldFontSize lineHeight paragraphSpacing
                textStartX effectiveWidth).

(** One text object for a line of text, none for a spacer. *)
Lemma textObjectOf_text (line : WrappedLine.t) (st : float * list TextObject.t) :
  properLine line = true ->
  TextObject.text <$> snd (step st line)
  = (TextObject.text <$> snd st)
    ++ (if WrappedLine.isParagraphSpace line then []
        else [WrappedLine.text line]).
Proof.
  intros Hline. unfold textObjectOf, properLine in *.
  destruct (WrappedLine.isParagraphSpace line) eqn:Hsp.
  - rewrite app_nil_r. destruct (_ && _); reflexivity.
  - rewrite (hasWord_nonEmpty _ Hline). cbn [negb andb snd].
    rewrite fmap_app. reflexivity.
Qed.

Lemma textObjectOf_texts (lines : list WrappedLine.t) :
  Forall (fun l => properLine l = true) lines ->
  forall st,
    TextObject.text <$> snd (foldl step st lines)
    = (TextObject.text <$> snd st)
      ++ (WrappedLine.text <$>
            List.filter (fun l => negb (WrappedLine.isParagraphSpace l)) lines).
Proof.
  intros Hall. induction Hall as [|line lines Hline _ IH]; intros st.
  - simpl. rewrite app_nil_r. reflexivity.
  - cbn [foldl List.filter]. rewrite IH, (textObjectOf_text line st Hline).
    rewrite <- app_assoc. f_equal.
    destruct (WrappedLine.isParagraphSpace line); reflexivity.
Qed.

Lemma textObjectOf_shape (lines : list WrappedLine.t) :
  forall st,
    Forall (fun obj =>
              TextObject.type obj = "text" /\
              TextObject.x obj = (textStartX + effectiveWidth / 2)%float /\
              TextObject.textAnchor obj = "middle" /\
              TextObject.dominantBaseline obj = "middle" /\
              (TextObject.fontSize obj = normalFontSize /\
               TextObject.fontWeight obj = "normal" \/
               TextObject.fontSize obj = boldFontSize /\
               TextObject.fontWeight obj = "bold")) (snd st) ->
    Forall (fun obj =>
              TextObject.type obj = "text" /\
              TextObject.x obj = (textStartX + effectiveWidth / 2)%float /\
              TextObject.textAnchor obj = "middle" /\
              TextObject.dominantBaseline obj = "middle" /\
              (TextObject.fontSize obj = normalFontSize /\
               TextObject.fontWeight obj = "normal" \/
               TextObject.fontSize obj = boldFontSize /\
               TextObject.fontWeight obj = "bold")) (snd (foldl step st lines)).
Proof.
  induction lines as [|line lines IH]; intros st Hst; [exact Hst|].
  cbn [foldl]. apply IH. unfold textObjectOf.
  destruct (_ && _); [exact Hst|].
  destruct (WrappedLine.isParagraphSpace line); [exact Hst|]. cbn [snd].
  apply Forall_app. split; [exact Hst|]. constructor; [|constructor].
  cbn. destruct (WrappedLine.isBold line); tauto.
Qed.

End Objects.

Lemma lineWords_cons (s : string) (texts : list string) :
  lineWords (s :: texts) = lineWords [s] ++ lineWords texts.
Proof. apply (lineWords_app [s] texts). Qed.

Lemma lineWords_spacers (lines : list WrappedLine.t) :
  Forall (fun l => properLine l = true) lines ->
  lineWords (WrappedLine.text <$>
               List.filter (fun l => negb (WrappedLine.isParagraphSpace l)) lines)
  = lineWords (WrappedLine.text <$> lines) /\
  Forall (fun s => hasWord s = true)
         (WrappedLine.text <$>
            List.filter (fun l => negb (WrappedLine.isParagraphSpace l)) lines).
Proof.
  intros Hall. induction Hall as [|line lines Hline _ [IH1 IH2]].
  - split; [reflexivity|constructor].
  - cbn [List.filter fmap list_fmap]. unfold properLine in Hline.
    rewrite (lineWords_cons (WrappedLine.text line)).
    destruct (WrappedLine.isParagraphSpace line); cbn [negb].
    + destruct (WrappedLine.text line); [|discriminate].
      rewrite lineWords_empty. split; assumption.
    + cbn [fmap list_fmap]. rewrite (lineWords_cons (WrappedLine.text line)).
      split; [f_equal; exact IH1|constructor; assumption].
Qed.

Lemma lineWords_nil (texts : list string) :
  Forall (fun s => hasWord s = true) texts -> lineWords texts = [] -> texts = [].
Proof.
  intros Hall Hnil. destruct texts as [|s texts]; [reflexivity|].
  apply Forall_cons in Hall as [Hs _].
  rewrite lineWords_cons in Hnil. unfold hasWord in Hs.
  destruct (lineWords [s]); discriminate.
Qed.

(** X19: the text objects that [insertTextIntoRegions] hands to the
    compositor are one per wrapped line of text, with the text of the line,
    and none for a paragraph spacer; every object holds a word, and the
    non-empty words of the objects, read in order, are the non-empty words
    of the text: every word is drawn, once; no object is built exactly
    when the text has no word.  Every object is of type ["text"], anchored
    in the middle at the middle of the effective width, and has the normal
    size and weight or the bold ones. *)
Theorem insertTextIntoRegions_draws_every_word
    (imageBuffer : Cache.Buffer) (textContent : Paragraph.t)
    (emptyRegions : list Rectangle.t) (layout : Layout) :
  layoutLines imageBuffer textContent emptyRegions = inr (Some layout) ->
  insertion_textObjects imageBuffer textContent emptyRegions
  = inr (Some (textObjectsOf layout)) /\
  TextObject.text <$> textObjectsOf layout
  = WrappedLine.text <$>
      List.filter (fun l => negb (WrappedLine.isParagraphSpace l))
                  (wrappedLines layout) /\
  Forall (fun obj => hasWord (TextObject.text obj) = true) (textObjectsOf layout) /\
  lineWords (TextObject.text <$> textObjectsOf layout)
  = textWords (textOf textContent) /\
  (textObjectsOf layout = [] <-> textWords (textOf textContent) = []) /\
  Forall (fun obj =>
            TextObject.type obj = "text" /\
            TextObject.x obj
            = (textStartXOf layout + effectiveWidth layout / 2)%float /\
            TextObject.textAnchor obj = "middle" /\
            TextObject.dominantBaseline obj = "middle" /\
            (TextObject.fontSize obj = FontPlan.normalFontSize (plan layout) /\
             TextObject.fontWeight obj = "normal" \/
             TextObject.fontSize obj = FontPlan.boldFontSize (plan layout) /\
             TextObject.fontWeight obj = "bold"))
         (textObjectsOf layout).
Proof.
  intros Hlayout.
  destruct (layoutLines_keeps_words imageBuffer textContent
              emptyRegions layout Hlayout) as [Hwords Hproper].
  split. { unfold insertion_textObjects. rewrite Hlayout. reflexivity. }
  assert (Htexts :
    TextObject.text <$> textObjectsOf layout
    = WrappedLine.text <$>
        List.filter (fun l => negb (WrappedLine.isParagraphSpace l))
                    (wrappedLines layout)).
  { unfold textObjectsOf. cbv zeta. rewrite textObjectOf_texts by exact Hproper.
    reflexivity. }
  destruct (lineWords_spacers _ Hproper) as [Hsame Hhas].
  split; [exact Htexts|].
  assert (Hobj : Forall (fun obj => hasWord (TextObject.text obj) = true)
                        (textObjectsOf layout)).
  { apply (proj1 (Forall_fmap TextObject.text (fun s => hasWord s = true) _)).
    rewrite Htexts. exact Hhas. }
  split; [exact Hobj|].
  assert (Hall : lineWords (TextObject.text <$> textObjectsOf layout)
                 = textWords (textOf textContent))
    by (rewrite Htexts, Hsame; exact Hwords).
  split; [exact Hall|]. split.
  - split.
    + intros Hnil. rewrite <- Hall, Hnil. reflexivity.
    + intros Hnil. rewrite <- Hall in Hnil.
      apply lineWords_nil in Hnil;
        [|apply (proj2 (Forall_fmap TextObject.text
                          (fun s => hasWord s = true) _)); exact Hobj].
      destruct (textObjectsOf layout); [reflexivity|discriminate].
  - unfold textObjectsOf. cbv zeta. apply textObjectOf_shape. constructor.
Qed.

Lemma insertTextIntoRegions_draws_every_word_witness :
  insertion_textObjects [] Fixtures.sampleText Fixtures.sampleRegions
  = inr (Some (textObjectsOf Fixtures.sampleLayout)) /\
  TextObject.text <$> textObjectsOf Fixtures.sampleLayout
  = WrappedLine.text <$>
      List.filter (fun l => negb (WrappedLine.isParagraphSpace l))
                  (wrappedLines Fixtures.sampleLayout) /\
  Forall (fun obj => hasWord (TextObject.text obj) = true)
         (textObjectsOf Fixtures.sampleLayout) /\
  lineWords (TextObject.text <$> textObjectsOf Fixtures.sampleLayout)
  = textWords (textOf Fixtures.sampleText) /\
  (textObjectsOf Fixtures.sampleLayout = [] <->
   textWords (textOf Fixtures.sampleText) = []) /\
  Forall (fun obj =>
            TextObject.type obj = "text" /\
            TextObject.x obj
            = (textStartXOf Fixtures.sampleLayout
               + effectiveWidth Fixtures.sampleLayout / 2)%float /\
            TextObject.textAnchor obj = "middle" /\
            TextObject.dominantBaseline obj = "middle" /\
            (TextObject.fontSize obj
             = FontPlan.normalFontSize (plan Fixtures.sampleLayout) /\
             TextObject.fontWeight obj = "normal" \/
             TextObject.fontSize obj
             = FontPlan.boldFontSize (plan Fixtures.sampleLayout) /\
             TextObject.fontWeight obj = "bold"))
         (textObjectsOf Fixtures.sampleLayout).
Proof.
  apply (insertTextIntoRegions_draws_every_word [] Fixtures.sampleText
           Fixtures.sampleRegions Fixtures.sampleLayout).
  vm_compute. reflexivity.
Defined.

End TextObjectFacts.

(** ** From the regions to the layout: which region gets the text *)

Section RegionChoice.
Import JsNum JsString Regions Wrap WrapSpec.

Lemma sorted_filter_head {A} (key : A -> Z) (f : A -> bool) (l : list A)
    (a : A) (rest : list A) :
  StronglySorted (fun x y => key y <= key x) l ->
  List.filter f l = a :: rest ->
  In a l /\ f a = true /\
  forall b, In b l -> f b = true -> key b <= key a.
Proof.
  intros Hs Hf.
  assert (Ha : In a (List.filter f l)) by (rewrite Hf; left; reflexivity).
  apply filter_In in Ha as [Ha Hfa]. split; [exact Ha|]. split; [exact Hfa|].
  intros b Hb Hfb.
  assert (Hin : In b (List.filter f l)) by (apply filter_In; split; assumption).
  apply (StronglySorted_filter _ f) in Hs. rewrite Hf in *.
  apply StronglySorted_inv in Hs as [_ Hall].
  destruct Hin as [->|Hin]; [lia|].
  rewrite Forall_forall in Hall. apply Hall, list_elem_of_In. exact Hin.
Qed.

(** X20: the text is laid out in the largest region that can take it:
    when [insertTextIntoRegions] is given the regions of
    [findEmptyRegions] and lays the text out, the region of the layout is
    one of these regions, at least 100 pixels wide and 30 high, and no
    other such region has a larger area. *)
Theorem insertTextIntoRegions_uses_largest_region
    (img : Raster) (minWidth minHeight : Z)
    (imageBuffer : Cache.Buffer) (textContent : Paragraph.t) (layout : Layout) :
  layoutLines imageBuffer textContent (findEmptyRegions img minWidth minHeight)
  = inr (Some layout) ->
  exists r,
    In r (findEmptyRegions img minWidth minHeight) /\
    region layout = regionOf r /\
    100 <= Rectangle.width r /\ 30 <= Rectangle.height r /\
    forall r',
      In r' (findEmptyRegions img minWidth minHeight) ->
      100 <= Rectangle.width r' -> 30 <= Rectangle.height r' ->
      Rectangle.area r' <= Rectangle.area r.
Proof.
  intros Hlayout.
  destruct (List.filter (fun r => (Rectangle.width r >=? 100)
                                  && (Rectangle.height r >=? 30))
                        (findEmptyRegions img minWidth minHeight))
    as [|r rs] eqn:Hf.
  { unfold layoutLines in Hlayout. rewrite Hf in Hlayout. discriminate. }
  assert (Hsorted : StronglySorted
                      (fun a b => Rectangle.area b <= Rectangle.area a)
                      (findEmptyRegions img minWidth minHeight))
    by apply (sortBy_sorted Rectangle.area).
  destruct (sorted_filter_head Rectangle.area _ _ r rs Hsorted Hf)
    as (Hin & Hr & Hmax).
  exists r. split; [exact Hin|].
  apply andb_true_iff in Hr as [Hw Hh].
  split.
  - unfold layoutLines in Hlayout. rewrite Hf in Hlayout.
    destruct (Paragraph.colorSegments textContent);
      cbn [Exc.prop_of Exc.ret Exc.bind Exc.throw] in Hlayout; [|discriminate].
    destruct (Paragraph.boldSegments textContent);
      cbn [Exc.prop_of Exc.ret Exc.bind Exc.throw] in Hlayout; [|discriminate].
    destruct (wrapParagraphs _ _ _ _);
      cbn [Exc.ret Exc.bind] in Hlayout; [discriminate|].
    injection Hlayout as <-. reflexivity.
  - split; [lia|]. split; [lia|].
    intros r' Hin' Hw' Hh'. apply Hmax; [exact Hin'|].
    apply andb_true_iff. split; lia.
Qed.

Lemma insertTextIntoRegions_uses_largest_region_witness :
  exists r,
    In r (findEmptyRegions (RasterSpec.makeBand 100 98 33 58)
                           default_minWidth default_minHeight) /\
    region Fixtures.bandLayout = regionOf r /\
    100 <= Rectangle.width r /\ 30 <= Rectangle.height r /\
    forall r',
      In r' (findEmptyRegions (RasterSpec.makeBand 100 98 33 58)
                              default_minWidth default_minHeight) ->
      100 <= Rectangle.width r' -> 30 <= Rectangle.height r' ->
      Rectangle.area r' <= Rectangle.area r.
Proof.
  apply (insertTextIntoRegions_uses_largest_region
           (RasterSpec.makeBand 100 98 33 58) default_minWidth default_minHeight
           [] Fixtures.sampleText Fixtures.bandLayout).
  vm_compute. reflexivity.
Defined.

(** X21: an image less than 100 pixels wide gets no text: every region of
    [findEmptyRegions] has the width of the image, none is 100 pixels
    wide, no text object is built, and [insertTextIntoRegions] returns the
    image as it is, without calling [drawRegionsWithText]. *)
Theorem insertTextIntoRegions_narrow_image
    (img : Raster) (minWidth minHeight : Z)
    (imageBuffer : Cache.Buffer) (textContent : Paragraph.t) :
  0 < minHeight ->
  info_width img < 100 ->
  insertion_textObjects imageBuffer textContent
    (findEmptyRegions img minWidth minHeight) = inr None /\
  forall drawRegionsWithText,
    insertTextIntoRegions drawRegionsWithText imageBuffer textContent
      (findEmptyRegions img minWidth minHeight) = inr imageBuffer.
Proof.
  intros Hmin Hnarrow.
  assert (Hnone : List.filter (fun r => (Rectangle.width r >=? 100)
                                        && (Rectangle.height r >=? 30))
                              (findEmptyRegions img minWidth minHeight) = []).
  { apply filter_none.
    intros r Hr. apply findEmptyRegions_In in Hr.
    destruct (kept_regions img minHeight Hmin) as (kept & Heq & Hb & _).
    rewrite Heq in Hr.
    apply list_elem_of_In, list_elem_of_fmap in Hr as (g & -> & Hg).
    rewrite Forall_forall in Hb. destruct (Hb g Hg) as (_ & Hw & _).
    unfold toRectangle. simpl. rewrite Hw.
    destruct (Z.geb_spec (info_width img) 100); [lia|reflexivity]. }
  split.
  - unfold insertion_textObjects, layoutLines. rewrite Hnone. reflexivity.
  - intros draw. unfold insertTextIntoRegions. rewrite Hnone. reflexivity.
Qed.

Lemma insertTextIntoRegions_narrow_image_witness :
  insertion_textObjects [] Fixtures.sampleText
    (findEmptyRegions (RasterSpec.makeBand 3 98 33 58)
                      default_minWidth default_minHeight) = inr None /\
  forall drawRegionsWithText,
    insertTextIntoRegions drawRegionsWithText [] Fixtures.sampleText
      (findEmptyRegions (RasterSpec.makeBand 3 98 33 58)
                        default_minWidth default_minHeight) = inr [].
Proof.
  apply (insertTextIntoRegions_narrow_image (RasterSpec.makeBand 3 98 33 58)
           default_minWidth default_minHeight [] Fixtures.sampleText).
  - unfold default_minHeight. lia.
  - simpl. lia.
Defined.

End RegionChoice.

(** ** Batches of images *)

Section BatchFacts.
Import Batch.
Context {A : Type}.

Lemma slice_from (images : list A) (batchSize i : Z) :
  0 < batchSize -> 0 <= i < Z.of_nat (List.length images) ->
  slice images i (i + batchSize)
  = take (Z.to_nat batchSize) (drop (Z.to_nat i) images) /\
  slice images i (i + batchSize) <> [].
Proof.
  intros Hb Hi. unfold slice, clampIndex. cbv zeta.
  destruct (Z.ltb_spec i 0); [lia|]. destruct (Z.ltb_spec (i + batchSize) 0); [lia|].
  rewrite (Z.min_l i) by lia.
  assert (Hdrop : List.length (drop (Z.to_nat i) images)
                  = (List.length images - Z.to_nat i)%nat) by apply length_drop.
  split.
  - destruct (Z.le_gt_cases (i + batchSize) (Z.of_nat (List.length images))).
    + rewrite Z.min_l by lia. f_equal. lia.
    + rewrite Z.min_r by lia. rewrite !take_ge; [reflexivity|lia|lia].
  - intros Hnil. apply (f_equal (@List.length A)) in Hnil.
    rewrite length_take in Hnil. simpl in Hnil. lia.
Qed.

Lemma batchesLoop_inv (images : list A) (batchSize : Z) (fuel : nat) :
  0 < batchSize ->
  forall (i : Z) (batches : list (list A)),
    0 <= i ->
    (List.length images - Z.to_nat i <= fuel)%nat ->
    concat batches = take (Z.to_nat i) images ->
    Forall (fun b => b <> [] /\ Z.of_nat (List.length b) <= batchSize) batches ->
    exists batches',
      batchesLoop fuel images batchSize i batches = Some batches' /\
      concat batches' = images /\
      Forall (fun b => b <> [] /\ Z.of_nat (List.length b) <= batchSize) batches'.
Proof.
  intros Hb. induction fuel as [|fuel IH]; intros i batches Hi Hfuel Hcat Hall;
    simpl; destruct (Z.ltb_spec i (Z.of_nat (List.length images))) as [Hlt|Hge];
    try lia.
  - exists batches. split; [reflexivity|]. split; [|exact Hall].
    rewrite Hcat. apply take_ge. lia.
  - destruct (slice_from images batchSize i Hb ltac:(lia)) as [Hslice Hne].
    apply IH; [lia|lia| |].
    + rewrite concat_app, Hcat, Hslice. simpl. rewrite app_nil_r.
      rewrite take_take_drop. f_equal. lia.
    + apply Forall_app. split; [exact Hall|]. constructor; [|constructor].
      split; [exact Hne|]. rewrite Hslice, length_take. lia.
  - exists batches. split; [reflexivity|]. split; [|exact Hall].
    rewrite Hcat. apply take_ge. lia.
Qed.

Lemma runBatch_fold (processImage : A -> bool) (batches : list (list A)) :
  forall p : Progress,
    foldl (runBatch processImage) p batches
    = mkProgress
        (completed p + Z.of_nat (List.length (concat batches)))
        (successful p
         + Z.of_nat (List.length (List.filter processImage (concat batches)))).
Proof.
  induction batches as [|b bs IH]; intros p; simpl.
  - destruct p. simpl. f_equal; lia.
  - rewrite IH. unfold runBatch. cbn [completed successful].
    rewrite length_app, List.filter_app, length_app.
    assert (Hf : List.length (List.filter id (processImage <$> b))
                 = List.length (List.filter processImage b)).
    { clear. induction b as [|a b IH]; [reflexivity|].
      cbn [fmap list_fmap List.filter] in *.
      unfold id at 1. destruct (processImage a); simpl; rewrite IH; reflexivity. }
    rewrite Hf. f_equal; lia.
Qed.

(** X14: for a positive [batchSize], the batching loop of
    [processBatch] ends within one iteration per image, and the batches
    are a partition of the images into consecutive runs: their
    concatenation is the list of images, and each batch holds at least one
    and at most [batchSize] images.  After the batches have been run,
    [completed] is the number of images and [successful] the number of
    images whose processing answered [true]. *)
Theorem processBatch_partitions_images
    (processImage : A -> bool) (images : list A) (batchSize : Z) :
  0 < batchSize ->
  exists batches,
    batchesLoop (List.length images) images batchSize 0 [] = Some batches /\
    concat batches = images /\
    Forall (fun batch => batch <> [] /\ Z.of_nat (List.length batch) <= batchSize)
           batches /\
    foldl (runBatch processImage) (mkProgress 0 0) batches
    = mkProgress (Z.of_nat (List.length images))
                 (Z.of_nat (List.length (List.filter processImage images))).
Proof.
  intros Hb.
  destruct (batchesLoop_inv images batchSize (List.length images) Hb 0 [])
    as (batches & Hloop & Hcat & Hall); [lia|simpl; lia|reflexivity|constructor|].
  exists batches. split; [exact Hloop|]. split; [exact Hcat|]. split; [exact Hall|].
  rewrite runBatch_fold, Hcat. reflexivity.
Qed.

(** With a [batchSize] that is not positive the loop does not end. *)
Lemma batchesLoop_diverges (images : list A) (batchSize : Z) (fuel : nat) :
  batchSize <= 0 -> images <> [] ->
  forall (i : Z) (batches : list (list A)),
    i <= 0 -> batchesLoop fuel images batchSize i batches = None.
Proof.
  intros Hb Hne. induction fuel as [|fuel IH]; intros i batches Hi; simpl;
    destruct (Z.ltb_spec i (Z.of_nat (List.length images))) as [Hlt|Hge].
  - reflexivity.
  - destruct images; [contradiction|simpl in Hge; lia].
  - apply IH. lia.
  - destruct images; [contradiction|simpl in Hge; lia].
Qed.

End BatchFacts.

Lemma processBatch_partitions_images_witness :
  exists batches,
    Batch.batchesLoop 5 ["a"; "b"; "c"; "d"; "e"] Batch.default_batchSize 0 []
    = Some batches /\
    concat batches = ["a"; "b"; "c"; "d"; "e"] /\
    Forall (fun batch => batch <> [] /\
                         Z.of_nat (List.length batch) <= Batch.default_batchSize)
           batches /\
    foldl (Batch.runBatch (String.eqb "c")) (Batch.mkProgress 0 0) batches
    = Batch.mkProgress 5 1.
Proof.
  apply (processBatch_partitions_images (String.eqb "c")
           ["a"; "b"; "c"; "d"; "e"] Batch.default_batchSize).
  unfold Batch.default_batchSize. lia.
Defined.

(** ** Rows of the spreadsheet *)

Section StringFacts.
Import JsString Excel.

Lemma append_nil_r (s : string) : (s ++ "")%string = s.
Proof. induction s as [|c s IH]; simpl; [reflexivity|]. rewrite IH. reflexivity. Qed.

Lemma len_append (a b : string) : len (a ++ b)%string = len a + len b.
Proof. unfold len. rewrite length_append. lia. Qed.

Lemma len_nonneg (s : string) : 0 <= len s.
Proof. unfold len. lia. Qed.

Lemma nonEmpty_len (s : string) : FontSize.nonEmpty s = true <-> 0 < len s.
Proof. destruct s; unfold len; simpl; split; try discriminate; try lia; reflexivity. Qed.

Lemma substring_append_l (a b : string) (n m : nat) :
  (n + m <= String.length a)%nat ->
  String.substring n m (a ++ b)%string = String.substring n m a.
Proof.
  revert n m. induction a as [|c a IH]; intros n m Hnm; simpl in *.
  - assert (n = O) by lia. assert (m = O) by lia. subst. destruct b; reflexivity.
  - destruct n as [|n].
    + destruct m as [|m]; [reflexivity|]. f_equal. apply (IH O m). lia.
    + apply IH. lia.
Qed.

Lemma substring_append_r (a b : string) :
  String.substring (String.length a) (String.length b) (a ++ b)%string = b.
Proof.
  induction a as [|c a IH]; simpl; [apply substring_all|exact IH].
Qed.

Lemma substr_append_l (a b : string) (start length : Z) :
  0 <= start -> 0 <= length -> start + length <= len a ->
  substr (a ++ b)%string start length = substr a start length.
Proof.
  intros Hs Hl Hb. unfold substr. apply substring_append_l. unfold len in Hb. lia.
Qed.

Lemma substr_append_r (a b : string) :
  substr (a ++ b)%string (len a) (len b) = b.
Proof.
  unfold substr, len. rewrite !Nat2Z.id. apply substring_append_r.
Qed.

End StringFacts.

Section TrimFacts.
Import JsString Excel.

Lemma nonEmpty_trimStart (s : string) : FontSize.nonEmpty (trimStart s) = hasInk s.
Proof.
  induction s as [|c s IH]; simpl; [reflexivity|].
  destruct (WrapText.isWhiteSpace c); simpl; [exact IH|reflexivity].
Qed.

Lemma nonEmpty_trimEnd (s : string) : FontSize.nonEmpty (trimEnd s) = hasInk s.
Proof.
  induction s as [|c s IH]; simpl; [reflexivity|].
  destruct (trimEnd s); simpl in *.
  - rewrite <- IH, orb_false_r. destruct (WrapText.isWhiteSpace c); reflexivity.
  - rewrite <- IH, orb_true_r. reflexivity.
Qed.

Lemma hasInk_trimStart (s : string) : hasInk (trimStart s) = hasInk s.
Proof.
  induction s as [|c s IH]; simpl; [reflexivity|].
  destruct (WrapText.isWhiteSpace c) eqn:Hc; simpl; [exact IH|].
  rewrite Hc. reflexivity.
Qed.

(** [s.trim()] is not empty iff [s] is not blank. *)
Lemma nonEmpty_trim (s : string) : FontSize.nonEmpty (trim s) = hasInk s.
Proof. unfold trim. rewrite nonEmpty_trimEnd. apply hasInk_trimStart. Qed.

Lemma hasInk_append (a b : string) : hasInk (a ++ b)%string = hasInk a || hasInk b.
Proof.
  induction a as [|c a IH]; simpl; [reflexivity|].
  rewrite IH, orb_assoc. reflexivity.
Qed.

Lemma hasInk_nonEmpty (s : string) : hasInk s = true -> FontSize.nonEmpty s = true.
Proof. destruct s; [discriminate|reflexivity]. Qed.

Lemma joinSpace_snoc (values : list string) (v : string) :
  joinSpace (values ++ [v])
  = match values with
    | [] => v
    | _ => (joinSpace values ++ " " ++ v)%string
    end.
Proof.
  induction values as [|a values IH]; [reflexivity|].
  destruct values as [|b values]; [reflexivity|].
  change (joinSpace ((a :: b :: values) ++ [v]))
    with (a ++ " " ++ joinSpace ((b :: values) ++ [v]))%string.
  rewrite IH.
  change (joinSpace (a :: b :: values))
    with (a ++ " " ++ joinSpace (b :: values))%string.
  rewrite !append_assoc. reflexivity.
Qed.

Lemma hasInk_joinSpace (values : list string) :
  values <> [] -> Forall (fun v => hasInk v = true) values ->
  hasInk (joinSpace values) = true.
Proof.
  intros Hne Hall. destruct values as [|v values]; [contradiction|].
  apply Forall_cons in Hall as [Hv _].
  destruct values; simpl; [exact Hv|].
  rewrite hasInk_append, Hv. reflexivity.
Qed.

End TrimFacts.

Section RowFacts.
Import JsString Excel.
Context {Color : Type} (processColor : Font Color -> option string).

Local Abbreviation readCell := (Excel.readCell Color processColor).
Local Abbreviation addCell := (Excel.addCell Color processColor).
Local Abbreviation readRow := (Excel.readRow Color processColor).
Local Abbreviation processRow := (Excel.processRow Color processColor).
Local Abbreviation Cell := (Excel.Cell Color).
Local Abbreviation Row := Excel.Row.

Lemma addRun_value (p : Z) (runs : list (Run Color)) :
  forall st,
    fst (fst (foldl (addRun Color processColor p) st runs))
    = (fst (fst st)
       ++ foldr (fun rt s => (run_text Color rt ++ s)%string) EmptyString runs)%string.
Proof.
  induction runs as [|rt runs IH]; intros st; simpl.
  - rewrite append_nil_r. reflexivity.
  - rewrite IH. simpl. rewrite append_assoc. reflexivity.
Qed.

Lemma readCell_value (row : Row) (cell : Cell) :
  fst (fst (readCell row cell)) = cellValueOf Color cell.
Proof.
  unfold Excel.readCell, cellValueOf. destruct (value Color cell); [|reflexivity].
  rewrite addRun_value. reflexivity.
Qed.

(** What a cell adds to the text of the row. *)
Lemma addCell_rowText (row : Row) (cell : Cell) :
  currentPosition row = len (rowText row) ->
  let row' := addCell row cell in
  rowText row'
  = (if notBlank Color cell
     then (if FontSize.nonEmpty (rowText row)
           then rowText row ++ " " ++ cellValueOf Color cell
           else cellValueOf Color cell)
     else rowText row)%string /\
  currentPosition row' = len (rowText row').
Proof.
  intros Hpos. cbv zeta. unfold Excel.addCell. cbv zeta.
  rewrite readCell_value. fold (notBlank Color cell).
  destruct (notBlank Color cell); cbn [rowText currentPosition]; [|tauto].
  destruct (rowText row) as [|c r] eqn:Hr; cbn [FontSize.nonEmpty].
  - split; [reflexivity|]. rewrite Hpos. unfold len. simpl. lia.
  - split; [apply append_assoc|]. rewrite Hpos, !len_append. reflexivity.
Qed.

Lemma readRow_fold (cells : list Cell) :
  forall (row : Row) (values : list string),
    rowText row = joinSpace values ->
    Forall (fun v => hasInk v = true) values ->
    currentPosition row = len (rowText row) ->
    let row' := foldl addCell row cells in
    rowText row'
    = joinSpace (values ++ (cellValueOf Color <$> List.filter (notBlank Color) cells)) /\
    currentPosition row' = len (rowText row').
Proof.
  induction cells as [|cell cells IH]; intros row values Hrow Hink Hpos; cbv zeta.
  - simpl. rewrite app_nil_r. tauto.
  - cbn [foldl List.filter].
    destruct (addCell_rowText row cell Hpos) as [Htext Hpos'].
    destruct (notBlank Color cell) eqn:Hcell.
    + cbn [fmap list_fmap].
      destruct (IH (addCell row cell) (values ++ [cellValueOf Color cell]))
        as [H1 H2]; [| |exact Hpos'|].
      * rewrite Htext, joinSpace_snoc, Hrow.
        destruct values as [|v values]; [reflexivity|].
        rewrite (hasInk_nonEmpty _ (hasInk_joinSpace (v :: values)
                                      ltac:(discriminate) Hink)).
        reflexivity.
      * apply Forall_app. split; [exact Hink|].
        constructor; [|constructor]. unfold notBlank in Hcell.
        rewrite nonEmpty_trim in Hcell. exact Hcell.
      * rewrite <- app_assoc in H1. split; [exact H1|exact H2].
    + apply IH; [rewrite Htext; exact Hrow|exact Hink|exact Hpos'].
Qed.

(** X15: the text of a row is the values of its cells that are not
    blank, in order, joined by single spaces; [currentPosition] ends at the
    length of that text; a row without such a cell yields no text content,
    and any other row yields the trimmed text with the segments
    collected. *)
Theorem processRow_joins_cells (cells : list Cell) :
  let values := cellValueOf Color <$> List.filter (notBlank Color) cells in
  rowText (readRow cells) = joinSpace values /\
  currentPosition (readRow cells) = len (joinSpace values) /\
  processRow cells
  = match values with
    | [] => None
    | _ => Some (Paragraph.mk (Some (trim (joinSpace values)))
                              (Some (colorSegments (readRow cells)))
                              (Some (boldSegments (readRow cells))))
    end.
Proof.
  cbv zeta.
  destruct (readRow_fold cells (mkRow EmptyString [] [] 0) [] eq_refl
              ltac:(constructor) eq_refl) as [Htext Hpos].
  cbn [app] in Htext. fold (readRow cells) in Htext, Hpos.
  split; [exact Htext|]. split; [rewrite Hpos, Htext; reflexivity|].
  unfold Excel.processRow. cbv zeta. rewrite Htext, nonEmpty_trim.
  destruct (List.filter (notBlank Color) cells) as [|cell rest] eqn:Hf;
    [reflexivity|].
  rewrite hasInk_joinSpace; [reflexivity|discriminate|].
  rewrite <- Hf. apply Forall_fmap, Forall_forall. intros c Hc.
  apply list_elem_of_In, filter_In in Hc as [_ Hc].
  unfold notBlank in Hc. rewrite nonEmpty_trim in Hc. exact Hc.
Qed.

Lemma readCell_plain (row : Row) (cell : Cell) :
  isPlain Color cell = true ->
  readCell row cell
  = (cellValueOf Color cell,
     match colorOf Color processColor (font Color cell) with
     | Some color =>
         colorSegments row
         ++ [ColorSegment.mk (currentPosition row)
                             (len (cellValueOf Color cell)) color]
     | None => colorSegments row
     end,
     boldSegments row).
Proof.
  unfold isPlain, Excel.readCell, cellValueOf.
  destruct (value Color cell); [discriminate|reflexivity].
Qed.

(** The bold segments of a row of plain cells spell the bold cells. *)
Lemma readRow_bold (cells : list Cell) :
  Forall (fun cell => isPlain Color cell = true) cells ->
  forall (row : Row) (values : list string),
    currentPosition row = len (rowText row) ->
    Forall (fun seg => inside (rowText row) (Segment.start seg) (Segment.length seg))
           (boldSegments row) ->
    (fun seg => substr (rowText row) (Segment.start seg) (Segment.length seg))
      <$> boldSegments row = values ->
    let row' := foldl addCell row cells in
    (fun seg => substr (rowText row') (Segment.start seg) (Segment.length seg))
      <$> boldSegments row'
    = values ++ (cellValueOf Color <$>
                   List.filter (fun cell => notBlank Color cell
                                            && isBoldFont Color (font Color cell))
                               cells).
Proof.
  intros Hplain. induction Hplain as [|cell cells Hcell _ IH];
    intros row values Hpos Hin Hvals; cbv zeta.
  - simpl. rewrite app_nil_r. exact Hvals.
  - cbn [foldl List.filter].
    destruct (addCell_rowText row cell Hpos) as [Htext Hpos'].
    assert (Hbold : boldSegments (addCell row cell)
                    = if notBlank Color cell && isBoldFont Color (font Color cell)
                      then boldSegments row
                           ++ [Segment.mk
                                 (if FontSize.nonEmpty (rowText row)
                                  then len (rowText row) + 1 else len (rowText row))
                                 (len (cellValueOf Color cell))]
                      else boldSegments row).
    { unfold Excel.addCell. cbv zeta.
      rewrite (readCell_plain row cell Hcell). cbn [fst snd].
      fold (notBlank Color cell). rewrite Hpos.
      destruct (notBlank Color cell); cbn [boldSegments andb]; [|reflexivity].
      destruct (isBoldFont Color (font Color cell)); reflexivity. }
    assert (Hgrow : exists suffix,
               rowText (addCell row cell) = (rowText row ++ suffix)%string).
    { rewrite Htext. destruct (notBlank Color cell).
      - destruct (rowText row) eqn:Hr; simpl; eauto.
      - exists EmptyString. rewrite append_nil_r. reflexivity. }
    destruct Hgrow as [suffix Hgrow].
    assert (Hold : forall seg,
               inside (rowText row) (Segment.start seg) (Segment.length seg) ->
               inside (rowText (addCell row cell)) (Segment.start seg)
                      (Segment.length seg) /\
               substr (rowText (addCell row cell)) (Segment.start seg)
                      (Segment.length seg)
               = substr (rowText row) (Segment.start seg) (Segment.length seg)).
    { intros seg (H1 & H2 & H3). rewrite Hgrow. split.
      - unfold inside. rewrite len_append. pose proof (len_nonneg suffix). lia.
      - apply substr_append_l; assumption. }
    destruct (notBlank Color cell && isBoldFont Color (font Color cell)) eqn:Hb.
    + cbn [fmap list_fmap].
      match goal with |- _ = values ++ ?v :: ?rest =>
        replace (values ++ v :: rest) with ((values ++ [v]) ++ rest)
          by (rewrite <- app_assoc; reflexivity)
      end.
      apply IH; [exact Hpos'| |].
      * rewrite Hbold. apply Forall_app. split.
        { eapply Forall_impl; [exact Hin|]. intros seg Hseg. apply Hold. exact Hseg. }
        constructor; [|constructor]. unfold inside. cbn [Segment.start Segment.length].
        apply andb_true_iff in Hb as [Hnb _]. rewrite Hnb in Htext.
        pose proof (len_nonneg (cellValueOf Color cell)).
        pose proof (len_nonneg (rowText row)).
        rewrite Htext.
        destruct (rowText row) as [|c r]; cbn [FontSize.nonEmpty];
          rewrite ?len_append; change (len " ") with 1;
          change (len EmptyString) with 0; lia.
      * rewrite Hbold, fmap_app. f_equal.
        { rewrite <- Hvals. apply Forall_fmap_ext. 
          eapply Forall_impl; [exact Hin|]. intros seg Hseg. apply Hold. exact Hseg. }
        cbn [fmap list_fmap Segment.start Segment.length]. f_equal.
        apply andb_true_iff in Hb as [Hnb _]. rewrite Hnb in Htext.
        rewrite Htext.
        destruct (rowText row) as [|c r] eqn:Hr; cbn [FontSize.nonEmpty].
        { apply (substr_append_r EmptyString). }
        rewrite <- append_assoc.
        replace (len (String c r) + 1) with (len (String c r ++ " ")%string)
          by (rewrite len_append; reflexivity).
        apply substr_append_r.
    + apply IH; [exact Hpos'| |].
      * rewrite Hbold. eapply Forall_impl; [exact Hin|].
        intros seg Hseg. apply Hold. exact Hseg.
      * rewrite Hbold, <- Hvals. apply Forall_fmap_ext.
        eapply Forall_impl; [exact Hin|]. intros seg Hseg. apply Hold. exact Hseg.
Qed.

Lemma colourPlaced_grow (s suffix : string) (seg : ColorSegment.t) :
  colourPlaced s seg ->
  colourPlaced (s ++ suffix)%string seg /\
  colourRead (s ++ suffix)%string seg = colourRead s seg.
Proof.
  intros [(H1 & H2 & H3) Hsp]. unfold colourPlaced, colourRead, inside.
  rewrite len_append. pose proof (len_nonneg suffix).
  rewrite (substr_append_l s suffix _ _ H1 H2 H3).
  split; [|reflexivity]. split; [lia|].
  destruct Hsp as [Hz|[Hpos Hsp]]; [left; exact Hz|right].
  split; [exact Hpos|].
  rewrite <- Hsp. apply substr_append_l; try lia.
  unfold colourStart in *.
  destruct (Z.eqb_spec (ColorSegment.start seg) 0); lia.
Qed.

(** The colour segments of a row of plain cells, none of them blank. *)
Lemma readRow_colour (cells : list Cell) :
  Forall (fun cell => isPlain Color cell && notBlank Color cell = true) cells ->
  forall (row : Row) (values : list (string * string)),
    currentPosition row = len (rowText row) ->
    Forall (colourPlaced (rowText row)) (colorSegments row) ->
    colourRead (rowText row) <$> colorSegments row = values ->
    let row' := foldl addCell row cells in
    Forall (colourPlaced (rowText row')) (colorSegments row') /\
    colourRead (rowText row') <$> colorSegments row'
    = values
      ++ omap (fun cell =>
                 (fun color => (cellValueOf Color cell, color))
                   <$> colorOf Color processColor (font Color cell))
              cells.
Proof.
  intros Hplain. induction Hplain as [|cell cells Hcell _ IH];
    intros row values Hpos Hin Hvals; cbv zeta.
  - simpl. rewrite app_nil_r. split; assumption.
  - apply andb_true_iff in Hcell as [Hcell Hnb]. cbn [foldl omap list_omap].
    destruct (addCell_rowText row cell Hpos) as [Htext Hpos'].
    rewrite Hnb in Htext.
    assert (Hcs : colorSegments (addCell row cell)
                  = match colorOf Color processColor (font Color cell) with
                    | Some color =>
                        colorSegments row
                        ++ [ColorSegment.mk (len (rowText row))
                                            (len (cellValueOf Color cell)) color]
                    | None => colorSegments row
                    end).
    { unfold Excel.addCell. cbv zeta.
      rewrite (readCell_plain row cell Hcell). cbn [fst snd].
      fold (notBlank Color cell). rewrite Hnb, Hpos. reflexivity. }
    assert (Hgrow : exists suffix,
               rowText (addCell row cell) = (rowText row ++ suffix)%string).
    { rewrite Htext. destruct (rowText row) eqn:Hr; simpl; eauto. }
    destruct Hgrow as [suffix Hgrow].
    assert (Hold : Forall (colourPlaced (rowText (addCell row cell)))
                          (colorSegments row) /\
                   colourRead (rowText (addCell row cell)) <$> colorSegments row
                   = values).
    { rewrite Hgrow. split.
      - eapply Forall_impl; [exact Hin|]. intros seg Hseg.
        apply colourPlaced_grow. exact Hseg.
      - rewrite <- Hvals. apply Forall_fmap_ext.
        eapply Forall_impl; [exact Hin|]. intros seg Hseg.
        apply colourPlaced_grow. exact Hseg. }
    destruct Hold as [Hold Hread].
    destruct (colorOf Color processColor (font Color cell)) as [color|];
      cbn [fmap option_fmap option_map].
    + match goal with |- _ /\ _ = values ++ ?v :: ?rest =>
        replace (values ++ v :: rest) with ((values ++ [v]) ++ rest)
          by (rewrite <- app_assoc; reflexivity)
      end.
      pose proof (len_nonneg (cellValueOf Color cell)) as Hv.
      assert (Hnew :
        colourPlaced (rowText (addCell row cell))
          (ColorSegment.mk (len (rowText row)) (len (cellValueOf Color cell)) color)
        /\ colourRead (rowText (addCell row cell))
             (ColorSegment.mk (len (rowText row)) (len (cellValueOf Color cell)) color)
           = (cellValueOf Color cell, color)).
      { rewrite Htext. unfold colourPlaced, colourRead, inside, colourStart.
        cbn [ColorSegment.start ColorSegment.length ColorSegment.color].
        destruct (rowText row) as [|c r] eqn:Hr; cbn [FontSize.nonEmpty].
        - change (len EmptyString) with 0. cbn [Z.eqb].
          split; [split; [lia|left; reflexivity]|].
          f_equal. apply (substr_append_r EmptyString).
        - pose proof (len_nonneg r) as Hr'.
          assert (Hlen : len (String c r) = 1 + len r)
            by (unfold len; simpl; lia).
          destruct (Z.eqb_spec (len (String c r)) 0); [lia|].
          rewrite <- append_assoc.
          replace (len (String c r) + 1) with (len (String c r ++ " ")%string)
            by (rewrite len_append; reflexivity).
          rewrite substr_append_r.
          split; [|reflexivity]. split.
          + rewrite !len_append. change (len " ") with 1. lia.
          + right. split; [lia|]. rewrite substr_append_l;
              [apply (substr_append_r (String c r) " ")|lia|lia|].
            rewrite len_append. change (len " ") with 1. lia. }
      destruct Hnew as [Hplaced Hnew].
      apply IH; [exact Hpos'| |].
      * rewrite Hcs. apply Forall_app. split; [exact Hold|].
        constructor; [exact Hplaced|constructor].
      * rewrite Hcs, fmap_app, Hread. cbn [fmap list_fmap]. rewrite Hnew. reflexivity.
    + apply IH; [exact Hpos'| |]; rewrite Hcs; assumption.
Qed.

(** X16: in a row of plain cells whose text needs no trimming, the bold
    segments of the text content spell the bold cells: reading the text at
    each segment, [text.substr(start, length)], gives the values of the
    cells that are bold and not blank, in order. *)
Theorem processRow_bold_segments_spell_cells
    (cells : list Cell) (textContent : Paragraph.t) :
  Forall (fun cell => isPlain Color cell = true) cells ->
  trim (rowText (readRow cells)) = rowText (readRow cells) ->
  processRow cells = Some textContent ->
  exists (text : string) (segments : list Segment.t),
    Paragraph.text textContent = Some text /\
    Paragraph.boldSegments textContent = Some segments /\
    (fun seg => substr text (Segment.start seg) (Segment.length seg)) <$> segments
    = cellValueOf Color <$>
        List.filter (fun cell => notBlank Color cell
                                 && isBoldFont Color (font Color cell)) cells.
Proof.
  intros Hplain Htrim. unfold Excel.processRow. cbv zeta. rewrite Htrim.
  destruct (FontSize.nonEmpty _); [|discriminate].
  intros H. injection H as <-. eexists _, _.
  split; [reflexivity|]. split; [reflexivity|].
  apply (readRow_bold cells Hplain (mkRow EmptyString [] [] 0) []);
    [reflexivity|constructor|reflexivity].
Qed.

(** X17: in a row of plain cells, none blank, whose text needs no
    trimming, there is one colour segment per coloured cell, in order, with
    the colour of the cell and the length of its value; the segment of
    the first cell starts at the value, but the segment of every later
    cell starts one character early, at the space that separates the
    cells, so that the value is read at [start + 1]. *)
Theorem processRow_colour_segments_start_early
    (cells : list Cell) (textContent : Paragraph.t) :
  Forall (fun cell => isPlain Color cell && notBlank Color cell = true) cells ->
  trim (rowText (readRow cells)) = rowText (readRow cells) ->
  processRow cells = Some textContent ->
  exists (text : string) (segments : list ColorSegment.t),
    Paragraph.text textContent = Some text /\
    Paragraph.colorSegments textContent = Some segments /\
    Forall (colourPlaced text) segments /\
    colourRead text <$> segments
    = omap (fun cell =>
              (fun color => (cellValueOf Color cell, color))
                <$> colorOf Color processColor (font Color cell))
           cells.
Proof.
  intros Hplain Htrim. unfold Excel.processRow. cbv zeta. rewrite Htrim.
  destruct (FontSize.nonEmpty _); [|discriminate].
  intros H. injection H as <-. eexists _, _.
  split; [reflexivity|]. split; [reflexivity|].
  apply (readRow_colour cells Hplain (mkRow EmptyString [] [] 0) []);
    [reflexivity|constructor|reflexivity].
Qed.

End RowFacts.

Lemma processRow_bold_segments_spell_cells_witness :
  exists (text : string) (segments : list Segment.t),
    Paragraph.text (Paragraph.mk (Some "Sale now")
                                 (Some [ColorSegment.mk 4 3 "#FF0000"])
                                 (Some [Segment.mk 5 3])) = Some text /\
    Paragraph.boldSegments (Paragraph.mk (Some "Sale now")
                                         (Some [ColorSegment.mk 4 3 "#FF0000"])
                                         (Some [Segment.mk 5 3])) = Some segments /\
    (fun seg => Excel.substr text (Segment.start seg) (Segment.length seg))
      <$> segments
    = Excel.cellValueOf string <$>
        List.filter (fun cell => Excel.notBlank string cell
                                 && Excel.isBoldFont string (Excel.font string cell))
                    Fixtures.sampleRow.
Proof.
  apply (processRow_bold_segments_spell_cells Fixtures.colourText
           Fixtures.sampleRow).
  - repeat constructor.
  - vm_compute. reflexivity.
  - vm_compute. reflexivity.
Defined.

Lemma processRow_colour_segments_start_early_witness :
  exists (text : string) (segments : list ColorSegment.t),
    Paragraph.text (Paragraph.mk (Some "Sale now")
                                 (Some [ColorSegment.mk 0 4 "#0000FF";
                                        ColorSegment.mk 4 3 "#FF0000"])
                                 (Some [Segment.mk 5 3])) = Some text /\
    Paragraph.colorSegments (Paragraph.mk (Some "Sale now")
                                          (Some [ColorSegment.mk 0 4 "#0000FF";
                                                 ColorSegment.mk 4 3 "#FF0000"])
                                          (Some [Segment.mk 5 3])) = Some segments /\
    Forall (Excel.colourPlaced text) segments /\
    Excel.colourRead text <$> segments
    = omap (fun cell =>
              (fun color => (Excel.cellValueOf string cell, color))
                <$> Excel.colorOf string Fixtures.colourText
                                  (Excel.font string cell))
           Fixtures.colouredRow.
Proof.
  apply (processRow_colour_segments_start_early Fixtures.colourText
           Fixtures.colouredRow).
  - repeat constructor.
  - vm_compute. reflexivity.
  - vm_compute. reflexivity.
Defined.

(** ** Rows of the spreadsheet: a rich-text cell *)

Section RichTextFacts.
Import JsString Excel.
Context {Color : Type} (processColor : Font Color -> option string).

Local Abbreviation Run := (Excel.Run Color).
Local Abbreviation addRun := (Excel.addRun Color processColor 0).
Local Abbreviation boldRun :=
  (fun rt : Run => isBoldFont Color (run_font Color rt)).
Local Abbreviation colourRun :=
  (fun rt : Run =>
     (fun c => (run_text Color rt, c))
       <$> colorOf Color processColor (run_font Color rt)).

Local Abbreviation boldRead :=
  (fun (s : string) (seg : Segment.t) =>
     substr s (Segment.start seg) (Segment.length seg)).
Local Abbreviation colourReadAt :=
  (fun (s : string) (seg : ColorSegment.t) =>
     (substr s (ColorSegment.start seg) (ColorSegment.length seg),
      ColorSegment.color seg)).

Lemma inside_append (v text : string) (start length : Z) :
  inside v start length -> inside (v ++ text)%string start length.
Proof.
  intros (H1 & H2 & H3). unfold inside. rewrite len_append.
  pose proof (len_nonneg text). lia.
Qed.

Lemma inside_new (v text : string) : inside (v ++ text)%string (len v) (len text).
Proof.
  unfold inside. rewrite len_append.
  pose proof (len_nonneg v). pose proof (len_nonneg text). lia.
Qed.

(** The bold segments of the runs of the first cell of a row spell the
    bold runs in the cell value read so far. *)
Lemma addRun_fold_bold (runs : list Run) :
  forall (st : string * list ColorSegment.t * list Segment.t) (bolds : list string),
    Forall (fun seg => inside (fst (fst st)) (Segment.start seg) (Segment.length seg))
           (snd st) ->
    boldRead (fst (fst st)) <$> snd st = bolds ->
    let st' := foldl addRun st runs in
    Forall (fun seg => inside (fst (fst st')) (Segment.start seg) (Segment.length seg))
           (snd st') /\
    boldRead (fst (fst st')) <$> snd st'
    = bolds ++ (run_text Color <$> List.filter boldRun runs).
Proof.
  induction runs as [|rt runs IH]; intros [[v cs] bs] bolds Hin Hb;
    cbv zeta; cbn [fst snd] in *.
  - simpl. rewrite app_nil_r. split; assumption.
  - cbn [foldl List.filter].
    set (text := run_text Color rt).
    assert (Hold : Forall (fun seg => inside (v ++ text)%string (Segment.start seg)
                                             (Segment.length seg)) bs).
    { eapply Forall_impl; [exact Hin|]. intros seg Hseg. apply inside_append, Hseg. }
    assert (Hread : boldRead (v ++ text)%string <$> bs = bolds).
    { rewrite <- Hb. apply Forall_fmap_ext. eapply Forall_impl; [exact Hin|].
      intros seg (H1 & H2 & H3). apply substr_append_l; assumption. }
    assert (Hstep : addRun (v, cs, bs) rt
                    = ((v ++ text)%string,
                       match colorOf Color processColor (run_font Color rt) with
                       | Some color => cs ++ [ColorSegment.mk (len v) (len text) color]
                       | None => cs
                       end,
                       if isBoldFont Color (run_font Color rt)
                       then bs ++ [Segment.mk (len v) (len text)] else bs))
      by reflexivity.
    rewrite Hstep. clear Hstep.
    destruct (isBoldFont Color (run_font Color rt)) eqn:Hbold.
    + cbn [fmap list_fmap]. fold text.
      replace (bolds ++ text :: (run_text Color <$> List.filter boldRun runs))
        with ((bolds ++ [text]) ++ (run_text Color <$> List.filter boldRun runs))
        by (rewrite <- app_assoc; reflexivity).
      apply (IH (_, _, _)); cbn [fst snd].
      * apply Forall_app. split; [exact Hold|].
        constructor; [apply inside_new|constructor].
      * rewrite fmap_app, Hread. cbn [fmap list_fmap Segment.start Segment.length].
        rewrite substr_append_r. reflexivity.
    + apply (IH (_, _, _)); cbn [fst snd]; assumption.
Qed.

(** The colour segments of the runs of the first cell of a row spell the
    coloured runs in the cell value read so far. *)
Lemma addRun_fold_colour (runs : list Run) :
  forall (st : string * list ColorSegment.t * list Segment.t)
         (colours : list (string * string)),
    Forall (fun seg => inside (fst (fst st)) (ColorSegment.start seg)
                              (ColorSegment.length seg)) (snd (fst st)) ->
    colourReadAt (fst (fst st)) <$> snd (fst st) = colours ->
    let st' := foldl addRun st runs in
    colourReadAt (fst (fst st')) <$> snd (fst st') = colours ++ omap colourRun runs.
Proof.
  induction runs as [|rt runs IH]; intros [[v cs] bs] colours Hin Hc;
    cbv zeta; cbn [fst snd] in *.
  - simpl. rewrite app_nil_r. assumption.
  - cbn [foldl omap list_omap].
    set (text := run_text Color rt).
    assert (Hold : Forall (fun seg => inside (v ++ text)%string (ColorSegment.start seg)
                                             (ColorSegment.length seg)) cs).
    { eapply Forall_impl; [exact Hin|]. intros seg Hseg. apply inside_append, Hseg. }
    assert (Hread : colourReadAt (v ++ text)%string <$> cs = colours).
    { rewrite <- Hc. apply Forall_fmap_ext. eapply Forall_impl; [exact Hin|].
      intros seg (H1 & H2 & H3). cbv beta. f_equal.
      apply substr_append_l; assumption. }
    assert (Hstep : addRun (v, cs, bs) rt
                    = ((v ++ text)%string,
                       match colorOf Color processColor (run_font Color rt) with
                       | Some color => cs ++ [ColorSegment.mk (len v) (len text) color]
                       | None => cs
                       end,
                       if isBoldFont Color (run_font Color rt)
                       then bs ++ [Segment.mk (len v) (len text)] else bs))
      by reflexivity.
    rewrite Hstep. clear Hstep.
    destruct (colorOf Color processColor (run_font Color rt)) as [c|] eqn:Hcol.
    + cbn [fmap option_fmap option_map]. fold text.
      replace (colours ++ (text, c) :: omap colourRun runs)
        with ((colours ++ [(text, c)]) ++ omap colourRun runs)
        by (rewrite <- app_assoc; reflexivity).
      apply (IH (_, _, _)); cbn [fst snd].
      * apply Forall_app. split; [exact Hold|].
        constructor; [apply inside_new|constructor].
      * rewrite fmap_app, Hread.
        cbn [fmap list_fmap ColorSegment.start ColorSegment.length ColorSegment.color].
        rewrite substr_append_r. reflexivity.
    + cbn [fmap option_fmap option_map]. apply (IH (_, _, _)); cbn [fst snd]; assumption.
Qed.

(** X22: in a row of one rich-text cell whose value needs no trimming, the
    text is the runs joined; the colour segments spell the coloured runs,
    in order; the bold segments spell the bold runs, in order, and, when
    the font of the cell is bold as well, one more segment follows them
    that covers the whole text. *)
Theorem processRow_rich_text_cell
    (cellFont : option (Font Color)) (runs : list Run) (textContent : Paragraph.t) :
  let cell := mkCell Color cellFont (RichText Color runs) in
  trim (cellValueOf Color cell) = cellValueOf Color cell ->
  Excel.processRow Color processColor [cell] = Some textContent ->
  exists (colours : list ColorSegment.t) (bolds : list Segment.t),
    Paragraph.text textContent = Some (cellValueOf Color cell) /\
    Paragraph.colorSegments textContent = Some colours /\
    Paragraph.boldSegments textContent = Some bolds /\
    colourReadAt (cellValueOf Color cell) <$> colours = omap colourRun runs /\
    boldRead (cellValueOf Color cell) <$> bolds
    = (run_text Color <$> List.filter boldRun runs)
      ++ (if isBoldFont Color cellFont then [cellValueOf Color cell] else []).
Proof.
  cbv zeta. set (cell := mkCell Color cellFont (RichText Color runs)).
  set (value := cellValueOf Color cell). intros Htrim.
  set (st := foldl addRun (EmptyString, [], []) runs).
  assert (Hvalue : fst (fst st) = value).
  { unfold st. rewrite addRun_value. reflexivity. }
  destruct (addRun_fold_bold runs (EmptyString, [], []) [] ltac:(constructor) eq_refl)
    as [Hbin Hb].
  pose proof (addRun_fold_colour runs (EmptyString, [], []) []
                ltac:(constructor) eq_refl) as Hc.
  cbv zeta in Hbin, Hb, Hc. fold st in Hbin, Hb, Hc.
  rewrite Hvalue in Hbin, Hb, Hc. cbn [app] in Hb, Hc.
  assert (Hcell : Excel.addCell Color processColor (mkRow EmptyString [] [] 0) cell
                  = if FontSize.nonEmpty (trim value)
                    then mkRow value (snd (fst st))
                           (if isBoldFont Color cellFont
                            then snd st ++ [Segment.mk 0 (len value)] else snd st)
                           (len value)
                    else mkRow EmptyString (snd (fst st)) (snd st) 0).
  { unfold Excel.addCell. cbv zeta.
    change (Excel.readCell Color processColor (mkRow EmptyString [] [] 0) cell) with st.
    rewrite Hvalue. reflexivity. }
  unfold Excel.processRow, Excel.readRow. cbv zeta. cbn [foldl].
  rewrite Hcell, Htrim.
  destruct (FontSize.nonEmpty value) eqn:Hne; cbn [rowText colorSegments boldSegments].
  - rewrite Htrim, Hne.
    intros H. injection H as <-. eexists _, _.
    split; [reflexivity|]. split; [reflexivity|]. split; [reflexivity|].
    split; [exact Hc|].
    destruct (isBoldFont Color cellFont).
    + rewrite fmap_app, Hb. cbn [fmap list_fmap Segment.start Segment.length].
      f_equal. f_equal. exact (substr_append_r EmptyString value).
    + rewrite Hb, app_nil_r. reflexivity.
  - discriminate.
Qed.

End RichTextFacts.

Lemma processRow_rich_text_cell_witness :
  exists (colours : list ColorSegment.t) (bolds : list Segment.t),
    Paragraph.text (Paragraph.mk (Some "Sale now")
                                 (Some [ColorSegment.mk 5 3 "#FF0000"])
                                 (Some [Segment.mk 5 3; Segment.mk 0 8]))
    = Some (Excel.cellValueOf string Fixtures.richCell) /\
    Paragraph.colorSegments (Paragraph.mk (Some "Sale now")
                                 (Some [ColorSegment.mk 5 3 "#FF0000"])
                                 (Some [Segment.mk 5 3; Segment.mk 0 8]))
    = Some colours /\
    Paragraph.boldSegments (Paragraph.mk (Some "Sale now")
                                 (Some [ColorSegment.mk 5 3 "#FF0000"])
                                 (Some [Segment.mk 5 3; Segment.mk 0 8]))
    = Some bolds /\
    (fun seg => (Excel.substr (Excel.cellValueOf string Fixtures.richCell)
                              (ColorSegment.start seg) (ColorSegment.length seg),
                 ColorSegment.color seg)) <$> colours
    = [("now", "#FF0000")] /\
    (fun seg => Excel.substr (Excel.cellValueOf string Fixtures.richCell)
                             (Segment.start seg) (Segment.length seg)) <$> bolds
    = ["now"; "Sale now"].
Proof.
  apply (processRow_rich_text_cell Fixtures.colourText
           (Some (Excel.mkFont string true None))
           [Excel.mkRun string "Sale " None;
            Excel.mkRun string "now"
              (Some (Excel.mkFont string true (Some "#FF0000")))]);
    reflexivity.
Defined.

(** ** From a row of the spreadsheet to the text objects *)

Section RowInsertion.
Import JsString Excel Wrap WrapSpec.
Context {Color : Type} (processColor : Font Color -> option string).

(** X23: a text content that [getAllTextFiles] has pushed for a row
    makes [insertTextIntoRegions] throw nothing of its own, whatever the
    image and the regions are: its text is not empty, so the text laid out
    is the trimmed text of the row and never the printed object; both
    segment lists are there, so the text objects are computed without an
    error (or there is no region of at least 100 by 30); and the insertion
    returns the image as it is or what [drawRegionsWithText] returns for
    these text objects: it throws only if that call throws. *)
Theorem processRow_text_is_inserted
    (cells : list (Cell Color)) (textContent : Paragraph.t)
    (imageBuffer : Cache.Buffer) (emptyRegions : list Rectangle.t) :
  Excel.processRow Color processColor cells = Some textContent ->
  textOf textContent = trim (rowText (Excel.readRow Color processColor cells)) /\
  FontSize.nonEmpty (textOf textContent) = true /\
  exists out,
    insertion_textObjects imageBuffer textContent emptyRegions = inr out /\
    forall drawRegionsWithText,
      insertTextIntoRegions drawRegionsWithText imageBuffer textContent
                            emptyRegions
      = match out,
              List.filter (fun r => (Rectangle.width r >=? 100)
                                    && (Rectangle.height r >=? 30))
                          emptyRegions with
        | Some textObjects, r :: _ =>
            drawRegionsWithText imageBuffer [r] textObjects
        | _, _ => inr imageBuffer
        end.
Proof.
  unfold Excel.processRow. cbv zeta.
  destruct (FontSize.nonEmpty (trim (rowText _))) eqn:Hink; [|discriminate].
  intros H. injection H as <-.
  unfold textOf. cbn [Paragraph.text]. rewrite Hink.
  split; [reflexivity|]. split; [exact Hink|].
  match goal with |- exists out, ?objects = inr out /\ _ =>
    assert (Hobjects : exists out, objects = inr out)
  end.
  { unfold insertion_textObjects, layoutLines.
    cbn [Paragraph.text Paragraph.colorSegments Paragraph.boldSegments].
    rewrite Hink.
    destruct (List.filter _ emptyRegions) as [|r rs]; [eexists; reflexivity|].
    cbn [Exc.prop_of Exc.ret Exc.bind Exc.throw].
    unfold wrapParagraphs.
    match goal with |- context [Exc.foldM (wrapParagraph ?n ?b ?w)
                                  (paragraphOf ?text ?cs ?bs <$> ?paras) _] =>
      destruct (wrapParagraphs_fold n b w text cs bs paras ([], true))
        as (st' & Hfold & _ & _); [constructor|]
    end.
    rewrite Hfold. cbn [Exc.ret Exc.bind]. eexists. reflexivity. }
  destruct Hobjects as [out Hout]. exists out. split; [exact Hout|].
  intros draw. unfold insertTextIntoRegions. rewrite Hout.
  destruct (List.filter _ emptyRegions) as [|r rs]; [destruct out; reflexivity|].
  cbn [Exc.ret Exc.bind]. destruct out; reflexivity.
Qed.

End RowInsertion.

Lemma processRow_text_is_inserted_witness :
  WrapSpec.textOf (Paragraph.mk (Some "Sale now")
                                (Some [ColorSegment.mk 4 3 "#FF0000"])
                                (Some [Segment.mk 5 3]))
  = Excel.trim (Excel.rowText (Excel.readRow string Fixtures.colourText
                                             Fixtures.sampleRow)) /\
  FontSize.nonEmpty (WrapSpec.textOf (Paragraph.mk (Some "Sale now")
                                (Some [ColorSegment.mk 4 3 "#FF0000"])
                                (Some [Segment.mk 5 3]))) = true /\
  exists out,
    Wrap.insertion_textObjects [] (Paragraph.mk (Some "Sale now")
                                (Some [ColorSegment.mk 4 3 "#FF0000"])
                                (Some [Segment.mk 5 3]))
                               Fixtures.sampleRegions = inr out /\
    forall drawRegionsWithText,
      Wrap.insertTextIntoRegions drawRegionsWithText []
        (Paragraph.mk (Some "Sale now")
                      (Some [ColorSegment.mk 4 3 "#FF0000"])
                      (Some [Segment.mk 5 3]))
        Fixtures.sampleRegions
      = match out,
              List.filter (fun r => (Rectangle.width r >=? 100)
                                    && (Rectangle.height r >=? 30))
                          Fixtures.sampleRegions with
        | Some textObjects, r :: _ => drawRegionsWithText [] [r] textObjects
        | _, _ => inr []
        end.
Proof.
  apply (processRow_text_is_inserted Fixtures.colourText Fixtures.sampleRow).
  reflexivity.
Defined.

(** ** Text insertion: the colour segments of a line *)

Section SpellFacts.
Import JsString Wrap WrapSpec LineSpec.

Lemma wordAt_append (line rest : string) (seg : LineColor.t) :
  wordAt line seg -> wordAt (line ++ rest)%string seg.
Proof.
  intros [(H1 & H2 & H3) Hread]. split.
  - unfold Excel.inside. rewrite len_append. pose proof (len_nonneg rest). lia.
  - rewrite <- Hread at 2. apply substr_append_l; assumption.
Qed.

Lemma wordAt_new (line word color : string) :
  wordAt (line ++ word)%string
         (LineColor.mk word (len (line ++ word)%string - len word) color).
Proof.
  replace (len (line ++ word)%string - len word) with (len line)
    by (rewrite len_append; lia).
  split; cbn [LineColor.start LineColor.text].
  - unfold Excel.inside. rewrite len_append.
    pose proof (len_nonneg line). pose proof (len_nonneg word). lia.
  - apply substr_append_r.
Qed.

Lemma spelled_empty : spelled EmptyString [].
Proof. split; [constructor|reflexivity]. Qed.

Lemma spelled_word (word color : string) :
  split space word = [word] -> spelled word [LineColor.mk word 0 color].
Proof.
  intros Hw. split.
  - constructor; [|constructor].
    pose proof (wordAt_new EmptyString word color) as H.
    cbn [append] in H. rewrite Z.sub_diag in H. exact H.
  - rewrite (lineWords_word word Hw). reflexivity.
Qed.

Section Paragraph.
Variables (normalFontSize boldFontSize effectiveWidth : float).
Variables (text : string).
Variables (colorSegments : list ColorSegment.t) (boldSegments : list Segment.t).

Local Abbreviation step :=
  (wrapWord normalFontSize boldFontSize effectiveWidth text
            colorSegments boldSegments).

(** The entries of the current line and of the lines pushed list their
    words. *)
Lemma wrapWord_spelled (w : string) (st : Line * list WrappedLine.t) :
  split space w = [w] ->
  spelled (currentLine (fst st)) (currentLineColors (fst st)) ->
  Forall lineSpelled (snd st) ->
  spelled (currentLine (fst (step st w))) (currentLineColors (fst (step st w))) /\
  Forall lineSpelled (snd (step st w)).
Proof.
  intros Hw [Hat Hwords] Hlines. destruct st as [ln ls].
  unfold wrapWord. cbn [fst snd] in *.
  destruct (_ <=? _)%float; cbn [fst snd currentLine currentLineColors].
  - split; [|exact Hlines]. split.
    + apply Forall_app. split; [|constructor; [apply wordAt_new|constructor]].
      eapply Forall_impl; [exact Hat|]. intros seg Hseg.
      apply wordAt_append.
      destruct (FontSize.nonEmpty (currentLine ln)); [|exact Hseg].
      apply wordAt_append. exact Hseg.
    + rewrite fmap_app, List.filter_app, Hwords.
      cbn [fmap list_fmap LineColor.text].
      destruct (currentLine ln) as [|c cl] eqn:Hcl; cbn [FontSize.nonEmpty].
      * rewrite lineWords_empty. symmetry. apply lineWords_word. exact Hw.
      * rewrite append_assoc. change (" " ++ w)%string with (String space w).
        symmetry. apply lineWords_join. exact Hw.
  - split; [apply spelled_word; exact Hw|].
    destruct (FontSize.nonEmpty (currentLine ln)); [|exact Hlines].
    apply Forall_app. split; [exact Hlines|]. constructor; [|constructor].
    unfold lineSpelled, lineOf.
    cbn [WrappedLine.colorSegments WrappedLine.text]. split; assumption.
Qed.

Lemma wrapWords_spelled (wrappedLines : list WrappedLine.t) :
  Forall lineSpelled wrappedLines ->
  Forall lineSpelled
         (wrapWords normalFontSize boldFontSize effectiveWidth text
                    colorSegments boldSegments wrappedLines).
Proof.
  intros Hls. unfold wrapWords. cbv zeta.
  set (st0 := (mkLine "" 0%float _ [], wrappedLines)).
  assert (Hfold :
    spelled (currentLine (fst (foldl step st0 (split space text))))
            (currentLineColors (fst (foldl step st0 (split space text)))) /\
    Forall lineSpelled (snd (foldl step st0 (split space text)))).
  { assert (H0 : spelled (currentLine (fst st0)) (currentLineColors (fst st0)))
      by exact spelled_empty.
    assert (H1 : Forall lineSpelled (snd st0)) by exact Hls.
    pose proof (split_word space text) as Hwords.
    clearbody st0. revert st0 H0 H1.
    induction Hwords as [|w ws Hw _ IH]; intros st0 H0 H1; [split; assumption|].
    cbn [foldl]. destruct (wrapWord_spelled w st0 Hw H0 H1) as [H0' H1'].
    apply IH; assumption. }
  destruct Hfold as [Hcur Hfold].
  set (st := foldl _ _ _) in *.
  destruct (FontSize.nonEmpty (currentLine (fst st))); [|exact Hfold].
  apply Forall_app. split; [exact Hfold|]. constructor; [|constructor].
  exact Hcur.
Qed.

End Paragraph.

Lemma wrapParagraphs_spelled (normalFontSize boldFontSize effectiveWidth : float)
    (text : string) (colorSegments : list ColorSegment.t)
    (boldSegments : list Segment.t) (paras : list string) :
  forall st st' : list WrappedLine.t * bool,
    Exc.foldM (wrapParagraph normalFontSize boldFontSize effectiveWidth)
              (paragraphOf text colorSegments boldSegments <$> paras) st
    = inr st' ->
    Forall lineSpelled (fst st) -> Forall lineSpelled (fst st').
Proof.
  induction paras as [|para paras IH]; intros st st'.
  - simpl. intros H. injection H as <-. tauto.
  - cbn [fmap list_fmap Exc.foldM]. unfold wrapParagraph at 1.
    cbn [paragraphOf Paragraph.text Paragraph.boldSegments
         Paragraph.colorSegments Exc.prop_of Exc.ret Exc.bind].
    intros Hfold Hst. apply (IH _ _ Hfold). cbn [fst].
    apply wrapWords_spelled.
    destruct (snd st); [exact Hst|].
    apply Forall_app. split; [exact Hst|]. constructor; [reflexivity|constructor].
Qed.

Lemma layoutLines_spelled
    (imageBuffer : Cache.Buffer) (textContent : Paragraph.t)
    (emptyRegions : list Rectangle.t) (layout : Layout) :
  layoutLines imageBuffer textContent emptyRegions = inr (Some layout) ->
  Forall lineSpelled (wrappedLines layout).
Proof.
  unfold layoutLines.
  destruct (List.filter _ emptyRegions) as [|r rs]; [discriminate|].
  destruct (Paragraph.colorSegments textContent) as [cs|];
    cbn [Exc.prop_of Exc.ret Exc.bind Exc.throw]; [|discriminate].
  destruct (Paragraph.boldSegments textContent) as [bs|];
    cbn [Exc.prop_of Exc.ret Exc.bind Exc.throw]; [|discriminate].
  unfold wrapParagraphs.
  destruct (Exc.foldM _ _ _) as [e|st'] eqn:Hfold;
    cbn [Exc.ret Exc.bind]; [discriminate|].
  intros H. injection H as <-. cbn [wrappedLines].
  apply (wrapParagraphs_spelled _ _ _ _ _ _ _ _ _ Hfold). constructor.
Qed.

(** A line of text that holds a word has a colour segment. *)
Lemma spelled_segments (line : string) (segs : list LineColor.t) :
  hasWord line = true -> spelled line segs -> segs <> [].
Proof.
  intros Hword [_ Hwords] ->. unfold hasWord in Hword.
  rewrite <- Hwords in Hword. discriminate.
Qed.

Lemma textObjectOf_spelled
    (normalFontSize boldFontSize lineHeight paragraphSpacing : float)
    (textStartX effectiveWidth : float) (lines : list WrappedLine.t) :
  Forall (fun line => properLine line = true) lines ->
  Forall lineSpelled lines ->
  forall st : float * list TextObject.t,
    Forall (fun obj =>
              TextObject.colorSegments obj <> [] /\
              spelled (TextObject.text obj) (TextObject.colorSegments obj))
           (snd st) ->
    Forall (fun obj =>
              TextObject.colorSegments obj <> [] /\
              spelled (TextObject.text obj) (TextObject.colorSegments obj))
           (snd (foldl (textObjectOf normalFontSize boldFontSize lineHeight
                                     paragraphSpacing textStartX effectiveWidth)
                       st lines)).
Proof.
  intros Hproper. induction Hproper as [|line lines Hline _ IH];
    intros Hspelled st Hst; [exact Hst|].
  apply Forall_cons in Hspelled as [Hsp Hspelled].
  cbn [foldl]. apply (IH Hspelled). unfold textObjectOf.
  destruct (_ && _); [exact Hst|].
  unfold properLine, lineSpelled in *.
  destruct (WrappedLine.isParagraphSpace line); [exact Hst|]. cbn [snd].
  apply Forall_app. split; [exact Hst|]. constructor; [|constructor].
  cbn [TextObject.colorSegments TextObject.text].
  destruct (WrappedLine.colorSegments line) as [segs|]; [|discriminate].
  split; [|exact Hsp]. apply (spelled_segments _ _ Hline Hsp).
Qed.

(** X24: every text object that [insertTextIntoRegions] hands to
    [drawRegionsWithText] has colour segments, so that it is drawn
    segment by segment; the segments list the words of the line: each
    segment reads its text in the text of the object at its [start], and
    the segment texts that are not empty are the non-empty words of the
    line, in order. *)
Theorem insertTextIntoRegions_segments_spell_line
    (imageBuffer : Cache.Buffer) (textContent : Paragraph.t)
    (emptyRegions : list Rectangle.t) (textObjects : list TextObject.t) :
  insertion_textObjects imageBuffer textContent emptyRegions
  = inr (Some textObjects) ->
  Forall (fun obj =>
            TextObject.colorSegments obj <> [] /\
            spelled (TextObject.text obj) (TextObject.colorSegments obj))
         textObjects.
Proof.
  unfold insertion_textObjects.
  destruct (layoutLines imageBuffer textContent emptyRegions)
    as [e|[layout|]] eqn:Hlayout; cbn [Exc.ret Exc.bind fmap option_fmap option_map];
    try discriminate.
  intros H. injection H as <-.
  destruct (layoutLines_keeps_words imageBuffer textContent
              emptyRegions layout Hlayout) as [_ Hproper].
  pose proof (layoutLines_spelled _ _ _ _ Hlayout) as Hspelled.
  unfold textObjectsOf. cbv zeta.
  apply textObjectOf_spelled; [exact Hproper|exact Hspelled|constructor].
Qed.

Lemma insertTextIntoRegions_segments_spell_line_witness :
  Forall (fun obj =>
            TextObject.colorSegments obj <> [] /\
            spelled (TextObject.text obj) (TextObject.colorSegments obj))
         (textObjectsOf Fixtures.sampleLayout).
Proof.
  apply (insertTextIntoRegions_segments_spell_line [] Fixtures.sampleText
           Fixtures.sampleRegions).
  vm_compute. reflexivity.
Defined.

End SpellFacts.

(** ** Font-size solver: a text without characters *)

Section NaNFacts.
Import JsNum.

Lemma SFcompare_refl (f : spec_float) :
  f <> S754_nan -> SFcompare f f = Some Eq.
Proof.
  destruct f as [s|s| |s m e]; simpl; intros Hf; try reflexivity.
  - destruct s; reflexivity.
  - contradiction.
  - rewrite Z.compare_refl.
    change (PosDef.Pos.compare_cont Eq m m) with (Pos.compare m m).
    rewrite Pos.compare_refl. destruct s; reflexivity.
Qed.

(** There is one NaN. *)
Lemma is_nan_eq (x : float) : is_nan x = true -> x = nan.
Proof.
  unfold is_nan. rewrite FloatAxioms.eqb_spec. intros Hx.
  apply negb_true_iff in Hx. unfold SFeqb in Hx.
  assert (Hnan : Prim2SF x = S754_nan).
  { destruct (Prim2SF x) as [s|s| |s m e] eqn:Hp; try reflexivity;
      rewrite SFcompare_refl in Hx by discriminate; discriminate. }
  rewrite <- (FloatAxioms.SF2Prim_Prim2SF x), Hnan. reflexivity.
Qed.

Lemma div_nan (x : float) : (x / nan)%float = nan.
Proof.
  rewrite <- (FloatAxioms.SF2Prim_Prim2SF (x / nan)), FloatAxioms.div_spec.
  change (Prim2SF nan) with S754_nan.
  destruct (Prim2SF x); reflexivity.
Qed.

Lemma Math_min_nan (x : float) : Math_min x nan = nan.
Proof.
  unfold Math_min. destruct (is_nan x) eqn:Hx; [apply is_nan_eq; exact Hx|].
  reflexivity.
Qed.

End NaNFacts.

Section BlankTextFacts.
Import JsNum JsString FontSize BlankText.

Lemma countChars_blank (paragraphs : list Paragraph.t) :
  Forall blank paragraphs -> countChars paragraphs = inr (0, 0).
Proof.
  unfold countChars. intros Hall.
  match goal with |- Exc.foldM ?f _ _ = _ =>
    assert (Hfold : forall acc, Exc.foldM f paragraphs acc = inr acc)
  end.
  { induction Hall as [|para paragraphs [Ht Hb] _ IH]; intros acc; [reflexivity|].
    simpl. rewrite Ht, Hb. simpl. change (len "") with 0.
    rewrite Z.add_0_r, <- surjective_pairing. apply IH. }
  apply Hfold.
Qed.

Section Trial.
Variables (fontSize boldFontSize lineHeight : float).
Variables (effectiveWidth effectiveHeight : float).

(** A trial on blank paragraphs collects no line. *)
Lemma runTrial_blank (paragraphs : list Paragraph.t) :
  Forall blank paragraphs ->
  exists tr,
    runTrial fontSize boldFontSize lineHeight effectiveWidth effectiveHeight
             paragraphs = inr tr /\
    testLines tr = [].
Proof.
  intros Hall. unfold runTrial.
  match goal with |- context [Exc.foldM ?f _ _] =>
    assert (Hfold : forall st, testLines (fst st) = [] ->
                      exists st', Exc.foldM f paragraphs st = inr st' /\
                                  testLines (fst st') = [])
  end.
  { induction Hall as [|para paragraphs [Ht Hb] _ IH]; intros st Hst.
    - exists st. split; [reflexivity|exact Hst].
    - cbn [Exc.foldM]. unfold trialParagraph at 1. cbv zeta.
      rewrite Ht. cbn [Exc.prop_of Exc.ret Exc.bind nonEmpty wrapChars
                       currentLine].
      apply IH. cbn [fst].
      destruct (fitsFailed _); destruct (0 <? snd st); exact Hst. }
  destruct (Hfold (mkTrial [] 0%float false, 0) eq_refl) as (st' & -> & Hst').
  exists (fst st'). split; [reflexivity|exact Hst'].
Qed.

End Trial.

Lemma searchLoop_blank (effectiveWidth effectiveHeight : float)
    (paragraphs : list Paragraph.t) (fuel : nat) :
  Forall blank paragraphs ->
  forall st,
    exists st',
      searchLoop fuel effectiveWidth effectiveHeight paragraphs st = inr st' /\
      bestSize st' = bestSize st /\ bestLines st' = bestLines st.
Proof.
  intros Hall. induction fuel as [|fuel IH]; intros st; cbn [searchLoop].
  - exists st. split; [reflexivity|]. split; reflexivity.
  - destruct (_ && _); [|exists st; split; [reflexivity|split; reflexivity]].
    unfold searchStep. cbv zeta. unfold trialAt. cbv zeta.
    match goal with |- context [runTrial ?a ?b ?c ?d ?e paragraphs] =>
      destruct (runTrial_blank a b c d e paragraphs Hall) as (tr & -> & Hlines)
    end.
    cbn [Exc.ret Exc.bind]. unfold fits. rewrite Hlines.
    cbn [List.length Z.of_nat Z.ltb Z.compare]. rewrite andb_false_r.
    match goal with |- context [searchLoop fuel _ _ _ ?s] =>
      destruct (IH s) as (st' & Hloop & Hsize & Hbest)
    end.
    exists st'. split; [exact Hloop|]. split; assumption.
Qed.

(** X18: when no paragraph holds a character (the text is made of line
    breaks only), [calculateOptimalFontSize] does not fall back to a
    default size: the bold ratio is [0 / 0], no trial collects a line, and
    the plan returned has NaN as [normalFontSize] and as [boldFontSize],
    and 0 [estimatedLines], whatever the region is. *)
Theorem calculateOptimalFontSize_blank_text
    (imageBuffer : Cache.Buffer) (region : Region.t) (text : string)
    (paragraphs : list Paragraph.t) :
  Forall blank paragraphs ->
  calculateOptimalFontSize imageBuffer (Some region) text paragraphs
  = FontPlan.mk nan nan 1.2%float 0.
Proof.
  intros Hall. unfold calculateOptimalFontSize, fontSizeSearch.
  cbn [Exc.prop_of Exc.ret Exc.bind]. rewrite (countChars_blank _ Hall).
  cbn [Exc.ret Exc.bind fst snd].
  match goal with |- context [searchLoop ?f ?w ?h _ ?s] =>
    destruct (searchLoop_blank w h paragraphs f Hall s) as (st' & -> & Hsize & Hbest)
  end.
  cbn [Exc.catch Exc.ret Exc.bind]. unfold planOf. rewrite Hsize, Hbest.
  cbn [bestSize bestLines List.length Z.of_nat].
  assert (Hnan : initialSizeOf region paragraphs 0 0 = nan).
  { unfold initialSizeOf. cbv zeta.
    change (20 + Z2F 0 / Z2F 0 * 5)%float with nan.
    rewrite div_nan. change (Math_floor nan) with nan. apply Math_min_nan. }
  rewrite Hnan. reflexivity.
Qed.

Lemma calculateOptimalFontSize_blank_text_witness :
  calculateOptimalFontSize [] (Some (Region.mk 0 0 1200 800))
    (String newline EmptyString) [Samples.plain ""; Samples.plain ""]
  = FontPlan.mk nan nan 1.2%float 0.
Proof.
  apply (calculateOptimalFontSize_blank_text [] (Region.mk 0 0 1200 800)
           (String newline EmptyString) [Samples.plain ""; Samples.plain ""]).
  repeat constructor.
Defined.

End BlankTextFacts.
